(** * GhostFeed content script: reconciliation and rate enforcement

    A shallow embedding of [src/contentScript.js]: the tiered preference
    store, the body-flag reconciler, the playback-rate enforcer and the
    storage-change handler, followed by the properties the specification
    states about them.

    Conventions of the embedding.
    - A JavaScript number is a [number]: an exact rational, one of the two
      infinities, or NaN.  Rounding of binary floating point is not
      modelled; comparisons, [Math.min], [Math.max] and [Math.abs] follow
      ECMAScript on these values.
    - A settings object is a finite map from property names to values, and
      it lives in a store of objects addressed by references, because the
      script hands the same object around and assigns to its properties.
    - Instants are integers (milliseconds, as [Date.now()] returns them).
    - The built-ins [parseFloat] and [Number.prototype.toString] are the
      members of the class [Builtins]; the script is embedded over any
      implementation of them.
    - An assignment to [playbackRate] of a media element goes through the
      element's setter, which throws for a value that is not finite or out
      of the supported range ([setterAccepts]). *)

From Stdlib Require Import ZArith QArith Qabs Lia Lqa Ascii String.
From stdpp Require Import base option list strings pretty gmap fin_maps.

Local Open Scope Z_scope.

(** ** JavaScript numbers *)

Inductive number : Type :=
  | NaN
  | NegInf
  | Fin (q : Q)
  | PosInf.

Definition isNaN (x : number) : bool :=
  match x with NaN => true | _ => false end.

Definition Qlt_bool (x y : Q) : bool := negb (Qle_bool y x).

(** [x < y]; false as soon as an operand is NaN. *)
Definition num_lt (x y : number) : bool :=
  match x, y with
  | NaN, _ | _, NaN => false
  | NegInf, NegInf => false
  | NegInf, _ => true
  | _, NegInf => false
  | PosInf, _ => false
  | Fin _, PosInf => true
  | Fin a, Fin b => Qlt_bool a b
  end.

(** [x <= y]; false as soon as an operand is NaN. *)
Definition num_le (x y : number) : bool :=
  match x, y with
  | NaN, _ | _, NaN => false
  | NegInf, _ => true
  | _, NegInf => false
  | _, PosInf => true
  | PosInf, _ => false
  | Fin a, Fin b => Qle_bool a b
  end.

Definition num_gt (x y : number) : bool := num_lt y x.
Definition num_ge (x y : number) : bool := num_le y x.

(** [x === y] on numbers (NaN differs from itself). *)
Definition num_eq (x y : number) : bool :=
  match x, y with
  | NegInf, NegInf | PosInf, PosInf => true
  | Fin a, Fin b => Qeq_bool a b
  | _, _ => false
  end.

(** [x - y]. *)
Definition num_sub (x y : number) : number :=
  match x, y with
  | NaN, _ | _, NaN => NaN
  | PosInf, PosInf | NegInf, NegInf => NaN
  | PosInf, _ => PosInf
  | NegInf, _ => NegInf
  | Fin _, PosInf => NegInf
  | Fin _, NegInf => PosInf
  | Fin a, Fin b => Fin (a - b)
  end.

Definition Math_abs (x : number) : number :=
  match x with
  | NaN => NaN
  | NegInf | PosInf => PosInf
  | Fin a => Fin (Qabs a)
  end.

(** [Math.min(x, y)] and [Math.max(x, y)]: NaN if an operand is NaN. *)
Definition Math_min (x y : number) : number :=
  match x, y with
  | NaN, _ | _, NaN => NaN
  | _, _ => if num_lt y x then y else x
  end.

Definition Math_max (x y : number) : number :=
  match x, y with
  | NaN, _ | _, NaN => NaN
  | _, _ => if num_lt x y then y else x
  end.

(** ** JavaScript values held by a settings object *)

Inductive jsval : Type :=
  | JBool (b : bool)
  | JNum (n : number).

(** A property read gives [None] for [undefined]. *)

(** [!!v]. *)
Definition truthy (v : option jsval) : bool :=
  match v with
  | None => false
  | Some (JBool b) => b
  | Some (JNum NaN) => false
  | Some (JNum (Fin q)) => negb (Qeq_bool q 0)
  | Some (JNum _) => true
  end.

(** The numeric conversion applied by arithmetic, by [Math.min] and by the
    [playbackRate] setter. *)
Definition ToNumber (v : option jsval) : number :=
  match v with
  | None => NaN
  | Some (JBool true) => Fin 1
  | Some (JBool false) => Fin 0
  | Some (JNum n) => n
  end.

(** [v === w]. *)
Definition strict_eq (v w : option jsval) : bool :=
  match v, w with
  | None, None => true
  | Some (JBool a), Some (JBool b) => Bool.eqb a b
  | Some (JNum a), Some (JNum b) => num_eq a b
  | _, _ => false
  end.

(** The built-ins the script calls on text. *)
Class Builtins : Type := {
  parseFloat : string -> number;
  Number_toString : number -> string
}.

(** [v.toString()] for a defined value. *)
Definition toString `{Builtins} (v : jsval) : string :=
  match v with
  | JBool true => "true"
  | JBool false => "false"
  | JNum n => Number_toString n
  end.

(** ** The page *)

(** A [<video>] element.  [playbackRate] of a media element is always a
    number, so the script's [typeof ... !== "number"] guard never fires.
    The setter is modelled as a plain assignment. *)
Record video : Type := Video { playbackRate : number }.

(** An [<img>] element: the thumbnail selectors it matches, its inline
    [filter] and [transition] styles, whether it carries
    [data-ghostfeed-blurred], and the element
    [img.closest('ytd-thumbnail, yt-image, ...')] finds, as an index into
    the document's containers. *)
Record image : Type := Image {
  img_selectors : list string;
  img_filter : string;
  img_transition : string;
  img_blurred : bool;
  img_closest : option nat
}.

(** A thumbnail container: whether it carries [data-ghostfeed-hover-added]
    and the images whose mouseenter/mouseleave handlers it holds. *)
Record container : Type := Container {
  hover_added : bool;
  hover_handlers : list nat
}.

(** The document: the attributes of [document.body], and the videos,
    images and thumbnail containers in document order.  The body is taken
    not to be a thumbnail container itself. *)
Record document : Type := Document {
  body : gmap string string;
  videos : list video;
  images : list image;
  containers : list container
}.

Definition set_body (b : gmap string string) (d : document) : document :=
  Document b (videos d) (images d) (containers d).
Definition set_videos (v : list video) (d : document) : document :=
  Document (body d) v (images d) (containers d).
Definition set_images (i : list image) (d : document) : document :=
  Document (body d) (videos d) i (containers d).
Definition set_containers (c : list container) (d : document) : document :=
  Document (body d) (videos d) (images d) c.

Definition setAttribute (name value : string) (attrs : gmap string string)
  : gmap string string := <[name := value]> attrs.
Definition removeAttribute (name : string) (attrs : gmap string string)
  : gmap string string := delete name attrs.

(** ** Constants of the script *)

Definition DEFAULT_SETTINGS : gmap string jsval :=
  <["masterEnabled" := JBool true]> (
  <["hideHome" := JBool true]> (
  <["hideShorts" := JBool true]> (
  <["hideComments" := JBool true]> (
  <["hideSidebar" := JBool true]> (
  <["hideEndscreen" := JBool true]> (
  <["hideRecs" := JBool true]> (
  <["hideGuide" := JBool false]> (
  <["blurThumbs" := JBool false]> (
  <["playbackRate" := JNum (Fin 1)]> ∅))))))))).

(** [Object.keys(DEFAULT_SETTINGS)]. *)
Definition SETTING_KEYS : list string :=
  ["masterEnabled"; "hideHome"; "hideShorts"; "hideComments"; "hideSidebar";
   "hideEndscreen"; "hideRecs"; "hideGuide"; "blurThumbs"; "playbackRate"].

(** [Object.entries(BODY_FLAG_ATTRIBUTES)]. *)
Definition BODY_FLAG_ATTRIBUTES : list (string * string) :=
  [("hideHome", "data-ghostfeed-hide-home");
   ("hideShorts", "data-ghostfeed-hide-shorts");
   ("hideComments", "data-ghostfeed-hide-comments");
   ("hideSidebar", "data-ghostfeed-hide-sidebar");
   ("hideEndscreen", "data-ghostfeed-hide-endscreen");
   ("hideRecs", "data-ghostfeed-hide-recs");
   ("hideGuide", "data-ghostfeed-hide-guide");
   ("blurThumbs", "data-ghostfeed-blur-thumbs")].

Definition MASTER_ATTRIBUTE : string := "data-ghostfeed-master-enabled".

(** [SPEED_CONFIG]: the fields the modelled functions read. *)
Definition customRange_min : number := Fin (1 # 10).
Definition customRange_max : number := Fin 16.
Definition gracePeriod : Z := 5000.

Definition thumbnailSelectors : list string :=
  ["img.yt-core-image"; "yt-image img"; "ytd-thumbnail img";
   "yt-img-shadow img"; "ytd-moving-thumbnail-renderer img";
   "ytd-playlist-thumbnail img"; "ytd-video-preview img";
   "ytd-rich-grid-media img"; ".ytd-thumbnail img"].

(** ** Thumbnail blur *)

Definition BLUR_FILTER : string := "blur(12px) saturate(0.6)".

(** [document.querySelectorAll(selector)] over the images, as indices. *)
Definition matchesSelector (selector : string) (img : image) : bool :=
  bool_decide (selector ∈ img_selectors img).

Definition querySelectorAll_img (selector : string) (d : document) : list nat :=
  List.filter (fun i => match images d !! i with
                        | Some img => matchesSelector selector img
                        | None => false
                        end) (seq 0 (length (images d))).

(** The body of [images.forEach] in [applyThumbnailBlur]. *)
Definition blurImage (d : document) (i : nat) : document :=
  match images d !! i with
  | None => d
  | Some img =>
    if img_blurred img then d
    else
      let img' := Image (img_selectors img) BLUR_FILTER "filter 0.2s ease"
                        true (img_closest img) in
      let d1 := set_images (<[i := img']> (images d)) d in
      match img_closest img with
      | None => d1
      | Some p =>
        match containers d1 !! p with
        | None => d1
        | Some parent =>
          if hover_added parent then d1
          else set_containers
                 (<[p := Container true (hover_handlers parent ++ [i])]>
                    (containers d1)) d1
        end
      end
  end.

Definition applyThumbnailBlur (d : document) : document :=
  foldl (fun d selector => foldl blurImage d (querySelectorAll_img selector d))
        d thumbnailSelectors.

Definition unblurImage (img : image) : image :=
  if img_blurred img
  then Image (img_selectors img) "" (img_transition img) false (img_closest img)
  else img.

Definition unmarkContainer (c : container) : container :=
  Container false (hover_handlers c).

(** [removeThumbnailBlur]: every [img[data-ghostfeed-blurred]] loses its
    filter and its marker, and every element carrying
    [data-ghostfeed-hover-added] loses that attribute. *)
Definition removeThumbnailBlur (d : document) : document :=
  Document (removeAttribute "data-ghostfeed-hover-added" (body d))
           (videos d)
           (unblurImage <$> images d)
           (unmarkContainer <$> containers d).

(** ** FlagReconciler: [applyBodyFlags] *)

Definition applyBodyFlag (isEnabled : bool) (settings : gmap string jsval)
    (attrs : gmap string string) (entry : string * string) : gmap string string :=
  let '(settingKey, attributeName) := entry in
  if negb isEnabled then removeAttribute attributeName attrs
  else
    let shouldApply := truthy (settings !! settingKey) in
    if shouldApply then setAttribute attributeName "true" attrs
    else removeAttribute attributeName attrs.

Definition applyBodyFlags (settings : gmap string jsval) (d : document) : document :=
  let isEnabled := truthy (settings !! "masterEnabled") in
  let b0 := if isEnabled
            then setAttribute MASTER_ATTRIBUTE "true" (body d)
            else removeAttribute MASTER_ATTRIBUTE (body d) in
  let b1 := foldl (applyBodyFlag isEnabled settings) b0 BODY_FLAG_ATTRIBUTES in
  let d1 := set_body b1 d in
  if isEnabled && truthy (settings !! "blurThumbs")
  then applyThumbnailBlur d1
  else removeThumbnailBlur d1.

(** ** The browser's stores *)

(** [window.localStorage]: its items, and whether reading or writing it
    throws (storage blocked, quota exceeded). *)
Record storageArea : Type := StorageArea {
  ls_items : gmap string string;
  ls_get_throws : bool;
  ls_set_throws : bool
}.

(** How a call of [chrome.storage.sync.get] or [.set] ends: it throws, it
    calls back with [chrome.runtime.lastError] set, it calls back with no
    result object, or it succeeds. *)
Inductive getBehaviour : Type := GetThrows | GetLastError | GetUndefined | GetSucceeds.
Inductive setBehaviour : Type := SetThrows | SetLastError | SetSucceeds.

(** The extension environment: what the capability probe sees, the items of
    the synced area, and how calls to it end. *)
Record chromeEnv : Type := ChromeEnv {
  chrome_defined : bool;
  chrome_storage : bool;
  chrome_storage_sync : bool;
  chrome_runtime : bool;
  chrome_runtime_id : bool;
  sync_items : gmap string jsval;
  sync_get : getBehaviour;
  sync_set : setBehaviour
}.

(** ** The script's state *)

(** [DEFAULT_SETTINGS] is a [const] binding to an object: the object lives
    in the store with every other settings object. *)
Definition DEFAULT_REF : nat := 0%nat.

Record state : Type := State {
  heap : gmap nat (gmap string jsval);
  currentSettings : nat;
  playbackWatcherActive : bool;
  lastUserInteractionTimestamp : Z;
  hasUserOverriddenSpeed : bool;
  isSpeedControlsInjected : bool;
  contextInvalidationWarned : bool;
  doc : document;
  localStorage : storageArea;
  chrome : chromeEnv
}.

Definition set_heap (h : gmap nat (gmap string jsval)) (st : state) : state :=
  State h (currentSettings st) (playbackWatcherActive st)
        (lastUserInteractionTimestamp st) (hasUserOverriddenSpeed st)
        (isSpeedControlsInjected st) (contextInvalidationWarned st)
        (doc st) (localStorage st) (chrome st).
Definition set_currentSettings (r : nat) (st : state) : state :=
  State (heap st) r (playbackWatcherActive st)
        (lastUserInteractionTimestamp st) (hasUserOverriddenSpeed st)
        (isSpeedControlsInjected st) (contextInvalidationWarned st)
        (doc st) (localStorage st) (chrome st).
Definition set_playbackWatcherActive (b : bool) (st : state) : state :=
  State (heap st) (currentSettings st) b
        (lastUserInteractionTimestamp st) (hasUserOverriddenSpeed st)
        (isSpeedControlsInjected st) (contextInvalidationWarned st)
        (doc st) (localStorage st) (chrome st).
Definition set_lastUserInteractionTimestamp (t : Z) (st : state) : state :=
  State (heap st) (currentSettings st) (playbackWatcherActive st)
        t (hasUserOverriddenSpeed st)
        (isSpeedControlsInjected st) (contextInvalidationWarned st)
        (doc st) (localStorage st) (chrome st).
Definition set_hasUserOverriddenSpeed (b : bool) (st : state) : state :=
  State (heap st) (currentSettings st) (playbackWatcherActive st)
        (lastUserInteractionTimestamp st) b
        (isSpeedControlsInjected st) (contextInvalidationWarned st)
        (doc st) (localStorage st) (chrome st).
Definition set_isSpeedControlsInjected (b : bool) (st : state) : state :=
  State (heap st) (currentSettings st) (playbackWatcherActive st)
        (lastUserInteractionTimestamp st) (hasUserOverriddenSpeed st)
        b (contextInvalidationWarned st)
        (doc st) (localStorage st) (chrome st).
Definition set_contextInvalidationWarned (b : bool) (st : state) : state :=
  State (heap st) (currentSettings st) (playbackWatcherActive st)
        (lastUserInteractionTimestamp st) (hasUserOverriddenSpeed st)
        (isSpeedControlsInjected st) b
        (doc st) (localStorage st) (chrome st).
Definition set_doc (d : document) (st : state) : state :=
  State (heap st) (currentSettings st) (playbackWatcherActive st)
        (lastUserInteractionTimestamp st) (hasUserOverriddenSpeed st)
        (isSpeedControlsInjected st) (contextInvalidationWarned st)
        d (localStorage st) (chrome st).
Definition set_localStorage (ls : storageArea) (st : state) : state :=
  State (heap st) (currentSettings st) (playbackWatcherActive st)
        (lastUserInteractionTimestamp st) (hasUserOverriddenSpeed st)
        (isSpeedControlsInjected st) (contextInvalidationWarned st)
        (doc st) ls (chrome st).
Definition set_chrome (c : chromeEnv) (st : state) : state :=
  State (heap st) (currentSettings st) (playbackWatcherActive st)
        (lastUserInteractionTimestamp st) (hasUserOverriddenSpeed st)
        (isSpeedControlsInjected st) (contextInvalidationWarned st)
        (doc st) (localStorage st) c.

(** The object a reference denotes; a reference to nothing reads as an
    object without properties. *)
Definition deref (st : state) (r : nat) : gmap string jsval :=
  default ∅ (heap st !! r).

(** [r.key = v], and [{ ...obj }] stored at a new address. *)
Definition setProp (r : nat) (key : string) (v : jsval) (st : state) : state :=
  set_heap (<[r := <[key := v]> (deref st r)]> (heap st)) st.
Definition alloc (obj : gmap string jsval) (st : state) : nat * state :=
  let r := fresh (dom (heap st)) in (r, set_heap (<[r := obj]> (heap st)) st).

(** The settings the script currently works with. *)
Definition current (st : state) : gmap string jsval := deref st (currentSettings st).

(** ** Code that may throw: state and exceptions *)

Inductive completion (A : Type) : Type :=
  | Normal (a : A)
  | Throw.
Arguments Normal {A} a.
Arguments Throw {A}.

(** A computation runs from a state to a completion and the state it left
    behind; what it wrote before throwing stays written. *)
Definition M (A : Type) : Type := state -> completion A * state.

Definition ret {A} (a : A) : M A := fun st => (Normal a, st).
Definition bind {A B} (m : M A) (k : A -> M B) : M B :=
  fun st => match m st with
            | (Normal a, st') => k a st'
            | (Throw, st') => (Throw, st')
            end.
(** [try { m } catch (error) { h }]. *)
Definition try_catch {A} (m : M A) (h : M A) : M A :=
  fun st => match m st with
            | (Normal a, st') => (Normal a, st')
            | (Throw, st') => h st'
            end.
(** [throw error]. *)
Definition throw {A} : M A := fun st => (Throw, st).
Definition get_state : M state := fun st => (Normal st, st).
Definition modify (f : state -> state) : M unit := fun st => (Normal tt, f st).

#[global] Instance M_ret : MRet M := fun A a => ret a.
#[global] Instance M_bind : MBind M := fun A B k m => bind m k.

(** [list.forEach(f)]. *)
Fixpoint forEach {A} (f : A -> M unit) (l : list A) : M unit :=
  match l with
  | [] => ret tt
  | x :: l' => f x;; forEach f l'
  end.

(** An object literal: the new object's reference. *)
Definition new_object (obj : gmap string jsval) : M nat :=
  fun st => let '(r, st') := alloc obj st in (Normal r, st').

(** The state a computation leaves. *)
Definition exec {A} (m : M A) (st : state) : state := snd (m st).

Section Script.
Context `{Builtins}.

(** ** PersistenceStore *)

Definition getItem (key : string) : M (option string) :=
  fun st =>
    if ls_get_throws (localStorage st) then (Throw, st)
    else (Normal (ls_items (localStorage st) !! key), st).

Definition setItem (key value : string) : M unit :=
  fun st =>
    let ls := localStorage st in
    if ls_set_throws ls then (Throw, st)
    else (Normal tt,
          set_localStorage
            (StorageArea (<[key := value]> (ls_items ls))
                         (ls_get_throws ls) (ls_set_throws ls)) st).

(** [isChromeStorageAvailable]: no property read of the probe throws in
    this model, so its [catch] branch is not reached. *)
Definition isChromeStorageAvailable (st : state) : bool :=
  let c := chrome st in
  let hasChrome := chrome_defined c in
  let hasStorage := hasChrome && chrome_storage c in
  let hasSync := hasStorage && chrome_storage_sync c in
  let hasRuntime := hasChrome && chrome_runtime c in
  let hasRuntimeId := hasRuntime && chrome_runtime_id c in
  if negb hasChrome then false
  else if negb hasStorage then false
  else if negb hasSync then false
  else if negb hasRuntime then false
  else if negb hasRuntimeId then false
  else true.

Definition isExtensionContextValid (st : state) : bool :=
  isChromeStorageAvailable st.

(** The body of the [forEach] in [loadFromLocalStorageFallback], for the
    object [fallbackSettings]. *)
Definition loadKey (fallbackSettings : nat) (key : string) : M unit :=
  stored ← getItem ("ghostfeed-" +:+ key);
  match stored with
  | Some stored =>
    if String.eqb key "playbackRate" then
      let rate := parseFloat stored in
      if negb (isNaN rate) && num_gt rate (Fin 0)
      then modify (setProp fallbackSettings key (JNum rate))
      else ret tt
    else modify (setProp fallbackSettings key (JBool (String.eqb stored "true")))
  | None => ret tt
  end.

(** [loadFromLocalStorageFallback]: a copy of [DEFAULT_SETTINGS] overlaid
    with what the local store holds; the [DEFAULT_SETTINGS] object itself
    when the store throws.  The keys of [DEFAULT_SETTINGS] are those of its
    literal: no code adds or removes a property of it. *)
Definition loadFromLocalStorageFallback : M nat :=
  try_catch
    (st ← get_state;
     fallbackSettings ← new_object (deref st DEFAULT_REF);
     forEach (loadKey fallbackSettings) SETTING_KEYS;;
     ret fallbackSettings)
    (ret DEFAULT_REF).

(** [saveToLocalStorageBackup]: the keys are written to distinct items, so
    the order of [Object.keys] does not show. *)
Definition saveToLocalStorageBackup (settings : nat) : M unit :=
  try_catch
    (st ← get_state;
     forEach (fun entry : string * jsval =>
                setItem ("ghostfeed-" +:+ entry.1) (toString entry.2))
             (map_to_list (deref st settings)))
    (ret tt).

(** What the callback of [chrome.storage.sync.get] sees. *)
Inductive getReply : Type :=
  | ReplyLastError
  | ReplyResult (result : option nat).

(** [chrome.storage.sync.get(defaults, callback)]: on success a new object
    with, for every key of [defaults], the stored item or else the
    default. *)
Definition chrome_storage_sync_get (defaults : nat) : M getReply :=
  fun st =>
    match sync_get (chrome st) with
    | GetThrows => (Throw, st)
    | GetLastError => (Normal ReplyLastError, st)
    | GetUndefined => (Normal (ReplyResult None), st)
    | GetSucceeds =>
      let obj := map_imap (fun key dflt =>
                             Some (default dflt (sync_items (chrome st) !! key)))
                          (deref st defaults) in
      (result ← new_object obj; ret (ReplyResult (Some result))) st
    end.

(** [chrome.storage.sync.set(items, callback)]; returns whether the
    callback finds [chrome.runtime.lastError] set. *)
Definition chrome_storage_sync_set (items : gmap string jsval) : M bool :=
  fun st =>
    let c := chrome st in
    match sync_set c with
    | SetThrows => (Throw, st)
    | SetLastError => (Normal true, st)
    | SetSucceeds =>
      (Normal false,
       set_chrome (ChromeEnv (chrome_defined c) (chrome_storage c)
                             (chrome_storage_sync c) (chrome_runtime c)
                             (chrome_runtime_id c)
                             (items ∪ sync_items c) (sync_get c) (sync_set c)) st)
    end.

(** [loadSettingsFromStorage]: the promise's executor runs inside
    [try]/[catch]; the callback of [get] runs after it, outside.  The value
    is the settings object the promise resolves with. *)
Definition loadSettingsFromStorage : M nat :=
  started ← try_catch
    (st ← get_state;
     if isChromeStorageAvailable st
     then reply ← chrome_storage_sync_get DEFAULT_REF; ret (inr reply)
     else fallbackSettings ← loadFromLocalStorageFallback;
          ret (inl fallbackSettings))
    (fallbackSettings ← loadFromLocalStorageFallback;
     ret (inl fallbackSettings));
  match started with
  | inl settings => ret settings
  | inr ReplyLastError => loadFromLocalStorageFallback
  | inr (ReplyResult result) =>
    let settings := default DEFAULT_REF result in
    saveToLocalStorageBackup settings;;
    ret settings
  end.

(** ** RateEnforcer *)

(** The setter of [HTMLMediaElement.playbackRate], as [video.playbackRate =
    v] meets it in Chrome: it throws a [TypeError] for a value that is not
    finite and a [NotSupportedError] for one that is neither 0 nor within
    0.0625..16, and the element keeps its rate; any other value is
    stored.  The enforcement pass assigns clamped rates only and the reset
    assigns 1, which it accepts. *)
Definition setterAccepts (v : number) : bool :=
  match v with
  | Fin q => Qeq_bool q 0 || (Qle_bool (1 # 16) q && Qle_bool q 16)
  | _ => false
  end.

(** The test of the enforcement tick that spares a manual choice. *)
Definition enforcerSkips (hasOverride : bool) (lastInteraction now : Z) : bool :=
  let timeSinceUserAction := now - lastInteraction in
  hasOverride && (timeSinceUserAction <? gracePeriod).

Definition clampRate (rate : jsval) : number :=
  Math_max (Fin (1 # 16)) (Math_min (Fin 16) (ToNumber (Some rate))).

(** The body of the [forEach] in [applyPlaybackRateToVideos]: the element
    and the override flag after it. *)
Definition enforceVideo (rate : jsval) (lastInteraction now : Z)
    (videoElement : video) (hasOverride : bool) : video * bool :=
  if enforcerSkips hasOverride lastInteraction now then (videoElement, hasOverride)
  else
    let clampedRate := clampRate rate in
    if num_gt (Math_abs (num_sub (playbackRate videoElement) clampedRate))
              (Fin (1 # 100))
    then (Video clampedRate, false)
    else (videoElement, hasOverride).

Fixpoint enforceVideos (rate : jsval) (lastInteraction now : Z)
    (vs : list video) (hasOverride : bool) : list video * bool :=
  match vs with
  | [] => ([], hasOverride)
  | videoElement :: rest =>
    let '(v', o') := enforceVideo rate lastInteraction now videoElement hasOverride in
    let '(rest', o'') := enforceVideos rate lastInteraction now rest o' in
    (v' :: rest', o'')
  end.

(** [applyPlaybackRateToVideos(playbackRate)] run at instant [now]: every
    [Date.now()] of the pass reads the same instant. *)
Definition applyPlaybackRateToVideos (rate : jsval) (now : Z) (st : state) : state :=
  if negb (truthy (current st !! "masterEnabled")) then st
  else
    let '(vs, o) := enforceVideos rate (lastUserInteractionTimestamp st) now
                                  (videos (doc st)) (hasUserOverriddenSpeed st) in
    set_hasUserOverriddenSpeed o (set_doc (set_videos vs (doc st)) st).

(** [currentSettings.playbackRate || 1]. *)
Definition targetRate (st : state) : jsval :=
  match current st !! "playbackRate" with
  | Some v => if truthy (Some v) then v else JNum (Fin 1)
  | None => JNum (Fin 1)
  end.

(** The callback of the interval set by [startPlaybackRateWatcher]. *)
Definition watcherTick (now : Z) (st : state) : state :=
  applyPlaybackRateToVideos (targetRate st) now st.

(** [startPlaybackRateWatcher]: any running interval is cleared, and a new
    one is set only if the master flag is on. *)
Definition startPlaybackRateWatcher (st : state) : state :=
  set_playbackWatcherActive (truthy (current st !! "masterEnabled")) st.

(** [document.querySelectorAll("video").forEach(v => v.playbackRate = 1)]. *)
Definition resetVideos (st : state) : state :=
  set_doc (set_videos ((fun _ => Video (Fin 1)) <$> videos (doc st)) (doc st)) st.

(** [applySettingsImmediately(settings)] as a computation: it ends by the
    exception of the setter when the rate of [settings] is one the element
    refuses, after the markers are applied. *)
Definition applySettingsImmediately_call (settings : nat) : M unit :=
  fun st =>
    let st1 := set_doc (applyBodyFlags (deref st settings) (doc st)) st in
    if negb (truthy (deref st1 settings !! "masterEnabled"))
    then (Normal tt, resetVideos st1)
    else
      match videos (doc st1) with
      | videoElement :: rest =>
        let rate := deref st1 settings !! "playbackRate" in
        if truthy rate && negb (strict_eq rate (Some (JNum (Fin 1))))
        then if setterAccepts (ToNumber rate)
             then (Normal tt,
                   set_doc (set_videos (Video (ToNumber rate) :: rest) (doc st1)) st1)
             else (Throw, st1)
        else (Normal tt,
              setProp (currentSettings st1) "playbackRate"
                      (JNum (playbackRate videoElement)) st1)
      | [] => (Normal tt, st1)
      end.

(** The state [applySettingsImmediately(settings)] leaves, whether it
    returns or throws. *)
Definition applySettingsImmediately (settings : nat) (st : state) : state :=
  exec (applySettingsImmediately_call settings) st.

(** [handleNewVideoDetected]; the injection it schedules is the separate
    step [injectSpeedControls]. *)
Definition handleNewVideoDetected (now : Z) (st : state) : state :=
  let st1 := set_lastUserInteractionTimestamp 0
               (set_hasUserOverriddenSpeed false st) in
  applyPlaybackRateToVideos (targetRate st1) now st1.

(** ** ControlInjector: the part that touches the script's state *)

(** The nodes of the control are not modelled, only the mounted flag. *)
Definition injectSpeedControls (st : state) : state :=
  if isSpeedControlsInjected st then st else set_isSpeedControlsInjected true st.

Definition cleanupSpeedControls (st : state) : state :=
  set_isSpeedControlsInjected false st.

(** The fallback write of [setVideoSpeed]. *)
Definition saveRateLocally (speed : number) : M unit :=
  try_catch (setItem "ghostfeed-playbackRate" (Number_toString speed)) (ret tt).

(** [setVideoSpeed(speed)] run at instant [now].  The callback of
    [chrome.storage.sync.set] is run in the same step. *)
Definition setVideoSpeed (speed : number) (now : Z) : M unit :=
  try_catch
    (st ← get_state;
     (if negb (isExtensionContextValid st) && negb (contextInvalidationWarned st)
      then modify (set_contextInvalidationWarned true) else ret tt);;
     match videos (doc st) with
     | [] => ret tt
     | videoElement :: rest =>
       if isNaN speed || num_le speed (Fin 0) then ret tt
       else
         modify (set_lastUserInteractionTimestamp now);;
         modify (set_hasUserOverriddenSpeed true);;
         (if setterAccepts speed
          then modify (fun st => set_doc (set_videos (Video speed :: rest) (doc st)) st)
          else throw);;
         modify (fun st => setProp (currentSettings st) "playbackRate" (JNum speed) st);;
         st' ← get_state;
         let contextValid := isChromeStorageAvailable st' in
         if contextValid
         then try_catch
                (lastError ← chrome_storage_sync_set {["playbackRate" := JNum speed]};
                 if (lastError : bool) then saveRateLocally speed else ret tt)
                (saveRateLocally speed)
         else saveRateLocally speed
     end)
    (ret tt).

(** The [click] handler of a preset item whose [data-speed] parses to
    [speed]. *)
Definition onSpeedItemClick (speed : number) (now : Z) : M unit :=
  try_catch
    (if isNaN speed then ret tt
     else
       st ← get_state;
       match videos (doc st) with
       | [] => ret tt
       | _ => setVideoSpeed speed now
       end)
    (ret tt).

(** The range test of the free-form entry. *)
Definition customSpeedAccepted (speed : number) : bool :=
  negb (isNaN speed) && num_ge speed customRange_min && num_le speed customRange_max.

(** The [change] handler of the free-form entry, for the text typed (the
    [keydown] handler runs the accepting branch on Enter).  The entry's own
    nodes are not modelled: the rejecting branch only rewrites the field. *)
Definition onCustomInputChange (text : string) (now : Z) : M unit :=
  try_catch
    (let speed := parseFloat text in
     if customSpeedAccepted speed then
       st ← get_state;
       match videos (doc st) with
       | [] => ret tt
       | _ => setVideoSpeed speed now
       end
     else ret tt)
    (ret tt).

(** ** ChangeBridge *)

(** The test of the storage-change handler that spares a manual choice. *)
Definition changeHandlerSuppresses (hasOverride : bool) (lastInteraction now : Z) : bool :=
  let timeSinceUserAction := now - lastInteraction in
  hasOverride && (timeSinceUserAction <? 3000).

(** The part of the callback of [handleStorageChanges] that follows the
    application of the settings.  The blur it schedules is the separate
    step [onThumbnailTimer]. *)
Definition afterSettingsApplied (wasEnabled wasBlurEnabled : option jsval)
    (st2 : state) : state :=
  let st3 := startPlaybackRateWatcher st2 in
  let st4 :=
    if truthy (current st3 !! "masterEnabled") && negb (truthy wasEnabled)
    then injectSpeedControls st3
    else if negb (truthy (current st3 !! "masterEnabled")) && truthy wasEnabled
         then cleanupSpeedControls st3
         else st3 in
  let st5 :=
    if negb (strict_eq (current st4 !! "blurThumbs") wasBlurEnabled)
    then if truthy (current st4 !! "masterEnabled")
            && truthy (current st4 !! "blurThumbs")
         then st4
         else set_doc (removeThumbnailBlur (doc st4)) st4
    else st4 in
  if truthy wasEnabled && negb (truthy (current st5 !! "masterEnabled"))
  then resetVideos st5
  else st5.

(** The callback of [handleStorageChanges] once the settings are loaded:
    the state it leaves.  When [applySettingsImmediately] throws, the rest
    of the callback is not run. *)
Definition onSettingsLoaded (newSettings : nat) (now : Z) (st : state) : state :=
  let wasEnabled := current st !! "masterEnabled" in
  let wasBlurEnabled := current st !! "blurThumbs" in
  let st1 := set_currentSettings newSettings st in
  if changeHandlerSuppresses (hasUserOverriddenSpeed st1)
                             (lastUserInteractionTimestamp st1) now
  then afterSettingsApplied wasEnabled wasBlurEnabled
         (set_doc (applyBodyFlags (current st1) (doc st1)) st1)
  else
    match applySettingsImmediately_call (currentSettings st1) st1 with
    | (Normal _, st2) => afterSettingsApplied wasEnabled wasBlurEnabled st2
    | (Throw, st2) => st2
    end.

(** [handleStorageChanges(changes, area)] completing at instant [now]. *)
Definition handleStorageChanges (area : string) (now : Z) : M unit :=
  if negb (String.eqb area "sync") then ret tt
  else newSettings ← loadSettingsFromStorage;
       modify (onSettingsLoaded newSettings now).

(** ** Start-up, navigation and the remaining callbacks *)

(** [initializeExtension], up to the registration of listeners. *)
Definition initializeExtension : M unit :=
  try_catch
    (loaded ← loadSettingsFromStorage;
     modify (set_currentSettings loaded);;
     (st ← get_state; applySettingsImmediately_call (currentSettings st));;
     modify startPlaybackRateWatcher;;
     st ← get_state;
     if truthy (current st !! "masterEnabled")
     then modify injectSpeedControls
     else ret tt)
    (ret tt).

(** The listener of [yt-navigate-finish] and [yt-page-data-updated]. *)
Definition reapplySettings (st : state) : state :=
  applySettingsImmediately (currentSettings st) st.

(** The delayed [applyThumbnailBlur] of the mutation observer and of the
    storage-change handler. *)
Definition onThumbnailTimer (st : state) : state :=
  set_doc (applyThumbnailBlur (doc st)) st.

Definition setFilter (f : string) (d : document) (i : nat) : document :=
  match images d !! i with
  | Some img =>
    set_images (<[i := Image (img_selectors img) f (img_transition img)
                             (img_blurred img) (img_closest img)]> (images d)) d
  | None => d
  end.

(** The hover handlers registered on container [p]; the mouseleave one
    reads the settings current at the time of the event. *)
Definition onMouseEnter (p : nat) (st : state) : state :=
  match containers (doc st) !! p with
  | Some c => set_doc (foldl (setFilter "none") (doc st) (hover_handlers c)) st
  | None => st
  end.

Definition onMouseLeave (p : nat) (st : state) : state :=
  match containers (doc st) !! p with
  | Some c =>
    if truthy (current st !! "masterEnabled") && truthy (current st !! "blurThumbs")
    then set_doc (foldl (setFilter BLUR_FILTER) (doc st) (hover_handlers c)) st
    else st
  | None => st
  end.

(** ** The operations of the system *)

Inductive operation : Type :=
  | Initialize
  | WatcherTick (now : Z)
  | Navigation
  | NewVideoDetected (now : Z)
  | ThumbnailTimer
  | InjectTimer
  | SelectSpeed (speed : number) (now : Z)
  | CustomInputChange (text : string) (now : Z)
  | StorageChanged (area : string) (now : Z)
  | MouseEnter (p : nat)
  | MouseLeave (p : nat).

Definition run (op : operation) (st : state) : state :=
  match op with
  | Initialize => exec initializeExtension st
  | WatcherTick now => watcherTick now st
  | Navigation => reapplySettings st
  | NewVideoDetected now => handleNewVideoDetected now st
  | ThumbnailTimer => onThumbnailTimer st
  | InjectTimer => injectSpeedControls st
  | SelectSpeed speed now => exec (onSpeedItemClick speed now) st
  | CustomInputChange text now => exec (onCustomInputChange text now) st
  | StorageChanged area now => exec (handleStorageChanges area now) st
  | MouseEnter p => onMouseEnter p st
  | MouseLeave p => onMouseLeave p st
  end.

End Script.

(** The state the script starts from: [currentSettings] is a copy of
    [DEFAULT_SETTINGS], nothing is injected, no interaction has happened. *)
Definition initialState (d : document) (ls : storageArea) (c : chromeEnv) : state :=
  State (<[1%nat := DEFAULT_SETTINGS]> (<[DEFAULT_REF := DEFAULT_SETTINGS]> ∅))
        1%nat false 0 false false false d ls c.

(** ** A reference implementation of the built-ins on decimal text

    [parseFloat] reads the longest prefix that is a decimal literal, after
    leading blanks; [Number.prototype.toString] writes plain decimal
    notation, with at most twenty fractional digits.  It serves to run the
    script on concrete inputs. *)

Definition digitValue (c : ascii) : option N :=
  let n := N_of_ascii c in
  if (48 <=? n)%N && (n <=? 57)%N then Some (n - 48)%N else None.

(** The digits at the front of [s]: their value, their count, the rest. *)
Fixpoint readDigits (s : string) (acc : N) (count : nat) : N * nat * string :=
  match s with
  | String c s' =>
    match digitValue c with
    | Some d => readDigits s' (10 * acc + d)%N (S count)
    | None => (acc, count, s)
    end
  | EmptyString => (acc, count, s)
  end.

Definition isBlank (c : ascii) : bool :=
  let n := N_of_ascii c in
  (n =? 32)%N || ((9 <=? n)%N && (n <=? 13)%N).

Fixpoint skipBlanks (s : string) : string :=
  match s with
  | String c s' => if isBlank c then skipBlanks s' else s
  | EmptyString => s
  end.

Definition readSign (s : string) : bool * string :=
  match s with
  | String "-" s' => (true, s')
  | String "+" s' => (false, s')
  | _ => (false, s)
  end.

(** The exponent part at the front of [s], if there is one. *)
Definition readExponent (s : string) : Z :=
  match s with
  | String c s' =>
    if Ascii.eqb c "e" || Ascii.eqb c "E" then
      let '(neg, s'') := readSign s' in
      let '(e, count, _) := readDigits s'' 0%N 0%nat in
      match count with
      | O => 0
      | _ => if neg then - Z.of_N e else Z.of_N e
      end
    else 0
  | EmptyString => 0
  end.

Definition scale10 (q : Q) (e : Z) : Q :=
  if (0 <=? e)%Z then (q * inject_Z (10 ^ e))%Q
  else (q / inject_Z (10 ^ (- e)))%Q.

Definition parseDecimal (text : string) : number :=
  let '(neg, s1) := readSign (skipBlanks text) in
  if String.prefix "Infinity" s1 then (if neg then NegInf else PosInf)
  else
    let '(int, icount, s2) := readDigits s1 0%N 0%nat in
    let '(frac, fcount, s3) :=
      match s2 with
      | String "." s' => readDigits s' 0%N 0%nat
      | _ => (0%N, 0%nat, s2)
      end in
    match icount, fcount with
    | O, O => NaN
    | _, _ =>
      let mantissa :=
        (inject_Z (Z.of_N int)
         + inject_Z (Z.of_N frac) / inject_Z (10 ^ Z.of_nat fcount))%Q in
      let q := scale10 mantissa (readExponent s3) in
      Fin (Qred (if neg then - q else q))
    end.

(** The fractional digits of [r / den], for [0 <= r < den]. *)
Fixpoint fractionDigits (fuel : nat) (r den : Z) : string :=
  match fuel with
  | O => ""
  | S fuel' =>
    if (r =? 0)%Z then ""
    else pretty (r * 10 / den)%Z +:+ fractionDigits fuel' (r * 10 mod den)%Z den
  end.

Definition printDecimal (x : number) : string :=
  match x with
  | NaN => "NaN"
  | PosInf => "Infinity"
  | NegInf => "-Infinity"
  | Fin q =>
    let n := Z.abs (Qnum q) in
    let d := Z.pos (Qden q) in
    let sign := if (Qnum q <? 0)%Z then "-" else "" in
    let fraction := fractionDigits 20 (n mod d)%Z d in
    sign +:+ pretty (n / d)%Z
         +:+ (if String.eqb fraction "" then "" else "." +:+ fraction)
  end.

#[global] Instance decimalBuiltins : Builtins :=
  {| parseFloat := parseDecimal; Number_toString := printDecimal |}.

Example parseFloat_2_5 : parseFloat "2.5" = Fin (5 # 2).
Proof. vm_compute. reflexivity. Qed.
Example parseFloat_20 : parseFloat "20" = Fin 20.
Proof. vm_compute. reflexivity. Qed.
Example parseFloat_prefix : parseFloat "  1.5x" = Fin (3 # 2).
Proof. vm_compute. reflexivity. Qed.
Example parseFloat_exp : parseFloat "25e-1" = Fin (5 # 2).
Proof. vm_compute. reflexivity. Qed.
Example parseFloat_word : parseFloat "fast" = NaN.
Proof. vm_compute. reflexivity. Qed.
Example parseFloat_empty : parseFloat "" = NaN.
Proof. vm_compute. reflexivity. Qed.
Example toString_2_5 : Number_toString (Fin (5 # 2)) = "2.5".
Proof. vm_compute. reflexivity. Qed.
Example toString_16th : Number_toString (Fin (1 # 16)) = "0.0625".
Proof. vm_compute. reflexivity. Qed.
Example toString_1 : Number_toString (Fin 1) = "1".
Proof. vm_compute. reflexivity. Qed.

(** * Notions used to state the properties *)

(** A number lies in the closed interval from [lo] to [hi]. *)
Definition inRange (lo hi : Q) (x : number) : Prop :=
  exists q, x = Fin q /\ (lo <= q <= hi)%Q.

(** What one enforcement pass may do to an element: nothing, or write the
    clamped rate, which then lies between 0.0625 and 16. *)
Definition keptOrClamped (rate : jsval) (v v' : video) : Prop :=
  v' = v \/ (v' = Video (clampRate rate) /\ inRange (1 # 16) 16 (playbackRate v')).

(** Two rates are within 0.01 of each other. *)
Definition withinEpsilon (a b : number) : Prop :=
  exists x y, a = Fin x /\ b = Fin y /\ (Qabs (x - y) <= 1 # 100)%Q.

(** What an enforcement pass outside the grace window does to an element. *)
Definition overwriteRate (rate : jsval) (v : video) : video :=
  if num_gt (Math_abs (num_sub (playbackRate v) (clampRate rate))) (Fin (1 # 100))
  then Video (clampRate rate)
  else v.

(** A page with one video playing at the native rate, an extension
    environment in working order and an empty local store. *)
Definition workingChrome : chromeEnv :=
  ChromeEnv true true true true true ∅ GetSucceeds SetSucceeds.
Definition emptyStorage : storageArea := StorageArea ∅ false false.
Definition oneVideoPage : document := Document ∅ [Video (Fin 1)] [] [].
Definition startState : state := initialState oneVideoPage emptyStorage workingChrome.

(** What the fallback tier holds for a key, read as the specification
    words it: a flag is true exactly when the stored text is the literal
    [true]; the rate is the parsed text when that is a number, not NaN,
    strictly greater than 0; an unset or unparsable key has no value of its
    own and takes the default. *)
Definition storedValue `{Builtins} (items : gmap string string) (key : string)
  : option jsval :=
  match items !! ("ghostfeed-" +:+ key) with
  | None => None
  | Some text =>
    if decide (key = "playbackRate") then
      match parseFloat text with
      | NaN => None
      | rate => if num_lt (Fin 0) rate then Some (JNum rate) else None
      end
    else Some (JBool (bool_decide (text = "true")))
  end.

(** A settings object with exactly the keys of the schema. *)
Definition complete (obj : gmap string jsval) : Prop :=
  forall key : string, is_Some (obj !! key) <-> key ∈ SETTING_KEYS.

(** The conditions under which [load] reads the fallback tier: the probe
    finds the primary backend unavailable, or the call to it throws, or it
    reports an error. *)
Definition readsFallback (st : state) : Prop :=
  isChromeStorageAvailable st = false
  \/ sync_get (chrome st) = GetThrows
  \/ sync_get (chrome st) = GetLastError.

(** A valid snapshot: exactly the keys of the schema, every flag a
    boolean, the rate a number strictly greater than 0. *)
Definition validSnapshot (s : gmap string jsval) : Prop :=
  complete s
  /\ (forall key : string, key ∈ SETTING_KEYS -> key <> "playbackRate" ->
      exists b : bool, s !! key = Some (JBool b))
  /\ (exists rate : number,
        s !! "playbackRate" = Some (JNum rate) /\ num_lt (Fin 0) rate = true).

(** The text the platform writes for the rate of [s] reads back as that
    rate ([parseFloat(x.toString())] is [x] for every positive number in
    ECMAScript). *)
Definition rateTextReadsBack `{Builtins} (s : gmap string jsval) : Prop :=
  forall rate : number,
    s !! "playbackRate" = Some (JNum rate) ->
    parseFloat (Number_toString rate) = rate.

(** A snapshot that differs from the defaults in a flag and in the rate,
    held by a state without extension context and by one in working
    order. *)
Definition sampleSnapshot : gmap string jsval :=
  <["playbackRate" := JNum (Fin (5 # 2))]>
    (<["hideHome" := JBool false]> DEFAULT_SETTINGS).
Definition withSample (st : state) : state :=
  set_heap (<[2%nat := sampleSnapshot]> (heap st)) st.
Definition offlineChrome : chromeEnv :=
  ChromeEnv true true true true false ∅ GetSucceeds SetSucceeds.

(** Between two states, every object of the first is still there in the
    second, holds the same value under every key but [playbackRate], and
    has a [playbackRate] if it had one. *)
Definition heapFrame (st st' : state) : Prop :=
  forall r : nat,
    is_Some (heap st !! r) ->
    is_Some (heap st' !! r)
    /\ (forall key : string,
          key <> "playbackRate" -> deref st' r !! key = deref st r !! key)
    /\ (is_Some (deref st r !! "playbackRate") ->
        is_Some (deref st' r !! "playbackRate")).

(** The same, and [currentSettings] still names the same object. *)
Definition rateFrame (st st' : state) : Prop :=
  currentSettings st' = currentSettings st /\ heapFrame st st'.

(** A computation whose final state is always related to its initial one. *)
Definition preserves (R : state -> state -> Prop) {A : Type} (m : M A) : Prop :=
  forall st : state, R st (m st).2.

(** The operations that rebind [currentSettings]. *)
Definition rebinds (op : operation) : bool :=
  match op with
  | Initialize | StorageChanged _ _ => true
  | _ => false
  end.

(** Snapshot immutability as the specification words it: whatever the
    operation, the object that is the current snapshot before it holds the
    same values after it (the operation may at most make another object
    current). *)
Definition snapshotNeverMutatedInPlace `{Builtins} : Prop :=
  forall (op : operation) (st : state),
    is_Some (heap st !! currentSettings st) ->
    deref (run op st) (currentSettings st) = deref st (currentSettings st).

(** A page whose local store cannot be read and whose extension context is
    gone. *)
Definition blockedState : state :=
  initialState oneVideoPage (StorageArea ∅ true true) offlineChrome.

(** A working page whose synced area holds no rate and reports an error on
    writes, so that a selection reaches the local store only. *)
Definition staleSyncState : state :=
  initialState oneVideoPage emptyStorage
    (ChromeEnv true true true true true ∅ GetSucceeds SetLastError).

(** A working page where another writer has put the rate 1.5 in the synced
    area and where writes to that area report an error. *)
Definition contendedState : state :=
  initialState oneVideoPage emptyStorage
    (ChromeEnv true true true true true
               {["playbackRate" := JNum (Fin (3 # 2))]} GetSucceeds SetLastError).

(** The attributes of the body after the marker loop of [applyBodyFlags]. *)
Definition reconciledBody (settings : gmap string jsval) (b : gmap string string)
  : gmap string string :=
  let isEnabled := truthy (settings !! "masterEnabled") in
  foldl (applyBodyFlag isEnabled settings)
        (if isEnabled then setAttribute MASTER_ATTRIBUTE "true" b
         else removeAttribute MASTER_ATTRIBUTE b)
        BODY_FLAG_ATTRIBUTES.

(** Scenario A as the specification words it: after the defaults are
    applied no image is marked as blurred and every feature marker is on
    the body. *)
Definition scenarioA_as_stated (d : document) : Prop :=
  let d' := applyBodyFlags DEFAULT_SETTINGS d in
  Forall (fun img => img_blurred img = false) (images d')
  /\ Forall (fun entry : string * string => is_Some (body d' !! entry.2))
            BODY_FLAG_ATTRIBUTES.

(** One key of the loop of [loadFromLocalStorageFallback], on an object. *)
Definition overlayKey `{Builtins} (items : gmap string string) (obj : gmap string jsval)
    (key : string) : gmap string jsval :=
  match storedValue items key with
  | Some v => <[key := v]> obj
  | None => obj
  end.

(** The items of the local store after the loop of
    [saveToLocalStorageBackup] over the entries [l]. *)
Definition savedItems `{Builtins} (items : gmap string string) (l : list (string * jsval))
  : gmap string string :=
  foldl (fun items entry => <["ghostfeed-" +:+ entry.1 := toString entry.2]> items)
        items l.

(** The object [chrome.storage.sync.get] builds. *)
Definition syncResult (st : state) : gmap string jsval :=
  map_imap (fun key dflt => Some (default dflt (sync_items (chrome st) !! key)))
           (deref st DEFAULT_REF).

(** A page whose extension context is gone, with three items in the local
    store. *)
Definition offlineState : state :=
  initialState oneVideoPage
    (StorageArea (<["ghostfeed-playbackRate" := "2.5"]>
                  (<["ghostfeed-hideHome" := "false"]>
                   (<["ghostfeed-hideGuide" := "yes"]> ∅))) false false)
    offlineChrome.

(** * Further parts of the script *)

(** ** StructureWatcher: the mutation observer's callback *)

(** A node of [mutation.addedNodes], as the callback reads it: its
    [nodeType] and [tagName], whether it has a [querySelector] method, and
    whether that method finds a video or an image below the node. *)
Record addedNode : Type := AddedNode {
  nodeType : nat;
  tagName : string;
  has_querySelector : bool;
  contains_video : bool;
  contains_img : bool
}.

Definition isNewVideo (addedNode : addedNode) : bool :=
  String.eqb (tagName addedNode) "VIDEO"
  || (has_querySelector addedNode && contains_video addedNode).

Definition isNewThumbnail (addedNode : addedNode) : bool :=
  String.eqb (tagName addedNode) "IMG"
  || (has_querySelector addedNode && contains_img addedNode)
  || String.eqb (tagName addedNode) "YTD-THUMBNAIL"
  || String.eqb (tagName addedNode) "YT-IMAGE"
  || String.eqb (tagName addedNode) "YT-IMG-SHADOW".

(** The body of the inner loop, on the pair ([hasNewVideo],
    [hasNewThumbnails]). *)
Definition scanNode (found : bool * bool) (addedNode : addedNode) : bool * bool :=
  if Nat.eqb (nodeType addedNode) 1 then
    (if isNewVideo addedNode then true else found.1,
     if isNewThumbnail addedNode then true else found.2)
  else found.

(** The outer loop over the mutation records, each given by its added
    nodes, with its [break]. *)
Fixpoint scanMutations (found : bool * bool) (mutations : list (list addedNode))
  : bool * bool :=
  match mutations with
  | [] => found
  | addedNodes :: rest =>
    let found' := foldl scanNode found addedNodes in
    if found'.1 && found'.2 then found' else scanMutations found' rest
  end.

(** The callback of the observer, run at instant [now]: the state it
    leaves and whether it schedules the delayed [applyThumbnailBlur]. *)
Definition observerCallback (mutations : list (list addedNode)) (now : Z) (st : state)
  : state * bool :=
  let '(hasNewVideo, hasNewThumbnails) := scanMutations (false, false) mutations in
  let st1 := if hasNewVideo then handleNewVideoDetected now st else st in
  (st1,
   hasNewThumbnails && truthy (current st1 !! "masterEnabled")
   && truthy (current st1 !! "blurThumbs")).


(** ** What a rate selection leaves behind *)

(** The warning [setVideoSpeed] records once when the extension context is
    gone. *)
Definition warnOnce (st : state) : state :=
  if negb (isExtensionContextValid st) && negb (contextInvalidationWarned st)
  then set_contextInvalidationWarned true st
  else st.

(** The local effect of a selection: the instant and the override flag,
    the first video and the current snapshot's rate. *)
Definition selectionApplied (speed : number) (now : Z) (rest : list video) (st : state)
  : state :=
  setProp (currentSettings st) "playbackRate" (JNum speed)
    (set_doc (set_videos (Video speed :: rest) (doc st))
       (set_hasUserOverriddenSpeed true (set_lastUserInteractionTimestamp now st))).

(** Where the rate is persisted: in the synced area when the primary
    backend is available and accepts the write, otherwise in the local
    store when that can be written, otherwise nowhere. *)
Definition ratePersisted `{Builtins} (speed : number) (st : state) : state :=
  let c := chrome st in
  let ls := localStorage st in
  if isChromeStorageAvailable st
     && match sync_set c with SetSucceeds => true | _ => false end
  then set_chrome (ChromeEnv (chrome_defined c) (chrome_storage c)
                             (chrome_storage_sync c) (chrome_runtime c)
                             (chrome_runtime_id c)
                             ({["playbackRate" := JNum speed]} ∪ sync_items c)
                             (sync_get c) (sync_set c)) st
  else if ls_set_throws ls then st
  else set_localStorage
         (StorageArea (<["ghostfeed-playbackRate" := Number_toString speed]> (ls_items ls))
                      (ls_get_throws ls) (ls_set_throws ls)) st.

(** The first video plays at the rate the current snapshot holds. *)
Definition agrees (q : Q) (st : state) : Prop :=
  (exists rest, videos (doc st) = Video (Fin q) :: rest)
  /\ current st !! "playbackRate" = Some (JNum (Fin q)).


(** ** ControlInjector: placing the popover *)

(** A bounding box as [getBoundingClientRect] returns it (finite numbers). *)
Record domRect : Type := DomRect {
  rect_left : Q;
  rect_top : Q;
  rect_bottom : Q;
  rect_width : Q;
  rect_height : Q
}.

(** The [left] and [top] that [showSpeedMenu] gives the menu. *)
Definition menuPosition (buttonRect menuRect : domRect)
    (viewportWidth viewportHeight : Q) : Q * Q :=
  let margin := 12%Q in
  let left := (rect_left buttonRect + rect_width buttonRect / 2
               - rect_width menuRect / 2)%Q in
  let left :=
    if Qlt_bool left margin then margin
    else if Qlt_bool (viewportWidth - margin) (left + rect_width menuRect)
         then (viewportWidth - rect_width menuRect - margin)%Q
         else left in
  let top := (rect_top buttonRect - rect_height menuRect - margin)%Q in
  let top :=
    if Qlt_bool top margin then
      let top := (rect_bottom buttonRect + margin)%Q in
      if Qlt_bool (viewportHeight - margin) (top + rect_height menuRect)
      then (viewportHeight - rect_height menuRect - margin)%Q
      else top
    else top in
  (left, top).

(** ** ControlInjector: the menu's display of the rate *)

Definition presetSpeeds : list number :=
  [Fin (1 # 4); Fin (1 # 2); Fin (3 # 4); Fin 1; Fin (5 # 4); Fin (3 # 2);
   Fin (7 # 4); Fin 2; Fin (5 # 2); Fin 3; Fin 4].

(** [parseFloat(item.dataset.speed)] for the item [createSpeedMenu] makes
    with [data-speed="${speed}"]. *)
Definition itemSpeed `{Builtins} (preset : number) : number :=
  parseFloat (Number_toString preset).

(** Whether [updateSpeedDisplay(speed)] gives the item the class
    [active]. *)
Definition itemActive `{Builtins} (speed preset : number) : bool :=
  num_lt (Math_abs (num_sub (itemSpeed preset) speed)) (Fin (1 # 100)).

Definition isPreset (speed : number) : bool :=
  existsb (fun preset => num_lt (Math_abs (num_sub preset speed)) (Fin (1 # 100)))
          presetSpeeds.

(** The open menu after [updateSpeedDisplay(speed)]: which items are
    active, and the value of the free-form field. *)
Definition menuDisplay `{Builtins} (speed : number) : list bool * string :=
  (itemActive speed <$> presetSpeeds,
   if isPreset speed then "" else Number_toString speed).


(** ** Thumbnail blur, image by image *)

(** The image matches one of the thumbnail selectors. *)
Definition isThumbnail (img : image) : bool :=
  existsb (fun selector => matchesSelector selector img) thumbnailSelectors.

(** What [applyThumbnailBlur] does to an image it visits. *)
Definition blurOnce (img : image) : image :=
  if img_blurred img then img
  else Image (img_selectors img) BLUR_FILTER "filter 0.2s ease" true (img_closest img).

Definition blurIfThumbnail (img : image) : image :=
  if isThumbnail img then blurOnce img else img.

(** A page in a working extension whose primary backend holds the sample
    snapshot, with an empty local store. *)
Definition syncedState : state :=
  initialState oneVideoPage emptyStorage
    (ChromeEnv true true true true true sampleSnapshot GetSucceeds SetSucceeds).

(** The body's markers say what the settings [s] say: the master marker is
    present, with value [true], exactly when [masterEnabled] is truthy, and
    the marker of each feature exactly when [masterEnabled] and the
    feature's flag are both truthy. *)
Definition markersReflect (s : gmap string jsval) (b : gmap string string) : Prop :=
  b !! MASTER_ATTRIBUTE = (if truthy (s !! "masterEnabled") then Some "true" else None)
  /\ forall key attr : string, (key, attr) ∈ BODY_FLAG_ATTRIBUTES ->
       b !! attr = if truthy (s !! "masterEnabled") && truthy (s !! key)
                   then Some "true" else None.

Definition markersInStep (st : state) : Prop :=
  markersReflect (current st) (body (doc st)).

(** An image with its inline [filter] style set to [f]. *)
Definition withFilter (f : string) (img : image) : image :=
  Image (img_selectors img) f (img_transition img) (img_blurred img) (img_closest img).

(** The images whose hover handlers container [p] holds all show the blur
    filter. *)
Definition handlersBlurred (p : nat) (d : document) : Prop :=
  forall (c : container) (i : nat) (img : image),
    containers d !! p = Some c -> i ∈ hover_handlers c ->
    images d !! i = Some img -> img_filter img = BLUR_FILTER.

(** A page with one blurred thumbnail in a container that holds its hover
    handlers, and settings with the blur switched on. *)
Definition blurredPage : document :=
  applyThumbnailBlur
    (Document ∅ [] [Image ["ytd-thumbnail img"] "" "" false (Some 0%nat)]
              [Container false []]).
Definition blurringState : state :=
  set_heap (<[1%nat := <["blurThumbs" := JBool true]> DEFAULT_SETTINGS]>
              (<[DEFAULT_REF := DEFAULT_SETTINGS]> ∅))
           (initialState blurredPage emptyStorage workingChrome).

(** ** Start-up: [initializeWithRetry]

    [available n] is what [isChromeStorageAvailable()] finds after [n]
    waits of [retryDelay]; the value is the number of waits after which
    [initializeExtension] is called.  [tryInit] reschedules itself with
    [setTimeout]; the recursion is bounded by [fuel]. *)
Definition maxRetries : nat := 3.

Fixpoint tryInit (fuel : nat) (available : nat -> bool) (retryCount : nat) : option nat :=
  match fuel with
  | O => None
  | S fuel' =>
    if available retryCount || (maxRetries <=? retryCount)%nat
    then Some retryCount
    else tryInit fuel' available (S retryCount)
  end.

Definition initializeWithRetry (fuel : nat) (available : nat -> bool) : option nat :=
  if available 0%nat then Some 0%nat
  else tryInit fuel available 0%nat.

(** ** The popup script

    The popup runs in a page of its own and shares the synced storage area
    with the content script. *)

Definition DEFAULTS : gmap string jsval :=
  <["masterEnabled" := JBool true]> (
  <["hideHome" := JBool true]> (
  <["hideShorts" := JBool true]> (
  <["hideComments" := JBool true]> (
  <["hideSidebar" := JBool true]> (
  <["hideEndscreen" := JBool true]> (
  <["hideRecs" := JBool true]> (
  <["hideGuide" := JBool false]> (
  <["blurThumbs" := JBool false]> (
  <["playbackRate" := JNum (Fin 1)]> ∅))))))))).

(** [Object.keys(DEFAULTS)]. *)
Definition DEFAULTS_keys : list string :=
  ["masterEnabled"; "hideHome"; "hideShorts"; "hideComments"; "hideSidebar";
   "hideEndscreen"; "hideRecs"; "hideGuide"; "blurThumbs"; "playbackRate"].

Definition ids : list string :=
  List.filter (fun id => negb (String.eqb id "playbackRate")) DEFAULTS_keys.

(** An input element of the popup: its [type], [checked] and [value], and
    the number of [change] listeners it carries. *)
Record popupElement : Type := PopupElement {
  el_type : string;
  el_checked : bool;
  el_value : string;
  el_listeners : nat
}.

(** The popup's document: its elements by id, and the element with id
    [controls] (absent, or whether its class list holds [disabled]). *)
Record popupPage : Type := PopupPage {
  popup_elements : gmap string popupElement;
  popup_controls : option bool
}.

Definition set_sync_items (items : gmap string jsval) (c : chromeEnv) : chromeEnv :=
  ChromeEnv (chrome_defined c) (chrome_storage c) (chrome_storage_sync c)
            (chrome_runtime c) (chrome_runtime_id c) items (sync_get c) (sync_set c).

(** [getAll()]: the promise rejects when the call throws; the callback
    resolves with [v || DEFAULTS]. *)
Definition getAll (c : chromeEnv) : completion (gmap string jsval) :=
  match sync_get c with
  | GetThrows => Throw
  | GetLastError | GetUndefined => Normal DEFAULTS
  | GetSucceeds =>
    Normal (map_imap (fun key dflt => Some (default dflt (sync_items c !! key))) DEFAULTS)
  end.

(** [save(partial)]: the callback resolves whether or not
    [chrome.runtime.lastError] is set. *)
Definition save (partial : gmap string jsval) (c : chromeEnv)
  : completion unit * chromeEnv :=
  match sync_set c with
  | SetThrows => (Throw, c)
  | SetLastError => (Normal tt, c)
  | SetSucceeds => (Normal tt, set_sync_items (partial ∪ sync_items c) c)
  end.

Definition setControlsEnabled (enabled : option jsval) (pg : popupPage)
  : completion unit * popupPage :=
  match popup_controls pg with
  | None => (Throw, pg)
  | Some _ => (Normal tt, PopupPage (popup_elements pg) (Some (negb (truthy enabled))))
  end.

(** The value a [change] listener saves for its element. *)
Definition changedValue `{Builtins} (el : popupElement) : jsval :=
  if String.eqb (el_type el) "checkbox" then JBool (el_checked el)
  else JNum (parseFloat (el_value el)).

(** The [change] listener registered for [id]. *)
Definition onChange `{Builtins} (id : string) (w : popupPage * chromeEnv)
  : completion unit * (popupPage * chromeEnv) :=
  let '(pg, c) := w in
  match popup_elements pg !! id with
  | None => (Normal tt, w)
  | Some el =>
    let val := changedValue el in
    match save {[id := val]} c with
    | (Throw, c') => (Throw, (pg, c'))
    | (Normal _, c') =>
      if String.eqb id "masterEnabled"
      then let '(r, pg') := setControlsEnabled (Some val) pg in (r, (pg', c'))
      else (Normal tt, (pg, c'))
    end
  end.

(** The body of the loop of [init] for one id. *)
Definition initElement (values : gmap string jsval) (pg : popupPage) (id : string)
  : popupPage :=
  match popup_elements pg !! id with
  | None => pg
  | Some el =>
    let checked := match values !! id with
                   | Some (JBool b) => b
                   | _ => el_checked el
                   end in
    PopupPage (<[id := PopupElement (el_type el) checked (el_value el)
                                    (S (el_listeners el))]> (popup_elements pg))
              (popup_controls pg)
  end.

Definition init (w : popupPage * chromeEnv) : completion unit * (popupPage * chromeEnv) :=
  let '(pg, c) := w in
  match getAll c with
  | Throw => (Throw, w)
  | Normal values =>
    let pg1 := foldl (initElement values) pg ids in
    let '(r, pg2) := setControlsEnabled (values !! "masterEnabled") pg1 in
    (r, (pg2, c))
  end.

(** A popup with the checkbox of [hideHome], unchecked, and the controls
    element. *)
Definition samplePopup : popupPage :=
  PopupPage {["hideHome" := PopupElement "checkbox" false "on" 0]} (Some false).

(** What the loop of [init] makes of the element with id [id]. *)
Definition initialised (values : gmap string jsval) (id : string) (el : popupElement)
  : popupElement :=
  PopupElement (el_type el)
               (match values !! id with
                | Some (JBool b) => b
                | _ => el_checked el
                end)
               (el_value el) (S (el_listeners el)).

(** ** The states the script reaches *)

(** A page whose synced area reports an error on every call and whose
    local store throws on every access. *)
Definition failingStoresState : state :=
  initialState oneVideoPage (StorageArea ∅ true true)
    (ChromeEnv true true true true true ∅ GetLastError SetLastError).

(** The states the script can be in: it starts in [initialState], its
    operations run one after the other, and between two of them the page,
    the local store and the extension environment may change under it. *)
Inductive reachable `{Builtins} : state -> Prop :=
  | reach_start (d : document) (ls : storageArea) (c : chromeEnv) :
      reachable (initialState d ls c)
  | reach_run (op : operation) (st : state) :
      reachable st -> reachable (run op st)
  | reach_page (d : document) (st : state) :
      reachable st -> reachable (set_doc d st)
  | reach_store (ls : storageArea) (st : state) :
      reachable st -> reachable (set_localStorage ls st)
  | reach_chrome (c : chromeEnv) (st : state) :
      reachable st -> reachable (set_chrome c st).

(** The [DEFAULT_SETTINGS] object is in the store, holds its declared
    value under every key other than [playbackRate], and holds a rate. *)
Definition defaultsKept (st : state) : Prop :=
  is_Some (heap st !! DEFAULT_REF)
  /\ (forall key : string,
        key <> "playbackRate" -> deref st DEFAULT_REF !! key = DEFAULT_SETTINGS !! key)
  /\ is_Some (deref st DEFAULT_REF !! "playbackRate").

(** What the fallback tier gives for a key in state [st]: nothing of its
    own when the local store throws or the key has no valid text, and then
    the value the [DEFAULT_SETTINGS] object holds at that moment. *)
Definition loadedValue `{Builtins} (st : state) (key : string) : option jsval :=
  if ls_get_throws (localStorage st) then deref st DEFAULT_REF !! key
  else match storedValue (ls_items (localStorage st)) key with
       | Some v => Some v
       | None => deref st DEFAULT_REF !! key
       end.

(** The images whose hover handlers container [p] holds. *)
Definition hoverTargets (p : nat) (d : document) : list nat :=
  match containers d !! p with
  | Some c => hover_handlers c
  | None => []
  end.

(** * Properties *)

(** ** Numbers *)

Lemma Qlt_bool_iff (x y : Q) : Qlt_bool x y = true <-> (x < y)%Q.
Proof.
  unfold Qlt_bool. rewrite Bool.negb_true_iff.
  split.
  - intros Hle. apply Qnot_le_lt. intros Hyx.
    apply Qle_bool_iff in Hyx. congruence.
  - intros Hlt. destruct (Qle_bool y x) eqn:E; [|reflexivity].
    apply Qle_bool_iff in E. exfalso. exact (Qlt_not_le _ _ Hlt E).
Qed.

Lemma Qlt_bool_false_iff (x y : Q) : Qlt_bool x y = false <-> (y <= x)%Q.
Proof.
  unfold Qlt_bool. rewrite Bool.negb_false_iff. apply Qle_bool_iff.
Qed.


Lemma clampRate_cases (rate : jsval) :
  clampRate rate = NaN \/ inRange (1 # 16) 16 (clampRate rate).
Proof.
  unfold clampRate, inRange.
  destruct (ToNumber (Some rate)) as [| |q|]; simpl.
  - left; reflexivity.
  - right. exists (1 # 16). split; [reflexivity|]. split; [apply Qle_refl | discriminate].
  - right. destruct (Qlt_bool q 16) eqn:E16; simpl.
    + destruct (Qlt_bool (1 # 16) q) eqn:Elo.
      * exists q. split; [reflexivity|].
        apply Qlt_bool_iff in E16, Elo. split; apply Qlt_le_weak; assumption.
      * exists (1 # 16). split; [reflexivity|]. split; [apply Qle_refl | discriminate].
    + exists 16%Q. split; [reflexivity|]. split; [discriminate | apply Qle_refl].
  - right. exists 16%Q. split; [reflexivity|]. split; [discriminate | apply Qle_refl].
Qed.

Lemma num_gt_NaN_l (y : number) : num_gt (Math_abs (num_sub y NaN)) (Fin (1 # 100)) = false.
Proof. destruct y; reflexivity. Qed.

(** ** The enforcement step on one element *)

(** The step either leaves the element and the flag as they are, or it
    writes the clamped rate and clears the flag; it writes only outside the
    grace window and when the rates differ by more than 0.01. *)
Lemma enforceVideo_cases (rate : jsval) (last now : Z) (v : video) (o : bool) :
  enforceVideo rate last now v o = (v, o)
  \/ (enforceVideo rate last now v o = (Video (clampRate rate), false)
      /\ enforcerSkips o last now = false
      /\ num_gt (Math_abs (num_sub (playbackRate v) (clampRate rate)))
                (Fin (1 # 100)) = true).
Proof.
  unfold enforceVideo.
  destruct (enforcerSkips o last now); [left; reflexivity|].
  destruct (num_gt _ _) eqn:E; [right | left]; auto.
Qed.

Lemma written_rate_in_range (rate : jsval) (r : number) :
  num_gt (Math_abs (num_sub r (clampRate rate))) (Fin (1 # 100)) = true ->
  inRange (1 # 16) 16 (clampRate rate).
Proof.
  intros Hgt. destruct (clampRate_cases rate) as [HNaN | Hin]; [|exact Hin].
  rewrite HNaN, num_gt_NaN_l in Hgt. discriminate.
Qed.


Lemma setterAccepts_range (q : Q) :
  (1 # 16 <= q <= 16)%Q -> setterAccepts (Fin q) = true.
Proof.
  intros [Hlo Hhi]. unfold setterAccepts.
  apply Qle_bool_iff in Hlo, Hhi. rewrite Hlo, Hhi. apply orb_true_r.
Qed.

(** The rate the enforcement pass assigns is one the setter accepts. *)
Lemma written_rate_accepted (rate : jsval) (r : number) :
  num_gt (Math_abs (num_sub r (clampRate rate))) (Fin (1 # 100)) = true ->
  setterAccepts (clampRate rate) = true.
Proof.
  intros Hgt. destruct (written_rate_in_range rate r Hgt) as (q & -> & Hq).
  by apply setterAccepts_range.
Qed.

Lemma enforceVideos_keptOrClamped (rate : jsval) (last now : Z) (vs : list video) :
  forall o, Forall2 (keptOrClamped rate) vs (enforceVideos rate last now vs o).1.
Proof.
  induction vs as [|v vs IH]; intros o; simpl.
  - constructor.
  - destruct (enforceVideo_cases rate last now v o) as [E | (E & _ & Hgt)]; rewrite E.
    + specialize (IH o). destruct (enforceVideos rate last now vs o) as [rest' o''].
      simpl in *. constructor; [left; reflexivity | exact IH].
    + specialize (IH false). destruct (enforceVideos rate last now vs false) as [rest' o''].
      simpl in *. constructor; [|exact IH].
      right. split; [reflexivity|]. simpl. eapply written_rate_in_range; eauto.
Qed.

Lemma Forall2_same {A} (P : A -> A -> Prop) (l : list A) :
  (forall x, P x x) -> Forall2 P l l.
Proof. intros HP. induction l; constructor; auto. Qed.

Lemma applyPlaybackRateToVideos_keptOrClamped (rate : jsval) (now : Z) (st : state) :
  Forall2 (keptOrClamped rate) (videos (doc st))
          (videos (doc (applyPlaybackRateToVideos rate now st))).
Proof.
  unfold applyPlaybackRateToVideos.
  destruct (negb (truthy (current st !! "masterEnabled"))).
  - apply Forall2_same. intros v; left; reflexivity.
  - pose proof (enforceVideos_keptOrClamped rate (lastUserInteractionTimestamp st)
                  now (videos (doc st)) (hasUserOverriddenSpeed st)) as HF.
    destruct (enforceVideos _ _ _ _ _) as [vs o]. exact HF.
Qed.

Lemma customSpeedAccepted_iff (speed : number) :
  customSpeedAccepted speed = true <-> inRange (1 # 10) 16 speed.
Proof.
  unfold customSpeedAccepted, inRange, customRange_min, customRange_max, num_ge.
  destruct speed as [| |q|]; simpl.
  - split; [discriminate | intros (q & Hq & _); discriminate].
  - split; [discriminate | intros (q & Hq & _); discriminate].
  - rewrite Bool.andb_true_iff, !Qle_bool_iff. split.
    + intros [Hlo Hhi]. exists q. auto.
    + intros (q' & Hq & Hlo & Hhi). injection Hq as <-. auto.
  - split; [discriminate | intros (q & Hq & _); discriminate].
Qed.

(** A [try] whose [catch] swallows the exception completes normally. *)
Lemma try_catch_ret_normal (m : M unit) (st : state) :
  exists st', try_catch m (ret tt) st = (Normal tt, st').
Proof. unfold try_catch, ret. destruct (m st) as [[[]|] st']; eauto. Qed.

Lemma setVideoSpeed_normal `{Builtins} (speed : number) (now : Z) (st : state) :
  exists st', setVideoSpeed speed now st = (Normal tt, st').
Proof. apply try_catch_ret_normal. Qed.

(** C3. Clamp correctness.  An enforcement pass leaves each media element
    as it was or writes max(0.0625, min(16, target)) to it, a rate between
    0.0625 and 16; the free-form entry accepts the parsed value exactly
    when it is a number between 0.1 and 16 inclusive, and on any other
    value (out of range, or NaN for unparsable text) its change handler
    leaves the state as it was. *)
Theorem clamp_correctness `{Builtins} :
  (forall (rate : jsval) (now : Z) (st : state),
      Forall2 (keptOrClamped rate) (videos (doc st))
              (videos (doc (applyPlaybackRateToVideos rate now st))))
  /\ (forall rate : jsval,
         clampRate rate = Math_max (Fin (1 # 16)) (Math_min (Fin 16) (ToNumber (Some rate))))
  /\ (forall speed : number,
         customSpeedAccepted speed = true <-> inRange (1 # 10) 16 speed)
  /\ (forall (text : string) (now : Z) (st : state),
         ~ inRange (1 # 10) 16 (parseFloat text) ->
         onCustomInputChange text now st = (Normal tt, st))
  /\ (forall (text : string) (now : Z) (st : state),
         inRange (1 # 10) 16 (parseFloat text) ->
         videos (doc st) <> [] ->
         onCustomInputChange text now st = setVideoSpeed (parseFloat text) now st).
Proof.
  split; [apply applyPlaybackRateToVideos_keptOrClamped|].
  split; [reflexivity|].
  split; [apply customSpeedAccepted_iff|].
  split.
  - intros text now st Hout.
    unfold onCustomInputChange, try_catch.
    destruct (customSpeedAccepted (parseFloat text)) eqn:E; [|reflexivity].
    apply customSpeedAccepted_iff in E. contradiction.
  - intros text now st Hin Hvid.
    apply customSpeedAccepted_iff in Hin.
    unfold onCustomInputChange, try_catch. rewrite Hin.
    unfold mbind, M_bind, bind, get_state.
    destruct (videos (doc st)) eqn:Ev; [contradiction|].
    destruct (setVideoSpeed_normal (parseFloat text) now st) as [st' E].
    rewrite E. reflexivity.
Qed.

(** Scenario D: the entry [20] is rejected. *)
Lemma clamp_correctness_witness :
  onCustomInputChange "20" 0 startState = (Normal tt, startState).
Proof.
  apply (proj1 (proj2 (proj2 (proj2 clamp_correctness)))).
  intros (q & Hq & _ & Hhi). vm_compute in Hq. injection Hq as <-.
  unfold Qle in Hhi. simpl in Hhi. lia.
Defined.

Example entry_0_1_accepted : customSpeedAccepted (parseFloat "0.1") = true.
Proof. vm_compute. reflexivity. Qed.
Example entry_16_accepted : customSpeedAccepted (parseFloat "16") = true.
Proof. vm_compute. reflexivity. Qed.
Example entry_0_0625_rejected : customSpeedAccepted (parseFloat "0.0625") = false.
Proof. vm_compute. reflexivity. Qed.
Example entry_word_rejected : customSpeedAccepted (parseFloat "fast") = false.
Proof. vm_compute. reflexivity. Qed.

Example target_20_clamped :
  videos (doc (applyPlaybackRateToVideos (JNum (Fin 20)) 0 startState)) = [Video (Fin 16)].
Proof. vm_compute. reflexivity. Qed.
Example target_0_01_clamped :
  videos (doc (applyPlaybackRateToVideos (JNum (Fin (1 # 100))) 0 startState))
  = [Video (Fin (1 # 16))].
Proof. vm_compute. reflexivity. Qed.
Example target_0_0625_kept :
  clampRate (JNum (Fin (1 # 16))) = Fin (1 # 16).
Proof. vm_compute. reflexivity. Qed.

(** ** The epsilon test *)


Lemma withinEpsilon_test (a b : number) :
  withinEpsilon a b ->
  num_gt (Math_abs (num_sub a b)) (Fin (1 # 100)) = false.
Proof.
  intros (x & y & -> & -> & Hle). unfold num_gt. simpl.
  apply Qlt_bool_false_iff. exact Hle.
Qed.

Lemma enforceVideos_within (rate : jsval) (last now : Z) (o : bool) (vs : list video) :
  enforcerSkips o last now = false ->
  Forall (fun v => withinEpsilon (playbackRate v) (clampRate rate)) vs ->
  enforceVideos rate last now vs o = (vs, o).
Proof.
  intros Hskip HF. induction HF as [|v vs Hv _ IH]; simpl; [reflexivity|].
  unfold enforceVideo. rewrite Hskip, (withinEpsilon_test _ _ Hv), IH. reflexivity.
Qed.

Lemma state_eta (st : state) :
  State (heap st) (currentSettings st) (playbackWatcherActive st)
        (lastUserInteractionTimestamp st) (hasUserOverriddenSpeed st)
        (isSpeedControlsInjected st) (contextInvalidationWarned st)
        (doc st) (localStorage st) (chrome st) = st.
Proof. destruct st; reflexivity. Qed.

Lemma document_eta (d : document) :
  Document (body d) (videos d) (images d) (containers d) = d.
Proof. destruct d; reflexivity. Qed.

Lemma applyPlaybackRateToVideos_unchanged (rate : jsval) (now : Z) (st : state) :
  enforceVideos rate (lastUserInteractionTimestamp st) now (videos (doc st))
                (hasUserOverriddenSpeed st)
  = (videos (doc st), hasUserOverriddenSpeed st) ->
  applyPlaybackRateToVideos rate now st = st.
Proof.
  intros E. unfold applyPlaybackRateToVideos.
  destruct (negb _); [reflexivity|]. rewrite E.
  unfold set_hasUserOverriddenSpeed, set_doc, set_videos; simpl.
  rewrite document_eta. apply state_eta.
Qed.

(** C10. Epsilon frame.  Outside the grace window, an element whose rate is
    within 0.01 of the clamped target is left alone together with the
    override flag; the step changes the flag only when it writes the
    clamped rate to the element, which it does only when the rates differ
    by more than 0.01; and a pass over a page whose elements are all within
    0.01 of the clamped target, with the master flag on, changes nothing. *)
Theorem epsilon_frame (rate : jsval) (last now : Z) :
  (forall (v : video) (o : bool),
      enforcerSkips o last now = false ->
      withinEpsilon (playbackRate v) (clampRate rate) ->
      enforceVideo rate last now v o = (v, o))
  /\ (forall (v : video) (o : bool),
         (enforceVideo rate last now v o).2 <> o ->
         (enforceVideo rate last now v o).1 = Video (clampRate rate)
         /\ ~ withinEpsilon (playbackRate v) (clampRate rate))
  /\ (forall st : state,
         truthy (current st !! "masterEnabled") = true ->
         lastUserInteractionTimestamp st = last ->
         enforcerSkips (hasUserOverriddenSpeed st) last now = false ->
         Forall (fun v => withinEpsilon (playbackRate v) (clampRate rate))
                (videos (doc st)) ->
         applyPlaybackRateToVideos rate now st = st).
Proof.
  split; [|split].
  - intros v o Hskip Hin. unfold enforceVideo.
    rewrite Hskip, (withinEpsilon_test _ _ Hin). reflexivity.
  - intros v o Hchg.
    destruct (enforceVideo_cases rate last now v o) as [E | (E & _ & Hgt)];
      rewrite E in Hchg |- *; simpl in Hchg |- *; [congruence|].
    split; [reflexivity|]. intros Hin.
    rewrite (withinEpsilon_test _ _ Hin) in Hgt. discriminate.
  - intros st _ <- Hskip HF.
    apply applyPlaybackRateToVideos_unchanged.
    apply enforceVideos_within; assumption.
Qed.

Lemma epsilon_frame_witness :
  enforceVideo (JNum (Fin 1)) 0 6000 (Video (Fin (1005 # 1000))) true
  = (Video (Fin (1005 # 1000)), true).
Proof.
  apply (proj1 (epsilon_frame (JNum (Fin 1)) 0 6000)).
  - reflexivity.
  - exists (1005 # 1000)%Q, 1%Q. repeat split. vm_compute. discriminate.
Defined.

(** ** The grace window *)

Lemma enforceVideos_grace (rate : jsval) (last now : Z) (vs : list video) :
  enforcerSkips true last now = true ->
  enforceVideos rate last now vs true = (vs, true).
Proof.
  intros Hskip. induction vs as [|v vs IH]; simpl; [reflexivity|].
  unfold enforceVideo. rewrite Hskip, IH. reflexivity.
Qed.

Lemma enforcerSkips_after (o : bool) (last now : Z) :
  last + gracePeriod <= now -> enforcerSkips o last now = false.
Proof.
  intros Hle. unfold enforcerSkips.
  destruct o; [|reflexivity]. simpl. apply Z.ltb_ge. lia.
Qed.

Lemma enforceVideos_after (rate : jsval) (last now : Z) (vs : list video) :
  last + gracePeriod <= now ->
  forall o, (enforceVideos rate last now vs o).1 = overwriteRate rate <$> vs.
Proof.
  intros Hle. induction vs as [|v vs IH]; intros o; simpl; [reflexivity|].
  unfold enforceVideo, overwriteRate. rewrite (enforcerSkips_after o last now Hle).
  destruct (num_gt _ _).
  - specialize (IH false). destruct (enforceVideos rate last now vs false).
    simpl in *. rewrite IH. reflexivity.
  - specialize (IH o). destruct (enforceVideos rate last now vs o).
    simpl in *. rewrite IH. reflexivity.
Qed.

(** C1. Grace window.  With the override active since a manual change at
    instant [T], an enforcement pass at an instant strictly between [T] and
    [T + gracePeriod] leaves every element (indeed the whole state) as it
    is, whatever the target, and so does the watcher's tick; a pass at or
    after [T + gracePeriod], with the master flag on, gives every element
    the clamped target when its rate differs from it by more than 0.01 and
    leaves it otherwise. *)
Theorem grace_window (rate : jsval) (T now : Z) (st : state) :
  hasUserOverriddenSpeed st = true ->
  lastUserInteractionTimestamp st = T ->
  (T < now < T + gracePeriod ->
   applyPlaybackRateToVideos rate now st = st /\ watcherTick now st = st)
  /\ (T + gracePeriod <= now ->
      truthy (current st !! "masterEnabled") = true ->
      videos (doc (applyPlaybackRateToVideos rate now st))
      = overwriteRate rate <$> videos (doc st)).
Proof.
  intros Hov HT. split.
  - intros [Hlo Hhi].
    assert (Hskip : enforcerSkips true T now = true).
    { unfold enforcerSkips. simpl. apply Z.ltb_lt. lia. }
    split; [|unfold watcherTick];
      apply applyPlaybackRateToVideos_unchanged;
      rewrite Hov, HT; apply enforceVideos_grace; exact Hskip.
  - intros Hle Hmaster. unfold applyPlaybackRateToVideos.
    rewrite Hmaster. simpl.
    pose proof (enforceVideos_after rate T now (videos (doc st)) Hle
                  (hasUserOverriddenSpeed st)) as E.
    rewrite HT. destruct (enforceVideos _ _ _ _ _) as [vs o]. exact E.
Qed.

(** Scenario C, with the target passed to the pass: the user selects 2.5x
    at instant 0; with a target of 1x, a pass at 1000 ms leaves the element
    at 2.5x and a pass at 6000 ms sets it to 1x. *)
Example scenarioC_pass :
  let st := exec (setVideoSpeed (Fin (5 # 2)) 0) startState in
  videos (doc st) = [Video (Fin (5 # 2))]
  /\ videos (doc (applyPlaybackRateToVideos (JNum (Fin 1)) 1000 st))
     = [Video (Fin (5 # 2))]
  /\ videos (doc (applyPlaybackRateToVideos (JNum (Fin 1)) 6000 st))
     = [Video (Fin 1)].
Proof. vm_compute. repeat split; reflexivity. Qed.

(** The selection itself stores 2.5 as the target, so the watcher's own
    tick has nothing to revert afterwards. *)
Example selection_becomes_target :
  let st := run (SelectSpeed (Fin (5 # 2)) 0) startState in
  targetRate st = JNum (Fin (5 # 2))
  /\ videos (doc (watcherTick 6000 st)) = [Video (Fin (5 # 2))].
Proof. vm_compute. repeat split; reflexivity. Qed.

(** Scenario C as a run: the user selects 2.5x at instant 0; a change
    notification handled at 500 ms, inside the handler's window, makes a
    snapshot with the rate 1 current without touching the element; the
    watcher's tick at 1000 ms leaves the element at 2.5x and its tick at
    6000 ms sets it to 1x. *)
Lemma grace_window_witness :
  let st := run (StorageChanged "sync" 500)
                (run (SelectSpeed (Fin (5 # 2)) 0) staleSyncState) in
  targetRate st = JNum (Fin 1)
  /\ videos (doc st) = [Video (Fin (5 # 2))]
  /\ videos (doc (watcherTick 1000 st)) = [Video (Fin (5 # 2))]
  /\ videos (doc (watcherTick 6000 st)) = [Video (Fin 1)].
Proof.
  intros st.
  assert (Hov : hasUserOverriddenSpeed st = true) by (vm_compute; reflexivity).
  assert (HT : lastUserInteractionTimestamp st = 0) by (vm_compute; reflexivity).
  assert (Ht : targetRate st = JNum (Fin 1)) by (vm_compute; reflexivity).
  assert (Hv : videos (doc st) = [Video (Fin (5 # 2))]) by (vm_compute; reflexivity).
  destruct (grace_window (targetRate st) 0 1000 st Hov HT) as [Hin _].
  destruct (grace_window (targetRate st) 0 6000 st Hov HT) as [_ Hafter].
  split; [exact Ht|]. split; [exact Hv|]. split.
  - destruct Hin as [_ E]; [unfold gracePeriod; lia|]. rewrite E. exact Hv.
  - unfold watcherTick. rewrite Hafter.
    + rewrite Hv, Ht. reflexivity.
    + unfold gracePeriod; lia.
    + vm_compute; reflexivity.
Defined.

(** ** The two grace tests *)

(** Counterexample to C2: four seconds after a manual change the
    enforcement tick still skips the element while the change handler no
    longer suppresses the re-apply. *)
Lemma grace_tests_not_equal :
  ~ (forall (hasOverride : bool) (lastInteraction now : Z),
        changeHandlerSuppresses hasOverride lastInteraction now
        = enforcerSkips hasOverride lastInteraction now).
Proof.
  intros Heq. specialize (Heq true 0 4000). vm_compute in Heq. discriminate.
Qed.

(** The difference shows in a run: the user selects 2.5x at instant 0 while
    the synced area holds 1.5; a change notification handled at 2000 ms
    leaves the element at 2.5x, one handled at 4000 ms sets it to 1.5x,
    and the enforcement tick at 4000 ms still leaves it at 2.5x. *)
Example change_handler_overwrites_at_4000 :
  let st := run (SelectSpeed (Fin (5 # 2)) 0) contendedState in
  videos (doc st) = [Video (Fin (5 # 2))]
  /\ videos (doc (run (StorageChanged "sync" 2000) st)) = [Video (Fin (5 # 2))]
  /\ videos (doc (run (StorageChanged "sync" 4000) st)) = [Video (Fin (3 # 2))]
  /\ videos (doc (applyPlaybackRateToVideos (JNum (Fin (3 # 2))) 4000 st))
     = [Video (Fin (5 # 2))].
Proof. vm_compute. repeat split; reflexivity. Qed.

(** C2, amended.  The change handler applies a test of the same form with
    a window of 3000 ms where the enforcement tick uses [gracePeriod] =
    5000 ms: whenever the handler suppresses the re-apply the tick skips
    too, and the two tests differ exactly when the override is active and
    the time since the manual change is at least 3000 ms and below 5000
    ms. *)
Theorem grace_tests_related (hasOverride : bool) (lastInteraction now : Z) :
  changeHandlerSuppresses hasOverride lastInteraction now
  = (hasOverride && (now - lastInteraction <? 3000))
  /\ enforcerSkips hasOverride lastInteraction now
     = (hasOverride && (now - lastInteraction <? 5000))
  /\ (changeHandlerSuppresses hasOverride lastInteraction now = true ->
      enforcerSkips hasOverride lastInteraction now = true)
  /\ (changeHandlerSuppresses hasOverride lastInteraction now
      <> enforcerSkips hasOverride lastInteraction now
      <-> hasOverride = true /\ 3000 <= now - lastInteraction < 5000).
Proof.
  unfold changeHandlerSuppresses, enforcerSkips, gracePeriod.
  split; [reflexivity|]. split; [reflexivity|].
  destruct hasOverride; simpl.
  - split.
    + intros H3. apply Z.ltb_lt in H3. apply Z.ltb_lt. lia.
    + destruct (Z.ltb_spec (now - lastInteraction) 3000) as [H3|H3],
               (Z.ltb_spec (now - lastInteraction) 5000) as [H5|H5];
        split; intros Hx;
        try (exfalso; apply Hx; reflexivity);
        try (destruct Hx as [_ Hx]; lia);
        try discriminate;
        try lia;
        try (split; [reflexivity | lia]).
  - split; [discriminate|]. split; [congruence | intros [? _]; discriminate].
Qed.

Lemma grace_tests_related_witness :
  enforcerSkips true 0 2000 = true.
Proof.
  destruct (grace_tests_related true 0 2000) as (_ & _ & Himp & _).
  apply Himp. reflexivity.
Defined.

(** ** Reconciliation of the body markers *)

Lemma flags_lookup_notin (e : bool) (s : gmap string jsval) (k : string)
    (l : list (string * string)) :
  k ∉ l.*2 ->
  forall b : gmap string string, foldl (applyBodyFlag e s) b l !! k = b !! k.
Proof.
  induction l as [|[key a] l IH]; intros Hk b; simpl; [reflexivity|].
  rewrite fmap_cons in Hk. apply not_elem_of_cons in Hk as [Hne Hk]. simpl in Hne.
  rewrite (IH Hk).
  unfold applyBodyFlag, setAttribute, removeAttribute.
  destruct (negb e); [by rewrite lookup_delete_ne|].
  destruct (truthy (s !! key)); [by rewrite lookup_insert_ne | by rewrite lookup_delete_ne].
Qed.

Lemma flags_lookup_in (e : bool) (s : gmap string jsval) (key k : string)
    (l : list (string * string)) :
  NoDup l.*2 -> (key, k) ∈ l ->
  forall b : gmap string string,
    foldl (applyBodyFlag e s) b l !! k
    = if e && truthy (s !! key) then Some "true" else None.
Proof.
  induction l as [|[key' a] l IH]; intros Hnd Hin b; [by apply elem_of_nil in Hin|].
  rewrite fmap_cons in Hnd. apply NoDup_cons in Hnd as [Hfresh Hnd]. simpl in Hfresh.
  apply elem_of_cons in Hin as [Heq | Hin]; simpl.
  - injection Heq as <- <-. rewrite (flags_lookup_notin e s k l Hfresh).
    unfold applyBodyFlag, setAttribute, removeAttribute.
    destruct e; simpl; [|by rewrite lookup_delete_eq].
    destruct (truthy (s !! key)); [by rewrite lookup_insert_eq | by rewrite lookup_delete_eq].
  - apply IH; assumption.
Qed.

Lemma BODY_FLAG_ATTRIBUTES_NoDup : NoDup BODY_FLAG_ATTRIBUTES.*2.
Proof. compute_done. Qed.

Lemma MASTER_not_flag : MASTER_ATTRIBUTE ∉ BODY_FLAG_ATTRIBUTES.*2.
Proof. compute_done. Qed.

Lemma reconciledBody_master (s : gmap string jsval) (b : gmap string string) :
  reconciledBody s b !! MASTER_ATTRIBUTE
  = if truthy (s !! "masterEnabled") then Some "true" else None.
Proof.
  unfold reconciledBody. rewrite (flags_lookup_notin _ _ _ _ MASTER_not_flag).
  unfold setAttribute, removeAttribute.
  destruct (truthy (s !! "masterEnabled")); [by rewrite lookup_insert_eq | by rewrite lookup_delete_eq].
Qed.

Lemma reconciledBody_flag (s : gmap string jsval) (b : gmap string string)
    (key k : string) :
  (key, k) ∈ BODY_FLAG_ATTRIBUTES ->
  reconciledBody s b !! k
  = if truthy (s !! "masterEnabled") && truthy (s !! key) then Some "true" else None.
Proof.
  intros Hin. unfold reconciledBody.
  apply flags_lookup_in; [apply BODY_FLAG_ATTRIBUTES_NoDup | exact Hin].
Qed.

Lemma reconciledBody_other (s : gmap string jsval) (b : gmap string string) (k : string) :
  k <> MASTER_ATTRIBUTE -> k ∉ BODY_FLAG_ATTRIBUTES.*2 ->
  reconciledBody s b !! k = b !! k.
Proof.
  intros Hm Hk. unfold reconciledBody. rewrite (flags_lookup_notin _ _ _ _ Hk).
  unfold setAttribute, removeAttribute.
  destruct (truthy (s !! "masterEnabled")); [by rewrite lookup_insert_ne | by rewrite lookup_delete_ne].
Qed.

(** The blur functions leave the body alone, but for the hover marker. *)
Lemma blurImage_body (d : document) (i : nat) : body (blurImage d i) = body d.
Proof.
  unfold blurImage. destruct (images d !! i) as [img|]; [|reflexivity].
  destruct (img_blurred img); [reflexivity|].
  destruct (img_closest img) as [p|]; [|reflexivity]. simpl.
  destruct (containers d !! p) as [c|]; [|reflexivity].
  destruct (hover_added c); reflexivity.
Qed.

Lemma foldl_blurImage_body (l : list nat) (d : document) :
  body (foldl blurImage d l) = body d.
Proof.
  revert d. induction l as [|i l IH]; intros d; simpl; [reflexivity|].
  rewrite IH. apply blurImage_body.
Qed.

Lemma applyThumbnailBlur_body (d : document) : body (applyThumbnailBlur d) = body d.
Proof.
  unfold applyThumbnailBlur. generalize thumbnailSelectors as l.
  intros l. revert d. induction l as [|sel l IH]; intros d; simpl; [reflexivity|].
  rewrite IH. apply foldl_blurImage_body.
Qed.

Lemma applyBodyFlags_body (s : gmap string jsval) (d : document) :
  body (applyBodyFlags s d)
  = if truthy (s !! "masterEnabled") && truthy (s !! "blurThumbs")
    then reconciledBody s (body d)
    else removeAttribute "data-ghostfeed-hover-added" (reconciledBody s (body d)).
Proof.
  unfold applyBodyFlags. fold (reconciledBody s (body d)).
  destruct (truthy (s !! "masterEnabled") && truthy (s !! "blurThumbs")).
  - rewrite applyThumbnailBlur_body. reflexivity.
  - reflexivity.
Qed.

Lemma reconciledBody_idem (s : gmap string jsval) (b : gmap string string) :
  reconciledBody s (reconciledBody s b) = reconciledBody s b.
Proof.
  apply map_eq. intros k.
  destruct (decide (k = MASTER_ATTRIBUTE)) as [->|Hm].
  { by rewrite !reconciledBody_master. }
  destruct (decide (k ∈ BODY_FLAG_ATTRIBUTES.*2)) as [Hin|Hout].
  - apply list_elem_of_fmap in Hin as [[key a] [-> Hin]]. simpl.
    by rewrite !(reconciledBody_flag _ _ key a Hin).
  - by rewrite (reconciledBody_other _ _ _ Hm Hout).
Qed.

Lemma reconciledBody_delete (s : gmap string jsval) (b : gmap string string) (a : string) :
  a <> MASTER_ATTRIBUTE -> a ∉ BODY_FLAG_ATTRIBUTES.*2 ->
  reconciledBody s (delete a b) = delete a (reconciledBody s b).
Proof.
  intros Hm Ha. apply map_eq. intros k.
  destruct (decide (k = a)) as [->|Hka].
  { rewrite (reconciledBody_other _ _ _ Hm Ha). by rewrite !lookup_delete_eq. }
  rewrite (lookup_delete_ne _ a k) by congruence.
  destruct (decide (k = MASTER_ATTRIBUTE)) as [->|Hkm].
  { by rewrite !reconciledBody_master. }
  destruct (decide (k ∈ BODY_FLAG_ATTRIBUTES.*2)) as [Hin|Hout].
  - apply list_elem_of_fmap in Hin as [[key a'] [-> Hin]]. simpl.
    by rewrite !(reconciledBody_flag _ _ key a' Hin).
  - rewrite !(reconciledBody_other _ _ _ Hkm Hout). by rewrite lookup_delete_ne by congruence.
Qed.

(** C8. Idempotence of reconciliation: for every settings object and every
    document, [applyBodyFlags] applied twice leaves on the body exactly the
    attributes it leaves when applied once. *)
Theorem applyBodyFlags_idempotent (settings : gmap string jsval) (d : document) :
  body (applyBodyFlags settings (applyBodyFlags settings d))
  = body (applyBodyFlags settings d).
Proof.
  rewrite !applyBodyFlags_body.
  destruct (truthy (settings !! "masterEnabled") && truthy (settings !! "blurThumbs")).
  - apply reconciledBody_idem.
  - unfold removeAttribute.
    rewrite reconciledBody_delete.
    + by rewrite reconciledBody_idem, delete_delete_eq.
    + discriminate.
    + compute_done.
Qed.

(** ** Master flag off *)

Lemma unblurImage_unblurred (img : image) : img_blurred (unblurImage img) = false.
Proof. unfold unblurImage. destruct (img_blurred img) eqn:E; [reflexivity | exact E]. Qed.

Lemma unblurImage_filter (img : image) :
  img_blurred img = true -> img_filter (unblurImage img) = "".
Proof. unfold unblurImage. intros ->. reflexivity. Qed.

Lemma removeThumbnailBlur_unblurred (d : document) :
  Forall (fun img => img_blurred img = false) (images (removeThumbnailBlur d)).
Proof.
  simpl. apply Forall_fmap, Forall_forall. intros img _. apply unblurImage_unblurred.
Qed.

Lemma removeThumbnailBlur_filters (d : document) :
  Forall2 (fun img img' => img_blurred img = true -> img_filter img' = "")
          (images d) (images (removeThumbnailBlur d)).
Proof.
  simpl. apply Forall2_fmap_r, Forall2_same. intros img. exact (unblurImage_filter img).
Qed.

Lemma applyBodyFlags_off (s : gmap string jsval) (d : document) :
  truthy (s !! "masterEnabled") && truthy (s !! "blurThumbs") = false ->
  applyBodyFlags s d = removeThumbnailBlur (set_body (reconciledBody s (body d)) d).
Proof.
  intros Hoff. unfold applyBodyFlags. fold (reconciledBody s (body d)).
  rewrite Hoff. reflexivity.
Qed.

(** C4. Master flag off.  Applying a settings object whose master flag is
    off leaves the body without the master marker and without any
    per-feature marker, leaves no image marked as blurred, clears the
    filter of every image that was marked, and sets the rate of every
    media element to 1, whatever the other flags and whatever the document
    was. *)
Theorem master_off_clears (settings : nat) (st : state) :
  truthy (deref st settings !! "masterEnabled") = false ->
  let d' := doc (applySettingsImmediately settings st) in
  body d' !! MASTER_ATTRIBUTE = None
  /\ Forall (fun entry : string * string => body d' !! entry.2 = None)
            BODY_FLAG_ATTRIBUTES
  /\ Forall (fun img => img_blurred img = false) (images d')
  /\ Forall2 (fun img img' => img_blurred img = true -> img_filter img' = "")
             (images (doc st)) (images d')
  /\ Forall (fun v => playbackRate v = Fin 1) (videos d')
  /\ length (videos d') = length (videos (doc st)).
Proof.
  intros Hoff d'. subst d'.
  unfold applySettingsImmediately, exec, applySettingsImmediately_call.
  change (deref (set_doc _ st) settings) with (deref st settings).
  rewrite Hoff. simpl.
  rewrite applyBodyFlags_off by (rewrite Hoff; reflexivity).
  repeat split.
  - simpl. apply lookup_delete_None. right.
    rewrite reconciledBody_master, Hoff. reflexivity.
  - apply Forall_forall. intros [key a] Hin. simpl.
    apply lookup_delete_None. right.
    rewrite (reconciledBody_flag _ _ key a Hin), Hoff. reflexivity.
  - apply removeThumbnailBlur_unblurred.
  - apply (removeThumbnailBlur_filters (set_body _ (doc st))).
  - apply Forall_fmap, Forall_forall. intros v _. reflexivity.
  - apply length_fmap.
Qed.

Lemma master_off_clears_witness :
  let st := exec (setVideoSpeed (Fin (5 # 2)) 0) startState in
  let off := <["masterEnabled" := JBool false]> DEFAULT_SETTINGS in
  let st1 := set_heap (<[2%nat := off]> (heap st)) st in
  videos (doc st) = [Video (Fin (5 # 2))]
  /\ Forall (fun v => playbackRate v = Fin 1)
            (videos (doc (applySettingsImmediately 2 st1))).
Proof.
  intros st off st1. split; [reflexivity|].
  apply (master_off_clears 2 st1). reflexivity.
Defined.

(** ** Scenario A *)

(** Counterexample to C5: on a page without markers, applying the defaults
    leaves [data-ghostfeed-hide-guide] off the body, since [hideGuide]
    defaults to false. *)
Lemma scenarioA_counterexample : ~ scenarioA_as_stated oneVideoPage.
Proof.
  intros [_ HF]. rewrite Forall_forall in HF.
  specialize (HF ("hideGuide", "data-ghostfeed-hide-guide")).
  assert (Hnone : body (applyBodyFlags DEFAULT_SETTINGS oneVideoPage)
                  !! "data-ghostfeed-hide-guide" = None) by (vm_compute; reflexivity).
  simpl in HF. rewrite Hnone in HF.
  destruct HF as [x Hx]; [compute_done | discriminate].
Qed.

(** C5, amended.  After the defaults are applied to any document, no image
    is marked as blurred, the master marker and the markers of the six
    features that default to on are on the body, and the markers of the
    two features that default to off (hide-guide and blur-thumbs) are
    not. *)
Theorem scenarioA_defaults (d : document) :
  let d' := applyBodyFlags DEFAULT_SETTINGS d in
  Forall (fun img => img_blurred img = false) (images d')
  /\ body d' !! MASTER_ATTRIBUTE = Some "true"
  /\ Forall (fun a : string => body d' !! a = Some "true")
            ["data-ghostfeed-hide-home"; "data-ghostfeed-hide-shorts";
             "data-ghostfeed-hide-comments"; "data-ghostfeed-hide-sidebar";
             "data-ghostfeed-hide-endscreen"; "data-ghostfeed-hide-recs"]
  /\ Forall (fun a : string => body d' !! a = None)
            ["data-ghostfeed-hide-guide"; "data-ghostfeed-blur-thumbs"].
Proof.
  intros d'. subst d'.
  rewrite applyBodyFlags_off by reflexivity.
  split; [apply removeThumbnailBlur_unblurred|]. simpl.
  unfold removeAttribute.
  assert (Hflag : forall key a, (key, a) ∈ BODY_FLAG_ATTRIBUTES ->
            delete "data-ghostfeed-hover-added" (reconciledBody DEFAULT_SETTINGS (body d)) !! a
            = if truthy (DEFAULT_SETTINGS !! key) then Some "true" else None).
  { intros key a Hin.
    assert (a <> "data-ghostfeed-hover-added").
    { intros ->. apply (list_elem_of_fmap_2 snd) in Hin. revert Hin. compute_done. }
    rewrite lookup_delete_ne by congruence.
    rewrite (reconciledBody_flag _ _ key a Hin). reflexivity. }
  split.
  - rewrite lookup_delete_ne by discriminate.
    rewrite reconciledBody_master. reflexivity.
  - split; repeat constructor.
    + apply (Hflag "hideHome"). compute_done.
    + apply (Hflag "hideShorts"). compute_done.
    + apply (Hflag "hideComments"). compute_done.
    + apply (Hflag "hideSidebar"). compute_done.
    + apply (Hflag "hideEndscreen"). compute_done.
    + apply (Hflag "hideRecs"). compute_done.
    + apply (Hflag "hideGuide"). compute_done.
    + apply (Hflag "blurThumbs"). compute_done.
Qed.

(** ** Loading from the fallback tier *)

Section Loading.
Context `{Builtins}.

Lemma deref_set_heap (h : gmap nat (gmap string jsval)) (st : state) (r : nat) :
  deref (set_heap h st) r = default ∅ (h !! r).
Proof. reflexivity. Qed.

Lemma loadKey_spec (r : nat) (key : string) (st : state) :
  ls_get_throws (localStorage st) = false ->
  loadKey r key st
  = (Normal tt,
     match storedValue (ls_items (localStorage st)) key with
     | Some v => setProp r key v st
     | None => st
     end).
Proof.
  intros Hget. unfold loadKey, storedValue, mbind, M_bind, bind, getItem.
  rewrite Hget.
  destruct (ls_items (localStorage st) !! ("ghostfeed-" +:+ key)) as [text|];
    [|reflexivity].
  destruct (decide (key = "playbackRate")) as [->|Hne].
  - simpl. unfold num_gt.
    destruct (parseFloat text) as [| |q|]; simpl; try reflexivity.
    destruct (Qlt_bool 0 q); reflexivity.
  - apply String.eqb_neq in Hne. rewrite Hne.
    unfold modify. do 3 f_equal.
    destruct (String.eqb_spec text "true") as [->|Hn].
    + by rewrite bool_decide_eq_true_2.
    + by rewrite bool_decide_eq_false_2.
Qed.

Lemma loadKey_throws (r : nat) (key : string) (st : state) :
  ls_get_throws (localStorage st) = true ->
  loadKey r key st = (Throw, st).
Proof.
  intros Hget. unfold loadKey, mbind, M_bind, bind, getItem. rewrite Hget. reflexivity.
Qed.

Lemma forEach_loadKey (r : nat) (keys : list string) :
  forall (st : state) (obj : gmap string jsval),
    ls_get_throws (localStorage st) = false ->
    heap st !! r = Some obj ->
    forEach (loadKey r) keys st
    = (Normal tt,
       set_heap (<[r := foldl (overlayKey (ls_items (localStorage st))) obj keys]>
                   (heap st)) st).
Proof.
  induction keys as [|key keys IH]; intros st obj Hget Hobj; simpl.
  - unfold ret. rewrite insert_id by exact Hobj.
    unfold set_heap. by rewrite state_eta.
  - unfold mbind, M_bind, bind. rewrite (loadKey_spec r key st Hget).
    unfold overlayKey at 2.
    destruct (storedValue (ls_items (localStorage st)) key) as [v|].
    + rewrite (IH (setProp r key v st) (<[key := v]> obj)).
      * simpl. unfold set_heap; simpl. by rewrite insert_insert_eq.
      * exact Hget.
      * simpl. unfold deref. rewrite Hobj. simpl. by rewrite lookup_insert_eq.
    + by rewrite (IH st obj Hget Hobj).
Qed.

Lemma overlay_lookup (items : gmap string string) (keys : list string) (k : string) :
  forall obj : gmap string jsval,
    foldl (overlayKey items) obj keys !! k
    = match (if decide (k ∈ keys) then storedValue items k else None) with
      | Some v => Some v
      | None => obj !! k
      end.
Proof.
  induction keys as [|key keys IH]; intros obj; simpl.
  - destruct (decide (k ∈ [])) as [Hin|_]; [by apply elem_of_nil in Hin | reflexivity].
  - rewrite IH.
    destruct (decide (k ∈ keys)) as [Hin|Hout].
    + rewrite decide_True by (by apply elem_of_cons; right).
      destruct (storedValue items k) as [v|] eqn:Ek; [reflexivity|].
      unfold overlayKey. destruct (storedValue items key) as [v'|] eqn:Ekey; [|reflexivity].
      destruct (decide (key = k)) as [->|Hne]; [congruence|].
      by rewrite lookup_insert_ne.
    + destruct (decide (k = key)) as [->|Hne].
      * rewrite decide_True by (by apply elem_of_cons; left).
        unfold overlayKey. destruct (storedValue items key) as [v|]; [|reflexivity].
        by rewrite lookup_insert_eq.
      * rewrite decide_False by (rewrite elem_of_cons; intros [?|?]; contradiction).
        unfold overlayKey. destruct (storedValue items key) as [v|]; [|reflexivity].
        by rewrite lookup_insert_ne.
Qed.

Lemma alloc_spec (obj : gmap string jsval) (st : state) :
  let r := fresh (dom (heap st)) in
  new_object obj st = (Normal r, set_heap (<[r := obj]> (heap st)) st)
  /\ heap st !! r = None.
Proof.
  simpl. split; [reflexivity|].
  apply not_elem_of_dom. apply is_fresh.
Qed.

(** The fallback load when the local store can be read: a new object, the
    defaults overlaid with what the store holds. *)
Lemma loadFromLocalStorageFallback_reads (st : state) :
  ls_get_throws (localStorage st) = false ->
  let r := fresh (dom (heap st)) in
  loadFromLocalStorageFallback st
  = (Normal r,
     set_heap (<[r := foldl (overlayKey (ls_items (localStorage st)))
                          (deref st DEFAULT_REF) SETTING_KEYS]> (heap st)) st).
Proof.
  intros Hget r. unfold loadFromLocalStorageFallback, try_catch.
  generalize SETTING_KEYS as keys. intros keys.
  unfold mbind at 1, M_bind at 1, bind at 1, get_state at 1.
  unfold mbind at 1, M_bind at 1, bind at 1.
  destruct (alloc_spec (deref st DEFAULT_REF) st) as [-> _]. fold r.
  unfold mbind at 1, M_bind at 1, bind at 1.
  rewrite (forEach_loadKey r keys _ (deref st DEFAULT_REF)).
  - unfold ret, set_heap. simpl. by rewrite insert_insert_eq.
  - exact Hget.
  - simpl. by rewrite lookup_insert_eq.
Qed.

(** The fallback load when the local store throws: the [DEFAULT_SETTINGS]
    object itself. *)
Lemma loadFromLocalStorageFallback_throws (st : state) :
  ls_get_throws (localStorage st) = true ->
  loadFromLocalStorageFallback st
  = (Normal DEFAULT_REF,
     set_heap (<[fresh (dom (heap st)) := deref st DEFAULT_REF]> (heap st)) st).
Proof.
  intros Hget. unfold loadFromLocalStorageFallback, try_catch.
  unfold mbind at 1, M_bind at 1, bind at 1, get_state at 1.
  unfold mbind at 1, M_bind at 1, bind at 1.
  destruct (alloc_spec (deref st DEFAULT_REF) st) as [-> _].
  unfold mbind at 1, M_bind at 1, bind at 1.
  simpl. unfold mbind at 1, M_bind at 1, bind at 1.
  rewrite loadKey_throws by exact Hget. reflexivity.
Qed.

End Loading.

(** ** Saving to the fallback tier *)

Section Saving.
Context `{Builtins}.

Lemma storageArea_eta (ls : storageArea) :
  StorageArea (ls_items ls) (ls_get_throws ls) (ls_set_throws ls) = ls.
Proof. destruct ls; reflexivity. Qed.

Lemma set_localStorage_same (st : state) : set_localStorage (localStorage st) st = st.
Proof. destruct st; reflexivity. Qed.

Lemma forEach_setItem (l : list (string * jsval)) :
  forall st : state,
    ls_set_throws (localStorage st) = false ->
    forEach (fun entry : string * jsval =>
               setItem ("ghostfeed-" +:+ entry.1) (toString entry.2)) l st
    = (Normal tt,
       set_localStorage
         (StorageArea (savedItems (ls_items (localStorage st)) l)
                      (ls_get_throws (localStorage st)) false) st).
Proof.
  induction l as [|[k v] l IH]; intros st Hset; simpl.
  - unfold ret. rewrite <- Hset, storageArea_eta, set_localStorage_same. reflexivity.
  - unfold mbind, M_bind, bind, setItem. rewrite Hset.
    rewrite IH by reflexivity. reflexivity.
Qed.

Lemma forEach_setItem_throws (l : list (string * jsval)) (st : state) :
  ls_set_throws (localStorage st) = true ->
  exists c, forEach (fun entry : string * jsval =>
                       setItem ("ghostfeed-" +:+ entry.1) (toString entry.2)) l st
            = (c, st).
Proof.
  intros Hset. destruct l as [|[k v] l]; simpl.
  - eexists; reflexivity.
  - unfold mbind, M_bind, bind, setItem. rewrite Hset. eexists; reflexivity.
Qed.

(** [saveToLocalStorageBackup] completes normally and touches the local
    store only. *)
Lemma saveToLocalStorageBackup_spec (r : nat) (st : state) :
  saveToLocalStorageBackup r st
  = (Normal tt,
     if ls_set_throws (localStorage st) then st
     else set_localStorage
            (StorageArea (savedItems (ls_items (localStorage st))
                                     (map_to_list (deref st r)))
                         (ls_get_throws (localStorage st)) false) st).
Proof.
  unfold saveToLocalStorageBackup, try_catch.
  unfold mbind, M_bind, bind, get_state.
  destruct (ls_set_throws (localStorage st)) eqn:Hset.
  - destruct (forEach_setItem_throws (map_to_list (deref st r)) st Hset) as [c ->].
    destruct c as [[]|]; reflexivity.
  - rewrite forEach_setItem by exact Hset. reflexivity.
Qed.

Lemma prefix_inj (a b : string) : "ghostfeed-" +:+ a = "ghostfeed-" +:+ b -> a = b.
Proof. intros Heq. simpl in Heq. by simplify_eq. Qed.

Lemma savedItems_other (l : list (string * jsval)) (k : string) :
  k ∉ l.*1 ->
  forall items : gmap string string,
    savedItems items l !! ("ghostfeed-" +:+ k) = items !! ("ghostfeed-" +:+ k).
Proof.
  unfold savedItems. induction l as [|[k' v'] l IH]; intros Hk items; [reflexivity|].
  rewrite fmap_cons in Hk. apply not_elem_of_cons in Hk as [Hne Hk]. simpl in Hne.
  cbn [foldl]. rewrite (IH Hk). cbn [fst snd].
  rewrite lookup_insert_ne; [reflexivity|].
  intros Heq. apply prefix_inj in Heq. congruence.
Qed.

Lemma savedItems_lookup (l : list (string * jsval)) (k : string) (v : jsval) :
  NoDup l.*1 -> (k, v) ∈ l ->
  forall items : gmap string string,
    savedItems items l !! ("ghostfeed-" +:+ k) = Some (toString v).
Proof.
  induction l as [|[k' v'] l IH]; intros Hnd Hin items; [by apply elem_of_nil in Hin|].
  rewrite fmap_cons in Hnd. apply NoDup_cons in Hnd as [Hfresh Hnd]. simpl in Hfresh.
  apply elem_of_cons in Hin as [Heq | Hin].
  - injection Heq as <- <-. unfold savedItems. cbn [foldl].
    fold (savedItems (<["ghostfeed-" +:+ (k, v).1 := toString (k, v).2]> items) l).
    rewrite (savedItems_other l k Hfresh). cbn [fst snd]. by rewrite lookup_insert_eq.
  - unfold savedItems. cbn [foldl]. apply (IH Hnd Hin).
Qed.

(** What [saveToLocalStorageBackup] leaves in the store for a property of
    the object saved. *)
Lemma savedItems_of_object (obj : gmap string jsval) (items : gmap string string)
    (k : string) (v : jsval) :
  obj !! k = Some v ->
  savedItems items (map_to_list obj) !! ("ghostfeed-" +:+ k) = Some (toString v).
Proof.
  intros Hk. apply savedItems_lookup.
  - apply NoDup_fst_map_to_list.
  - by apply elem_of_map_to_list.
Qed.

End Saving.

(** ** [load] *)

Section Load.
Context `{Builtins}.

Lemma loadFromLocalStorageFallback_normal (st : state) :
  exists r st', loadFromLocalStorageFallback st = (Normal r, st').
Proof.
  destruct (ls_get_throws (localStorage st)) eqn:Hget.
  - rewrite loadFromLocalStorageFallback_throws by exact Hget. eauto.
  - rewrite loadFromLocalStorageFallback_reads by exact Hget. eauto.
Qed.

(** Under each of the three conditions, [load] is the fallback load. *)
Lemma load_readsFallback (st : state) :
  readsFallback st ->
  loadSettingsFromStorage st = loadFromLocalStorageFallback st.
Proof.
  intros Hfb. unfold loadSettingsFromStorage.
  destruct (loadFromLocalStorageFallback_normal st) as (r & st' & E).
  unfold mbind at 1, M_bind at 1, bind at 1, try_catch.
  unfold mbind at 1, M_bind at 1, bind at 1, get_state at 1.
  destruct (isChromeStorageAvailable st) eqn:Hav.
  - destruct Hfb as [Hno | [Hthrows | Herr]]; [congruence| |].
    + unfold mbind at 1, M_bind at 1, bind at 1, chrome_storage_sync_get.
      rewrite Hthrows.
      unfold mbind at 1, M_bind at 1, bind at 1. rewrite E. reflexivity.
    + unfold mbind at 1, M_bind at 1, bind at 1, chrome_storage_sync_get.
      rewrite Herr. reflexivity.
  - unfold mbind at 1, M_bind at 1, bind at 1. rewrite E. reflexivity.
Qed.

(** [load] when the primary backend answers. *)
Lemma load_primary (st : state) :
  isChromeStorageAvailable st = true ->
  sync_get (chrome st) = GetSucceeds ->
  let r := fresh (dom (heap st)) in
  exists ls',
    loadSettingsFromStorage st
    = (Normal r, set_localStorage ls' (set_heap (<[r := syncResult st]> (heap st)) st)).
Proof.
  intros Hav Hget r. unfold loadSettingsFromStorage.
  unfold mbind at 1, M_bind at 1, bind at 1, try_catch.
  unfold mbind at 1, M_bind at 1, bind at 1, get_state at 1.
  rewrite Hav.
  unfold mbind at 1, M_bind at 1, bind at 1, chrome_storage_sync_get.
  rewrite Hget. fold (syncResult st).
  unfold mbind at 1, M_bind at 1, bind at 1.
  destruct (alloc_spec (syncResult st) st) as [-> _]. fold r.
  cbn [ret default].
  unfold mbind at 1, M_bind at 1, bind at 1.
  rewrite saveToLocalStorageBackup_spec.
  destruct (ls_set_throws _); eexists.
  - rewrite set_localStorage_same. reflexivity.
  - reflexivity.
Qed.

(** [load] when the primary backend calls back with nothing: the
    [DEFAULT_SETTINGS] object itself. *)
Lemma load_undefined (st : state) :
  isChromeStorageAvailable st = true ->
  sync_get (chrome st) = GetUndefined ->
  exists ls', loadSettingsFromStorage st = (Normal DEFAULT_REF, set_localStorage ls' st).
Proof.
  intros Hav Hget. unfold loadSettingsFromStorage.
  unfold mbind at 1, M_bind at 1, bind at 1, try_catch.
  unfold mbind at 1, M_bind at 1, bind at 1, get_state at 1.
  rewrite Hav.
  unfold mbind at 1, M_bind at 1, bind at 1, chrome_storage_sync_get.
  rewrite Hget. cbn [ret default].
  unfold mbind at 1, M_bind at 1, bind at 1.
  rewrite saveToLocalStorageBackup_spec.
  destruct (ls_set_throws _); eexists.
  - rewrite set_localStorage_same. reflexivity.
  - reflexivity.
Qed.

Lemma DEFAULT_SETTINGS_complete : complete DEFAULT_SETTINGS.
Proof.
  intros key. rewrite <- elem_of_dom. unfold DEFAULT_SETTINGS, SETTING_KEYS.
  rewrite !dom_insert_L, dom_empty_L. set_solver.
Qed.

Lemma fresh_not_default (st : state) :
  is_Some (heap st !! DEFAULT_REF) -> fresh (dom (heap st)) <> DEFAULT_REF.
Proof.
  intros Hd Heq. apply elem_of_dom in Hd. rewrite <- Heq in Hd.
  exact (is_fresh _ Hd).
Qed.

End Load.

Section LoadTotal.
Context `{Builtins}.

Lemma deref_default (st : state) :
  heap st !! DEFAULT_REF = Some DEFAULT_SETTINGS ->
  deref st DEFAULT_REF = DEFAULT_SETTINGS.
Proof. intros Hd. unfold deref. rewrite Hd. reflexivity. Qed.

Lemma syncResult_lookup (st : state) (key : string) :
  heap st !! DEFAULT_REF = Some DEFAULT_SETTINGS ->
  syncResult st !! key
  = match DEFAULT_SETTINGS !! key with
    | Some dflt => Some (default dflt (sync_items (chrome st) !! key))
    | None => None
    end.
Proof.
  intros Hd. unfold syncResult. rewrite map_lookup_imap, (deref_default st Hd).
  destruct (DEFAULT_SETTINGS !! key); reflexivity.
Qed.

(** What [load] resolves with, condition by condition. *)
Lemma load_cases (st : state) :
  is_Some (heap st !! DEFAULT_REF) ->
  exists (r : nat) (st' : state),
    loadSettingsFromStorage st = (Normal r, st')
    /\ ((readsFallback st /\ ls_get_throws (localStorage st) = true
         /\ deref st' r = deref st DEFAULT_REF)
        \/ (readsFallback st /\ ls_get_throws (localStorage st) = false
            /\ deref st' r = foldl (overlayKey (ls_items (localStorage st)))
                                   (deref st DEFAULT_REF) SETTING_KEYS)
        \/ (isChromeStorageAvailable st = true /\ sync_get (chrome st) = GetSucceeds
            /\ deref st' r = syncResult st)
        \/ (isChromeStorageAvailable st = true /\ sync_get (chrome st) = GetUndefined
            /\ deref st' r = deref st DEFAULT_REF)).
Proof.
  intros Hd.
  assert (Hfb : readsFallback st ->
    exists r st', loadSettingsFromStorage st = (Normal r, st')
      /\ ((readsFallback st /\ ls_get_throws (localStorage st) = true
           /\ deref st' r = deref st DEFAULT_REF)
          \/ (readsFallback st /\ ls_get_throws (localStorage st) = false
              /\ deref st' r = foldl (overlayKey (ls_items (localStorage st)))
                                     (deref st DEFAULT_REF) SETTING_KEYS)
          \/ (isChromeStorageAvailable st = true /\ sync_get (chrome st) = GetSucceeds
              /\ deref st' r = syncResult st)
          \/ (isChromeStorageAvailable st = true /\ sync_get (chrome st) = GetUndefined
              /\ deref st' r = deref st DEFAULT_REF))).
  { intros Hfb. rewrite (load_readsFallback st Hfb).
    destruct (ls_get_throws (localStorage st)) eqn:Hget.
    - rewrite loadFromLocalStorageFallback_throws by exact Hget.
      eexists _, _. split; [reflexivity|]. left. repeat split; [exact Hfb|].
      rewrite deref_set_heap, lookup_insert_ne; [reflexivity|].
      by apply fresh_not_default.
    - rewrite loadFromLocalStorageFallback_reads by exact Hget.
      eexists _, _. split; [reflexivity|]. right; left. repeat split; [exact Hfb|].
      rewrite deref_set_heap, lookup_insert_eq. reflexivity. }
  destruct (isChromeStorageAvailable st) eqn:Hav.
  - destruct (sync_get (chrome st)) eqn:Hget.
    + apply Hfb. right; left; exact Hget.
    + apply Hfb. right; right; exact Hget.
    + destruct (load_undefined st Hav Hget) as [ls' E].
      eexists _, _. split; [exact E|]. right; right; right. repeat split.
    + destruct (load_primary st Hav Hget) as [ls' E].
      eexists _, _. split; [exact E|]. right; right; left. repeat split.
      change (deref (set_localStorage ls' ?s) ?r) with (deref s r).
      rewrite deref_set_heap, lookup_insert_eq. reflexivity.
  - apply Hfb. left; exact Hav.
Qed.

End LoadTotal.

(** C6.  The claim fails on a run of the script.  On a page whose synced
    area reports an error and whose local store throws, [load] at start-up
    resolves with the [DEFAULT_SETTINGS] object itself, which becomes the
    current settings; the selection of 2.5 is then assigned to its
    [playbackRate] and reaches no store.  With no rate stored anywhere, the
    next [load] resolves with the rate 2.5 where the declared default is 1,
    while the local store still throws and also once it can be read
    again. *)
Theorem unset_rate_loads_overwritten_default :
  let st := run (SelectSpeed (Fin (5 # 2)) 0) (run Initialize failingStoresState) in
  sync_items (chrome st) !! "playbackRate" = None
  /\ ls_items (localStorage st) !! "ghostfeed-playbackRate" = None
  /\ DEFAULT_SETTINGS !! "playbackRate" = Some (JNum (Fin 1))
  /\ (exists (r : nat) (st' : state),
        loadSettingsFromStorage st = (Normal r, st')
        /\ deref st' r !! "playbackRate" = Some (JNum (Fin (5 # 2))))
  /\ (exists (r : nat) (st' : state),
        loadSettingsFromStorage (set_localStorage emptyStorage st) = (Normal r, st')
        /\ deref st' r !! "playbackRate" = Some (JNum (Fin (5 # 2)))).
Proof.
  cbv zeta. repeat split; try (vm_compute; reflexivity);
    eexists _, _; (split; [vm_compute; reflexivity|]); vm_compute; reflexivity.
Qed.

(** ** Round trip *)

Section RoundTrip.
Context `{Builtins}.

Lemma complete_None (obj : gmap string jsval) (key : string) :
  complete obj -> key ∉ SETTING_KEYS -> obj !! key = None.
Proof.
  intros Hc Hout. apply eq_None_not_Some. intros Hs. apply Hout. by apply Hc.
Qed.

Lemma storedValue_saved (s : gmap string jsval) (items : gmap string string)
    (key : string) (v : jsval) :
  validSnapshot s -> rateTextReadsBack s ->
  key ∈ SETTING_KEYS ->
  s !! key = Some v ->
  storedValue (savedItems items (map_to_list s)) key = Some v.
Proof.
  intros (_ & Hflags & (rate & Hrate & Hpos)) Hback Hin Hkey.
  unfold storedValue. rewrite (savedItems_of_object s items key v Hkey).
  destruct (decide (key = "playbackRate")) as [->|Hne].
  - rewrite Hrate in Hkey. injection Hkey as <-. cbn [toString].
    rewrite (Hback rate Hrate).
    destruct rate; try discriminate; cbv beta iota; rewrite ?Hpos; reflexivity.
  - destruct (Hflags key Hin Hne) as [b Hb]. rewrite Hb in Hkey. injection Hkey as <-.
    destruct b; reflexivity.
Qed.

Lemma overlay_saved (s : gmap string jsval) (items : gmap string string) :
  validSnapshot s -> rateTextReadsBack s ->
  foldl (overlayKey (savedItems items (map_to_list s))) DEFAULT_SETTINGS SETTING_KEYS = s.
Proof.
  intros Hvalid Hback. apply map_eq. intros key. rewrite overlay_lookup.
  destruct Hvalid as (Hc & Hrest).
  destruct (decide (key ∈ SETTING_KEYS)) as [Hin|Hout].
  - destruct (proj2 (Hc key) Hin) as [v Hv].
    rewrite (storedValue_saved s items key v (conj Hc Hrest) Hback Hin Hv). by rewrite Hv.
  - rewrite (complete_None _ key DEFAULT_SETTINGS_complete Hout).
    by rewrite (complete_None _ key Hc Hout).
Qed.

Lemma syncResult_saved (s : gmap string jsval) (st : state) :
  complete s ->
  heap st !! DEFAULT_REF = Some DEFAULT_SETTINGS ->
  (forall key, key ∈ SETTING_KEYS -> sync_items (chrome st) !! key = s !! key) ->
  syncResult st = s.
Proof.
  intros Hc Hd Hitems. apply map_eq. intros key.
  rewrite (syncResult_lookup st key Hd).
  destruct (decide (key ∈ SETTING_KEYS)) as [Hin|Hout].
  - destruct (proj2 (DEFAULT_SETTINGS_complete key) Hin) as [dflt ->].
    destruct (proj2 (Hc key) Hin) as [v Hv].
    rewrite (Hitems key Hin), Hv. reflexivity.
  - rewrite (complete_None _ key DEFAULT_SETTINGS_complete Hout).
    by rewrite (complete_None _ key Hc Hout).
Qed.

End RoundTrip.

(** C7. Round trip.  For every valid snapshot, written in full to a tier
    that accepts the write and read back from that tier by [load], the
    object [load] resolves with is the snapshot: through the fallback tier
    (each value written as text, flags compared with the literal [true],
    the rate parsed), provided the text written for the rate reads back as
    the rate; and through the primary backend. *)
Theorem save_load_round_trip `{Builtins} (s : gmap string jsval) (r : nat) (st : state) :
  validSnapshot s ->
  rateTextReadsBack s ->
  heap st !! DEFAULT_REF = Some DEFAULT_SETTINGS ->
  heap st !! r = Some s ->
  (readsFallback st ->
   ls_set_throws (localStorage st) = false ->
   ls_get_throws (localStorage st) = false ->
   exists (r' : nat) (st' : state),
     loadSettingsFromStorage (exec (saveToLocalStorageBackup r) st) = (Normal r', st')
     /\ deref st' r' = s)
  /\ (isChromeStorageAvailable st = true ->
      sync_set (chrome st) = SetSucceeds ->
      sync_get (chrome st) = GetSucceeds ->
      exists (r' : nat) (st' : state),
        loadSettingsFromStorage (exec (chrome_storage_sync_set s) st) = (Normal r', st')
        /\ deref st' r' = s).
Proof.
  intros Hvalid Hback Hd Hr. split.
  - intros Hfb Hset Hget.
    unfold exec. rewrite saveToLocalStorageBackup_spec, Hset. cbn [snd].
    set (st1 := set_localStorage _ st).
    assert (Hfb1 : readsFallback st1) by exact Hfb.
    rewrite (load_readsFallback st1 Hfb1).
    rewrite loadFromLocalStorageFallback_reads by exact Hget.
    eexists _, _. split; [reflexivity|].
    rewrite deref_set_heap, lookup_insert_eq. cbn [default].
    change (deref st1 DEFAULT_REF) with (deref st DEFAULT_REF).
    rewrite (deref_default st Hd).
    change (ls_items (localStorage st1))
      with (savedItems (ls_items (localStorage st)) (map_to_list (deref st r))).
    assert (Hs : deref st r = s) by (unfold deref; rewrite Hr; reflexivity).
    rewrite Hs. by apply overlay_saved.
  - intros Hav Hset Hget.
    unfold exec, chrome_storage_sync_set. rewrite Hset. cbn [snd].
    set (st1 := set_chrome _ st).
    assert (Hav1 : isChromeStorageAvailable st1 = true) by exact Hav.
    assert (Hget1 : sync_get (chrome st1) = GetSucceeds) by exact Hget.
    destruct (load_primary st1 Hav1 Hget1) as [ls' E].
    eexists _, _. split; [exact E|].
    change (deref (set_localStorage ls' ?x) ?y) with (deref x y).
    rewrite deref_set_heap, lookup_insert_eq. cbn [default].
    apply syncResult_saved; [apply Hvalid | exact Hd |].
    intros key Hin. simpl.
    destruct (proj2 (proj1 Hvalid key) Hin) as [v Hv].
    rewrite Hv. apply lookup_union_Some_l. exact Hv.
Qed.

Lemma complete_insert (obj : gmap string jsval) (k : string) (v : jsval) :
  complete obj -> k ∈ SETTING_KEYS -> complete (<[k := v]> obj).
Proof.
  intros Hc Hk key. destruct (decide (k = key)) as [->|Hne].
  - rewrite lookup_insert_eq. split; [intros _; exact Hk | eauto].
  - rewrite lookup_insert_ne by exact Hne. apply Hc.
Qed.

Lemma sampleSnapshot_valid : validSnapshot sampleSnapshot.
Proof.
  split; [|split].
  - unfold sampleSnapshot.
    apply complete_insert; [|compute_done].
    apply complete_insert; [|compute_done].
    apply DEFAULT_SETTINGS_complete.
  - intros key Hin Hne. unfold SETTING_KEYS in Hin.
    repeat (apply elem_of_cons in Hin as [->|Hin]);
      try (eexists; vm_compute; reflexivity);
      try contradiction.
    by apply elem_of_nil in Hin.
  - exists (Fin (5 # 2)). split; reflexivity.
Qed.

Lemma sampleSnapshot_reads_back : rateTextReadsBack sampleSnapshot.
Proof.
  intros rate Hrate. vm_compute in Hrate. injection Hrate as <-.
  vm_compute. reflexivity.
Qed.

Lemma save_load_round_trip_witness :
  (exists (r' : nat) (st' : state),
      loadSettingsFromStorage
        (exec (saveToLocalStorageBackup 2)
              (withSample (initialState oneVideoPage emptyStorage offlineChrome)))
      = (Normal r', st')
      /\ deref st' r' = sampleSnapshot)
  /\ (exists (r' : nat) (st' : state),
        loadSettingsFromStorage
          (exec (chrome_storage_sync_set sampleSnapshot) (withSample startState))
        = (Normal r', st')
        /\ deref st' r' = sampleSnapshot).
Proof.
  split.
  - apply (save_load_round_trip sampleSnapshot 2
             (withSample (initialState oneVideoPage emptyStorage offlineChrome))
             sampleSnapshot_valid sampleSnapshot_reads_back eq_refl eq_refl);
      [left|..]; reflexivity.
  - apply (save_load_round_trip sampleSnapshot 2 (withSample startState)
             sampleSnapshot_valid sampleSnapshot_reads_back eq_refl eq_refl);
      reflexivity.
Defined.

(** ** What the operations do to the settings objects *)

Section Frames.
Variable R : state -> state -> Prop.
Hypothesis R_refl : forall st, R st st.
Hypothesis R_trans : forall st1 st2 st3, R st1 st2 -> R st2 st3 -> R st1 st3.

Lemma preserves_ret {A} (a : A) : preserves R (ret a).
Proof. intros st. apply R_refl. Qed.

Lemma preserves_get_state : preserves R get_state.
Proof. intros st. apply R_refl. Qed.

Lemma preserves_modify (f : state -> state) :
  (forall st, R st (f st)) -> preserves R (modify f).
Proof. intros Hf st. apply Hf. Qed.

Lemma preserves_bind {A B} (m : M A) (k : A -> M B) :
  preserves R m -> (forall a, preserves R (k a)) -> preserves R (m ≫= k).
Proof.
  intros Hm Hk st. unfold mbind, M_bind, bind.
  specialize (Hm st). destruct (m st) as [[a|] st1]; simpl in *.
  - eapply R_trans; [exact Hm | apply Hk].
  - exact Hm.
Qed.

Lemma preserves_try_catch {A} (m h : M A) :
  preserves R m -> preserves R h -> preserves R (try_catch m h).
Proof.
  intros Hm Hh st. unfold try_catch.
  specialize (Hm st). destruct (m st) as [[a|] st1]; simpl in *.
  - exact Hm.
  - eapply R_trans; [exact Hm | apply Hh].
Qed.

End Frames.

Lemma heapFrame_refl (st : state) : heapFrame st st.
Proof. intros r Hr. split; [exact Hr|]. split; [reflexivity | trivial]. Qed.

Lemma heapFrame_trans (st1 st2 st3 : state) :
  heapFrame st1 st2 -> heapFrame st2 st3 -> heapFrame st1 st3.
Proof.
  intros H12 H23 r Hr. destruct (H12 r Hr) as (Hr2 & E12 & P12).
  destruct (H23 r Hr2) as (Hr3 & E23 & P23). split; [exact Hr3|]. split.
  - intros key Hkey. rewrite (E23 key Hkey). apply E12, Hkey.
  - intros Hrate. apply P23, P12, Hrate.
Qed.

Lemma rateFrame_refl (st : state) : rateFrame st st.
Proof. split; [reflexivity | apply heapFrame_refl]. Qed.

Lemma rateFrame_trans (st1 st2 st3 : state) :
  rateFrame st1 st2 -> rateFrame st2 st3 -> rateFrame st1 st3.
Proof.
  intros [C12 H12] [C23 H23]. split; [congruence|].
  eapply heapFrame_trans; eassumption.
Qed.

Lemma heapFrame_same_heap (st st' : state) : heap st' = heap st -> heapFrame st st'.
Proof.
  intros Hh r Hr. unfold deref. rewrite Hh.
  split; [exact Hr|]. split; [reflexivity | trivial].
Qed.

Lemma rateFrame_same (st st' : state) :
  heap st' = heap st -> currentSettings st' = currentSettings st -> rateFrame st st'.
Proof. intros Hh Hc. split; [exact Hc | by apply heapFrame_same_heap]. Qed.

Lemma heapFrame_setProp_rate (r : nat) (v : jsval) (st : state) :
  heapFrame st (setProp r "playbackRate" v st).
Proof.
  intros r' Hr'. unfold setProp. rewrite deref_set_heap. simpl.
  destruct (decide (r = r')) as [->|Hne].
  - rewrite lookup_insert_eq. split; [eauto|]. split.
    + intros key Hkey. simpl. by rewrite lookup_insert_ne by congruence.
    + intros _. simpl. rewrite lookup_insert_eq. eauto.
  - rewrite lookup_insert_ne by exact Hne.
    split; [exact Hr'|]. split; [reflexivity | trivial].
Qed.

Lemma heapFrame_fresh (obj : gmap string jsval) (st st' : state) :
  heap st' = <[fresh (dom (heap st)) := obj]> (heap st) -> heapFrame st st'.
Proof.
  intros Hh r Hr. unfold deref. rewrite Hh.
  assert (fresh (dom (heap st)) <> r).
  { intros <-. apply elem_of_dom in Hr. exact (is_fresh _ Hr). }
  rewrite lookup_insert_ne by assumption.
  split; [exact Hr|]. split; [reflexivity | trivial].
Qed.

(** Walks through a computation: [step] disposes of the monad's
    operations, branches are split on their test. *)
Ltac frame_by step :=
  repeat first
    [ step
    | match goal with
      | |- _ (if ?b then _ else _) => destruct b
      | |- _ (match ?x with _ => _ end) => destruct x
      end ].

Lemma applyPlaybackRateToVideos_rateFrame (rate : jsval) (now : Z) (st : state) :
  rateFrame st (applyPlaybackRateToVideos rate now st).
Proof.
  unfold applyPlaybackRateToVideos. destruct (negb _); [apply rateFrame_refl|].
  destruct (enforceVideos _ _ _ _ _) as [vs o]. by apply rateFrame_same.
Qed.

Lemma applySettingsImmediately_rateFrame (settings : nat) (st : state) :
  rateFrame st (applySettingsImmediately settings st).
Proof.
  unfold applySettingsImmediately, exec, applySettingsImmediately_call. cbv zeta.
  destruct (negb _); [by apply rateFrame_same|].
  cbn [doc set_doc].
  destruct (videos (applyBodyFlags (deref st settings) (doc st))) as [|v rest];
    [by apply rateFrame_same|].
  destruct (_ && _); [destruct (setterAccepts _); by apply rateFrame_same|].
  split; [reflexivity|].
  eapply heapFrame_trans; [|apply heapFrame_setProp_rate].
  by apply heapFrame_same_heap.
Qed.

Lemma injectSpeedControls_same (st : state) :
  heap (injectSpeedControls st) = heap st
  /\ currentSettings (injectSpeedControls st) = currentSettings st.
Proof. unfold injectSpeedControls. destruct (isSpeedControlsInjected st); auto. Qed.

Lemma heapFrame_step (st st' st'' : state) :
  heap st'' = heap st' -> heapFrame st st' -> heapFrame st st''.
Proof.
  intros Hh Hf. eapply heapFrame_trans; [exact Hf | by apply heapFrame_same_heap].
Qed.

Lemma afterSettingsApplied_same (wasEnabled wasBlurEnabled : option jsval) (st : state) :
  heap (afterSettingsApplied wasEnabled wasBlurEnabled st) = heap st
  /\ currentSettings (afterSettingsApplied wasEnabled wasBlurEnabled st)
     = currentSettings st.
Proof.
  unfold afterSettingsApplied, injectSpeedControls. cbv zeta.
  repeat match goal with
  | |- context [if ?c then _ else _] => destruct c
  end;
  split; reflexivity.
Qed.

Lemma onSettingsLoaded_heapFrame (newSettings : nat) (now : Z) (st : state) :
  heapFrame st (onSettingsLoaded newSettings now st).
Proof.
  unfold onSettingsLoaded. cbv zeta.
  set (st1 := set_currentSettings newSettings st).
  destruct (changeHandlerSuppresses _ _ _).
  - apply heapFrame_same_heap.
    by rewrite (proj1 (afterSettingsApplied_same _ _ _)).
  - pose proof (applySettingsImmediately_rateFrame (currentSettings st1) st1) as [_ Hf].
    unfold applySettingsImmediately, exec in Hf.
    destruct (applySettingsImmediately_call (currentSettings st1) st1) as [[[]|] st2];
      cbn [snd] in Hf.
    + apply (heapFrame_step _ st2 _ (proj1 (afterSettingsApplied_same _ _ _))).
      eapply heapFrame_trans; [|exact Hf]. by apply heapFrame_same_heap.
    + eapply heapFrame_trans; [|exact Hf]. by apply heapFrame_same_heap.
Qed.

Section OperationFrames.
Context `{Builtins}.

Lemma setItem_rateFrame (key value : string) : preserves rateFrame (setItem key value).
Proof.
  intros st. unfold setItem. destruct (ls_set_throws _); simpl.
  - apply rateFrame_refl.
  - by apply rateFrame_same.
Qed.

Lemma saveRateLocally_rateFrame (speed : number) : preserves rateFrame (saveRateLocally speed).
Proof.
  unfold saveRateLocally. frame_by ltac:(first
    [ apply (preserves_ret _ rateFrame_refl)
    | apply (preserves_get_state _ rateFrame_refl)
    | apply (preserves_try_catch _ rateFrame_trans)
    | apply (preserves_bind _ rateFrame_trans); [|intros ?] ]).
  apply setItem_rateFrame.
Qed.

Lemma chrome_storage_sync_set_rateFrame (items : gmap string jsval) :
  preserves rateFrame (chrome_storage_sync_set items).
Proof.
  intros st. unfold chrome_storage_sync_set. destruct (sync_set _); simpl;
    solve [apply rateFrame_refl | by apply rateFrame_same].
Qed.

Lemma setVideoSpeed_rateFrame (speed : number) (now : Z) :
  preserves rateFrame (setVideoSpeed speed now).
Proof.
  unfold setVideoSpeed.
  frame_by ltac:(first
    [ apply (preserves_ret _ rateFrame_refl)
    | apply (preserves_get_state _ rateFrame_refl)
    | apply (preserves_try_catch _ rateFrame_trans)
    | apply (preserves_bind _ rateFrame_trans); [|intros ?] ]);
    try (apply preserves_modify; intros st; by apply rateFrame_same);
    try apply setItem_rateFrame;
    try apply chrome_storage_sync_set_rateFrame.
  apply preserves_modify. intros st. split; [reflexivity|].
  apply heapFrame_setProp_rate.
Qed.

Lemma onSpeedItemClick_rateFrame (speed : number) (now : Z) :
  preserves rateFrame (onSpeedItemClick speed now).
Proof.
  unfold onSpeedItemClick.
  apply (preserves_try_catch _ rateFrame_trans); [|apply (preserves_ret _ rateFrame_refl)].
  destruct (isNaN speed); [apply (preserves_ret _ rateFrame_refl)|].
  apply (preserves_bind _ rateFrame_trans); [apply (preserves_get_state _ rateFrame_refl)|].
  intros st0. destruct (videos (doc st0));
    [apply (preserves_ret _ rateFrame_refl) | apply setVideoSpeed_rateFrame].
Qed.

Lemma onCustomInputChange_rateFrame (text : string) (now : Z) :
  preserves rateFrame (onCustomInputChange text now).
Proof.
  unfold onCustomInputChange.
  apply (preserves_try_catch _ rateFrame_trans); [|apply (preserves_ret _ rateFrame_refl)].
  destruct (customSpeedAccepted (parseFloat text)); [|apply (preserves_ret _ rateFrame_refl)].
  apply (preserves_bind _ rateFrame_trans); [apply (preserves_get_state _ rateFrame_refl)|].
  intros st0. destruct (videos (doc st0));
    [apply (preserves_ret _ rateFrame_refl) | apply setVideoSpeed_rateFrame].
Qed.

(** [load] creates at most one object and touches no other. *)
Lemma loadSettingsFromStorage_heapFrame : preserves heapFrame loadSettingsFromStorage.
Proof.
  intros st.
  assert (Hfb : readsFallback st -> heapFrame st (loadSettingsFromStorage st).2).
  { intros Hfb. rewrite (load_readsFallback st Hfb).
    destruct (ls_get_throws (localStorage st)) eqn:Hget.
    - rewrite loadFromLocalStorageFallback_throws by exact Hget.
      by eapply heapFrame_fresh.
    - rewrite loadFromLocalStorageFallback_reads by exact Hget.
      by eapply heapFrame_fresh. }
  destruct (isChromeStorageAvailable st) eqn:Hav; [|apply Hfb; left; exact Hav].
  destruct (sync_get (chrome st)) eqn:Hget.
  - apply Hfb. right; left; exact Hget.
  - apply Hfb. right; right; exact Hget.
  - destruct (load_undefined st Hav Hget) as [ls' ->]. by apply heapFrame_same_heap.
  - destruct (load_primary st Hav Hget) as [ls' ->]. by eapply heapFrame_fresh.
Qed.

Lemma handleStorageChanges_heapFrame (area : string) (now : Z) :
  preserves heapFrame (handleStorageChanges area now).
Proof.
  unfold handleStorageChanges.
  destruct (negb _); [apply (preserves_ret _ heapFrame_refl)|].
  apply (preserves_bind _ heapFrame_trans); [apply loadSettingsFromStorage_heapFrame|].
  intros newSettings. apply preserves_modify. intros st. apply onSettingsLoaded_heapFrame.
Qed.

Lemma initializeExtension_heapFrame : preserves heapFrame initializeExtension.
Proof.
  unfold initializeExtension.
  apply (preserves_try_catch _ heapFrame_trans); [|apply (preserves_ret _ heapFrame_refl)].
  apply (preserves_bind _ heapFrame_trans); [apply loadSettingsFromStorage_heapFrame|].
  intros loaded.
  frame_by ltac:(first
    [ apply (preserves_ret _ heapFrame_refl)
    | apply (preserves_get_state _ heapFrame_refl)
    | apply (preserves_try_catch _ heapFrame_trans)
    | apply (preserves_bind _ heapFrame_trans); [|intros ?] ]);
    try (apply preserves_modify; intros st; by apply heapFrame_same_heap).
  - apply preserves_modify. intros st. apply applySettingsImmediately_rateFrame.
  - apply preserves_modify. intros st. apply heapFrame_same_heap, injectSpeedControls_same.
Qed.

(** Every operation that does not rebind [currentSettings] keeps naming
    the same object, and every operation leaves every existing object
    unchanged outside [playbackRate]. *)
Lemma run_frame (op : operation) (st : state) :
  heapFrame st (run op st)
  /\ (rebinds op = false -> currentSettings (run op st) = currentSettings st).
Proof.
  assert (Hrate : forall st', rateFrame st st' ->
            heapFrame st st' /\ (rebinds op = false -> currentSettings st' = currentSettings st)).
  { intros st' [Hc Hh]. auto. }
  destruct op; simpl run.
  - split; [apply initializeExtension_heapFrame | discriminate].
  - apply Hrate, applyPlaybackRateToVideos_rateFrame.
  - apply Hrate, applySettingsImmediately_rateFrame.
  - apply Hrate. unfold handleNewVideoDetected.
    eapply rateFrame_trans; [|apply applyPlaybackRateToVideos_rateFrame].
    by apply rateFrame_same.
  - apply Hrate. by apply rateFrame_same.
  - apply Hrate. apply rateFrame_same; apply injectSpeedControls_same.
  - apply Hrate, onSpeedItemClick_rateFrame.
  - apply Hrate, onCustomInputChange_rateFrame.
  - split; [apply handleStorageChanges_heapFrame | discriminate].
  - apply Hrate. unfold onMouseEnter.
    destruct (containers (doc st) !! p); [by apply rateFrame_same | apply rateFrame_refl].
  - apply Hrate. unfold onMouseLeave.
    destruct (containers (doc st) !! p); [|apply rateFrame_refl].
    destruct (_ && _); [by apply rateFrame_same | apply rateFrame_refl].
Qed.

End OperationFrames.

(** ** Snapshot mutation *)

(** Counterexample to C9: selecting 2.5x assigns [playbackRate] in the
    object that is the current snapshot; the object stays current and now
    holds 2.5 where it held 1. *)
Lemma snapshot_mutated_in_place : ~ @snapshotNeverMutatedInPlace decimalBuiltins.
Proof.
  intros Hclaim.
  assert (Hcur : is_Some (heap startState !! currentSettings startState))
    by (eexists; reflexivity).
  specialize (Hclaim (SelectSpeed (Fin (5 # 2)) 0) startState Hcur).
  apply (f_equal (fun obj : gmap string jsval => obj !! "playbackRate")) in Hclaim.
  vm_compute in Hclaim. discriminate.
Qed.

(** The same object is still current after the selection. *)
Example selectSpeed_keeps_object :
  let st := run (SelectSpeed (Fin (5 # 2)) 0) startState in
  currentSettings st = currentSettings startState
  /\ current st !! "playbackRate" = Some (JNum (Fin (5 # 2)))
  /\ current startState !! "playbackRate" = Some (JNum (Fin 1)).
Proof. vm_compute. repeat split; reflexivity. Qed.

(** Re-applying the settings with the stored rate at 1 copies the live
    rate of the first video into the current snapshot. *)
Example reapply_copies_live_rate :
  let st0 := set_doc (Document ∅ [Video (Fin 2)] [] []) startState in
  let st := run Navigation st0 in
  currentSettings st = currentSettings st0
  /\ current st0 !! "playbackRate" = Some (JNum (Fin 1))
  /\ current st !! "playbackRate" = Some (JNum (Fin 2)).
Proof. vm_compute. repeat split; reflexivity. Qed.

(** When every store fails, [load] resolves with the [DEFAULT_SETTINGS]
    object itself, and a later rate selection then overwrites the default
    rate. *)
Example defaults_overwritten_through_alias :
  let st1 := run Initialize blockedState in
  let st2 := run (SelectSpeed (Fin (5 # 2)) 0) st1 in
  currentSettings st1 = DEFAULT_REF
  /\ deref st1 DEFAULT_REF !! "playbackRate" = Some (JNum (Fin 1))
  /\ deref st2 DEFAULT_REF !! "playbackRate" = Some (JNum (Fin (5 # 2))).
Proof. vm_compute. repeat split; reflexivity. Qed.

(** C9, amended.  No operation changes, in the object that is the current
    snapshot, the value of any key other than [playbackRate]; only
    initialization and the storage-change handler make another object
    current, every other operation keeps the same object current.  (The
    [playbackRate] of the current object is assigned in place by
    [setVideoSpeed] and by [applySettingsImmediately].) *)
Theorem snapshot_mutation `{Builtins} (op : operation) (st : state) :
  is_Some (heap st !! currentSettings st) ->
  (forall key : string,
      key <> "playbackRate" ->
      deref (run op st) (currentSettings st) !! key
      = deref st (currentSettings st) !! key)
  /\ (rebinds op = false -> currentSettings (run op st) = currentSettings st).
Proof.
  intros Hcur. destruct (run_frame op st) as [Hframe Hsame].
  split; [|exact Hsame].
  apply (Hframe (currentSettings st) Hcur).
Qed.

Lemma snapshot_mutation_witness :
  deref (run (SelectSpeed (Fin (5 # 2)) 0) startState) (currentSettings startState)
    !! "hideHome"
  = deref startState (currentSettings startState) !! "hideHome".
Proof.
  apply (snapshot_mutation (SelectSpeed (Fin (5 # 2)) 0) startState).
  - eexists; reflexivity.
  - discriminate.
Defined.

(** * Further properties *)

(** ** The mutation observer *)

Lemma foldl_scanNode (nodes : list addedNode) :
  forall found : bool * bool,
    foldl scanNode found nodes
    = (found.1 || existsb (fun n => Nat.eqb (nodeType n) 1 && isNewVideo n) nodes,
       found.2 || existsb (fun n => Nat.eqb (nodeType n) 1 && isNewThumbnail n) nodes).
Proof.
  induction nodes as [|n nodes IH]; intros [hv ht]; simpl.
  - by rewrite !orb_false_r.
  - rewrite IH. unfold scanNode. simpl.
    destruct (Nat.eqb (nodeType n) 1), (isNewVideo n), (isNewThumbnail n), hv, ht;
      reflexivity.
Qed.

Lemma scanMutations_spec (mutations : list (list addedNode)) :
  forall found : bool * bool,
    scanMutations found mutations
    = (found.1 || existsb (fun n => Nat.eqb (nodeType n) 1 && isNewVideo n)
                          (concat mutations),
       found.2 || existsb (fun n => Nat.eqb (nodeType n) 1 && isNewThumbnail n)
                          (concat mutations)).
Proof.
  induction mutations as [|nodes rest IH]; intros [hv ht]; simpl.
  - by rewrite !orb_false_r.
  - rewrite foldl_scanNode, !existsb_app. simpl.
    destruct (hv || existsb _ nodes) eqn:Ev; destruct (ht || existsb _ nodes) eqn:Et;
      simpl; rewrite ?IH; simpl; rewrite ?Ev, ?Et, ?orb_assoc, ?Ev, ?Et;
      try reflexivity.
Qed.

(** X1. The early exit of the observer's scan loses nothing: a batch is
    classified as bringing a new video exactly when some added element
    node, in any of its records, is a [VIDEO] or contains one, and as
    bringing new thumbnails exactly when some added element node is an
    image, contains one, or is one of the three thumbnail hosts; nodes that
    are not elements never count. *)
Theorem observer_scan_complete (mutations : list (list addedNode)) :
  scanMutations (false, false) mutations
  = (existsb (fun n => Nat.eqb (nodeType n) 1 && isNewVideo n) (concat mutations),
     existsb (fun n => Nat.eqb (nodeType n) 1 && isNewThumbnail n) (concat mutations)).
Proof. rewrite scanMutations_spec. reflexivity. Qed.

Lemma enforceVideos_no_override (rate : jsval) (last now : Z) (vs : list video) :
  enforceVideos rate last now vs false = (overwriteRate rate <$> vs, false).
Proof.
  induction vs as [|v vs IH]; [reflexivity|].
  cbn [enforceVideos]. rewrite fmap_cons.
  unfold enforceVideo, enforcerSkips, overwriteRate. cbn [andb].
  destruct (num_gt (Math_abs (num_sub (playbackRate v) (clampRate rate)))
                   (Fin (1 # 100)));
    rewrite IH; reflexivity.
Qed.

Lemma handleNewVideoDetected_spec (now : Z) (st : state) :
  let st' := handleNewVideoDetected now st in
  hasUserOverriddenSpeed st' = false
  /\ lastUserInteractionTimestamp st' = 0
  /\ videos (doc st')
     = (if truthy (current st !! "masterEnabled")
        then overwriteRate (targetRate st) <$> videos (doc st)
        else videos (doc st)).
Proof.
  intros st'. subst st'. unfold handleNewVideoDetected.
  set (st1 := set_lastUserInteractionTimestamp 0 (set_hasUserOverriddenSpeed false st)).
  unfold applyPlaybackRateToVideos.
  change (current st1) with (current st).
  change (targetRate st1) with (targetRate st).
  change (lastUserInteractionTimestamp st1) with 0.
  change (hasUserOverriddenSpeed st1) with false.
  change (videos (doc st1)) with (videos (doc st)).
  destruct (truthy (current st !! "masterEnabled")); cbn [negb].
  - rewrite enforceVideos_no_override. repeat split.
  - repeat split.
Qed.

(** X2. A new video ends the grace window.  When a batch of mutations
    brings a video element, the callback clears the override flag, resets
    the interaction instant to 0 and, with the master flag on, at once
    gives every media element the clamped target where its rate differs
    from it by more than 0.01, however recent the last manual selection
    is; with the master flag off the elements are left alone.  A batch
    without a video element leaves the state as it is. *)
Theorem new_video_ends_grace (mutations : list (list addedNode)) (now : Z) (st : state) :
  (existsb (fun n => Nat.eqb (nodeType n) 1 && isNewVideo n) (concat mutations) = true ->
   let st' := (observerCallback mutations now st).1 in
   hasUserOverriddenSpeed st' = false
   /\ lastUserInteractionTimestamp st' = 0
   /\ videos (doc st')
      = (if truthy (current st !! "masterEnabled")
         then overwriteRate (targetRate st) <$> videos (doc st)
         else videos (doc st)))
  /\ (existsb (fun n => Nat.eqb (nodeType n) 1 && isNewVideo n) (concat mutations) = false ->
      (observerCallback mutations now st).1 = st).
Proof.
  unfold observerCallback. rewrite scanMutations_spec. cbn [fst snd orb]. split; intros ->; simpl.
  - apply handleNewVideoDetected_spec.
  - reflexivity.
Qed.

(** Scenario E: right after a selection of 2.5x, a [<div>] holding a video
    is inserted; the element goes back to the target that is current. *)
Lemma new_video_ends_grace_witness :
  let st := run (StorageChanged "sync" 500)
                (run (SelectSpeed (Fin (5 # 2)) 0) staleSyncState) in
  let st' := (observerCallback [[AddedNode 3 "#text" false false false];
                                [AddedNode 1 "DIV" true true false]] 600 st).1 in
  hasUserOverriddenSpeed st = true
  /\ videos (doc st) = [Video (Fin (5 # 2))]
  /\ hasUserOverriddenSpeed st' = false
  /\ lastUserInteractionTimestamp st' = 0
  /\ videos (doc st') = [Video (Fin 1)].
Proof.
  intros st st'.
  destruct (new_video_ends_grace
              [[AddedNode 3 "#text" false false false];
               [AddedNode 1 "DIV" true true false]] 600 st) as [Hnew _].
  destruct (Hnew eq_refl) as (Ho & Ht & Hv).
  split; [vm_compute; reflexivity|]. split; [vm_compute; reflexivity|].
  split; [exact Ho|]. split; [exact Ht|].
  subst st'. rewrite Hv. vm_compute. reflexivity.
Defined.

(** ** Rate selection *)

Section Selection.
Context `{Builtins}.

Lemma saveRateLocally_spec (speed : number) (st : state) :
  saveRateLocally speed st
  = (Normal tt,
     if ls_set_throws (localStorage st) then st
     else set_localStorage
            (StorageArea (<["ghostfeed-playbackRate" := Number_toString speed]>
                            (ls_items (localStorage st)))
                         (ls_get_throws (localStorage st))
                         (ls_set_throws (localStorage st))) st).
Proof.
  unfold saveRateLocally, try_catch, setItem.
  destruct (ls_set_throws (localStorage st)); reflexivity.
Qed.

Lemma setVideoSpeed_invalid (speed : number) (now : Z) (st : state) :
  videos (doc st) = [] \/ isNaN speed = true \/ num_le speed (Fin 0) = true ->
  setVideoSpeed speed now st = (Normal tt, warnOnce st).
Proof.
  intros Hbad. unfold setVideoSpeed, try_catch, warnOnce.
  unfold mbind at 1, M_bind at 1, bind at 1, get_state at 1.
  unfold mbind at 1, M_bind at 1, bind at 1.
  destruct (negb (isExtensionContextValid st) && negb (contextInvalidationWarned st));
    unfold modify, ret; cbn [doc set_contextInvalidationWarned];
    (destruct (videos (doc st)) as [|v rest]; [reflexivity|]);
    (destruct Hbad as [Hv | [Hn | Hle]]; [discriminate | rewrite Hn | rewrite Hle, orb_true_r];
     reflexivity).
Qed.

Lemma setVideoSpeed_refused (speed : number) (now : Z) (st : state)
    (v : video) (rest : list video) :
  videos (doc st) = v :: rest ->
  isNaN speed = false ->
  num_le speed (Fin 0) = false ->
  setterAccepts speed = false ->
  setVideoSpeed speed now st
  = (Normal tt,
     set_hasUserOverriddenSpeed true
       (set_lastUserInteractionTimestamp now (warnOnce st))).
Proof.
  intros Hv Hn Hle Hacc. unfold setVideoSpeed, try_catch.
  unfold mbind at 1, M_bind at 1, bind at 1, get_state at 1.
  unfold mbind at 1, M_bind at 1, bind at 1.
  rewrite Hv, Hn, Hle, Hacc. cbn [orb].
  unfold warnOnce. destruct (_ && _); reflexivity.
Qed.

Lemma setVideoSpeed_valid (speed : number) (now : Z) (st : state)
    (v : video) (rest : list video) :
  videos (doc st) = v :: rest ->
  isNaN speed = false ->
  num_le speed (Fin 0) = false ->
  setterAccepts speed = true ->
  setVideoSpeed speed now st
  = (Normal tt, ratePersisted speed (selectionApplied speed now rest (warnOnce st))).
Proof.
  intros Hv Hn Hle Hacc. unfold setVideoSpeed, try_catch.
  unfold mbind at 1, M_bind at 1, bind at 1, get_state at 1.
  unfold mbind at 1, M_bind at 1, bind at 1.
  rewrite Hv, Hn, Hle, Hacc. cbn [orb].
  fold (warnOnce st).
  assert (Hw : (if negb (isExtensionContextValid st) && negb (contextInvalidationWarned st)
                then modify (set_contextInvalidationWarned true) else ret tt) st
               = (Normal tt, warnOnce st)).
  { unfold warnOnce. destruct (_ && _); reflexivity. }
  rewrite Hw.
  assert (Hdoc : doc (warnOnce st) = doc st).
  { unfold warnOnce. destruct (_ && _); reflexivity. }
  unfold mbind, M_bind, bind, modify, get_state.
  cbn [fst snd].
  set (st4 := setProp _ _ _ _).
  assert (Hst4 : st4 = selectionApplied speed now rest (warnOnce st)).
  { subst st4. unfold selectionApplied. cbn [doc set_hasUserOverriddenSpeed
      set_lastUserInteractionTimestamp currentSettings]. rewrite Hdoc. reflexivity. }
  rewrite Hst4. clear st4 Hst4.
  set (st5 := selectionApplied speed now rest (warnOnce st)).
  unfold ratePersisted.
  destruct (isChromeStorageAvailable st5); cbn [andb].
  - unfold try_catch, chrome_storage_sync_set.
    destruct (sync_set (chrome st5)).
    + rewrite saveRateLocally_spec. reflexivity.
    + rewrite saveRateLocally_spec. reflexivity.
    + reflexivity.
  - rewrite saveRateLocally_spec. reflexivity.
Qed.

End Selection.

(** X3. The tiered write of a selection.  [setVideoSpeed] never throws.
    Without a video, or for a speed that is NaN or not above 0, it changes
    nothing but the one-time warning flag.  For a speed above 0 that the
    element refuses (not finite, or outside 0.0625..16) it records the
    instant and the override and nothing else: the video, the current
    snapshot and both stores stay as they are.  For a speed the element
    accepts it records the instant and the override, sets the first video
    and the current snapshot's rate, and persists the rate in exactly one
    place: the synced area when the primary backend is available and
    accepts the write, else the local store when that can be written, else
    nowhere; a failure of either store leaves the local effect in place. *)
Theorem setVideoSpeed_outcome `{Builtins} (speed : number) (now : Z) (st : state) :
  (videos (doc st) = [] \/ isNaN speed = true \/ num_le speed (Fin 0) = true ->
   setVideoSpeed speed now st = (Normal tt, warnOnce st))
  /\ (forall (v : video) (rest : list video),
         videos (doc st) = v :: rest ->
         isNaN speed = false ->
         num_le speed (Fin 0) = false ->
         setterAccepts speed = false ->
         setVideoSpeed speed now st
         = (Normal tt,
            set_hasUserOverriddenSpeed true
              (set_lastUserInteractionTimestamp now (warnOnce st))))
  /\ (forall (v : video) (rest : list video),
         videos (doc st) = v :: rest ->
         isNaN speed = false ->
         num_le speed (Fin 0) = false ->
         setterAccepts speed = true ->
         setVideoSpeed speed now st
         = (Normal tt, ratePersisted speed (selectionApplied speed now rest (warnOnce st)))).
Proof.
  split; [apply setVideoSpeed_invalid|].
  split; [apply setVideoSpeed_refused | apply setVideoSpeed_valid].
Qed.

Lemma setVideoSpeed_outcome_witness :
  setVideoSpeed (Fin 0) 7 blockedState = (Normal tt, warnOnce blockedState)
  /\ (videos (doc (exec (setVideoSpeed PosInf 7 ) startState)) = [Video (Fin 1)]
      /\ current (exec (setVideoSpeed PosInf 7) startState) !! "playbackRate"
         = Some (JNum (Fin 1))
      /\ hasUserOverriddenSpeed (exec (setVideoSpeed PosInf 7) startState) = true)
  /\ ls_items (localStorage (exec (setVideoSpeed (Fin (5 # 2)) 7) offlineState))
       !! "ghostfeed-playbackRate" = Some "2.5"
  /\ videos (doc (exec (setVideoSpeed (Fin (5 # 2)) 7) blockedState))
     = [Video (Fin (5 # 2))].
Proof.
  split; [|split].
  - apply (proj1 (setVideoSpeed_outcome (Fin 0) 7 blockedState)).
    right; right; reflexivity.
  - unfold exec.
    rewrite (proj1 (proj2 (setVideoSpeed_outcome PosInf 7 startState))
               (Video (Fin 1)) [] eq_refl eq_refl eq_refl eq_refl).
    repeat split.
  - unfold exec.
    rewrite (proj2 (proj2 (setVideoSpeed_outcome (Fin (5 # 2)) 7 offlineState))
               (Video (Fin 1)) [] eq_refl eq_refl eq_refl eq_refl).
    rewrite (proj2 (proj2 (setVideoSpeed_outcome (Fin (5 # 2)) 7 blockedState))
               (Video (Fin 1)) [] eq_refl eq_refl eq_refl eq_refl).
    split; vm_compute; reflexivity.
Defined.

(** ** A selection and the ticks after it *)

Section Kept.
Context `{Builtins}.

Lemma ratePersisted_local (speed : number) (st : state) :
  heap (ratePersisted speed st) = heap st
  /\ currentSettings (ratePersisted speed st) = currentSettings st
  /\ doc (ratePersisted speed st) = doc st
  /\ hasUserOverriddenSpeed (ratePersisted speed st) = hasUserOverriddenSpeed st
  /\ lastUserInteractionTimestamp (ratePersisted speed st)
     = lastUserInteractionTimestamp st.
Proof.
  unfold ratePersisted. destruct (_ && _); [repeat split|].
  destruct (ls_set_throws _); repeat split.
Qed.

Lemma current_setProp (st : state) (key : string) (v : jsval) :
  current (setProp (currentSettings st) key v st) !! key = Some v.
Proof.
  unfold current, setProp, deref. cbn [heap set_heap currentSettings].
  rewrite lookup_insert_eq. cbn [default]. apply lookup_insert_eq.
Qed.

Lemma clampRate_inside (q : Q) :
  (1 # 16 <= q <= 16)%Q ->
  exists c : Q, clampRate (JNum (Fin q)) = Fin c /\ (c == q)%Q.
Proof.
  intros [Hlo Hhi]. unfold clampRate. cbn [ToNumber Math_min num_lt].
  destruct (Qlt_bool q 16) eqn:E16.
  - cbn [Math_max num_lt]. destruct (Qlt_bool (1 # 16) q) eqn:Elo.
    + exists q. split; reflexivity.
    + exists (1 # 16)%Q. split; [reflexivity|].
      apply Qlt_bool_false_iff in Elo. by apply Qle_antisym.
  - apply Qlt_bool_false_iff in E16. cbn [Math_max num_lt].
    assert (Elo : Qlt_bool (1 # 16) 16 = true) by reflexivity. rewrite Elo.
    exists 16%Q. split; [reflexivity | by apply Qle_antisym].
Qed.

Lemma within_of_eq (q c : Q) : (c == q)%Q -> withinEpsilon (Fin q) (Fin c).
Proof.
  intros Heq. exists q, c. repeat split.
  assert (Hz : (q - c == 0)%Q) by (rewrite Heq; ring).
  rewrite Hz. discriminate.
Qed.

Lemma watcherTick_agrees (q : Q) (now : Z) (st : state) :
  (1 # 16 <= q <= 16)%Q -> agrees q st -> agrees q (watcherTick now st).
Proof.
  intros Hq [[rest Hv] Hrate].
  assert (Htarget : targetRate st = JNum (Fin q)).
  { unfold targetRate. rewrite Hrate. cbn [truthy].
    destruct (Qeq_bool q 0) eqn:E0; [|reflexivity].
    apply Qeq_bool_iff in E0. destruct Hq as [Hlo _]. rewrite E0 in Hlo.
    exfalso. apply Hlo. reflexivity. }
  unfold watcherTick, applyPlaybackRateToVideos. rewrite Htarget.
  destruct (negb _); [split; eauto|].
  rewrite Hv. cbn [enforceVideos].
  assert (Hhead : forall o,
            enforceVideo (JNum (Fin q)) (lastUserInteractionTimestamp st) now
                         (Video (Fin q)) o = (Video (Fin q), o)).
  { intros o. unfold enforceVideo. destruct (enforcerSkips _ _ _); [reflexivity|].
    destruct (clampRate_inside q Hq) as (c & Hc & Heq).
    cbn [playbackRate]. rewrite Hc.
    rewrite (withinEpsilon_test _ _ (within_of_eq q c Heq)).
    reflexivity. }
  rewrite Hhead.
  destruct (enforceVideos _ _ _ rest _) as [rest' o']. split; [|exact Hrate].
  exists rest'. reflexivity.
Qed.

Lemma ticks_agree (q : Q) (ticks : list Z) :
  (1 # 16 <= q <= 16)%Q ->
  forall st, agrees q st -> agrees q (foldl (fun s t => watcherTick t s) st ticks).
Proof.
  intros Hq. induction ticks as [|t ticks IH]; intros st Ha; simpl; [exact Ha|].
  apply IH. by apply watcherTick_agrees.
Qed.

End Kept.

(** X4. A selection is kept.  After a rate between 0.0625 and 16 has been
    selected through [setVideoSpeed] on a page with a video, the first
    video plays at that rate and stays at it over any sequence of watcher
    ticks, inside the grace window and after it, whichever store took the
    rate, and the target of every later tick is that rate. *)
Theorem selection_is_kept `{Builtins} (q : Q) (now : Z) (st : state) (ticks : list Z) :
  videos (doc st) <> [] ->
  (1 # 16 <= q <= 16)%Q ->
  let st' := foldl (fun s t => watcherTick t s) (exec (setVideoSpeed (Fin q) now) st) ticks in
  head (videos (doc st')) = Some (Video (Fin q))
  /\ targetRate st' = JNum (Fin q).
Proof.
  intros Hv Hq st'.
  assert (Ha : agrees q st').
  { subst st'. apply ticks_agree; [exact Hq|].
    destruct (videos (doc st)) as [|v rest] eqn:Ev; [contradiction|].
    unfold exec. rewrite (setVideoSpeed_valid (Fin q) now st v rest Ev eq_refl).
    - cbn [snd]. unfold agrees, current.
      destruct (ratePersisted_local (Fin q)
                  (selectionApplied (Fin q) now rest (warnOnce st)))
        as (Hh & Hc & Hd & _).
      unfold deref. rewrite Hh, Hc, Hd. split.
      + exists rest. reflexivity.
      + apply (current_setProp
                 (set_doc (set_videos (Video (Fin q) :: rest) (doc (warnOnce st)))
                    (set_hasUserOverriddenSpeed true
                       (set_lastUserInteractionTimestamp now (warnOnce st))))).
    - cbn [num_le]. destruct Hq as [Hlo _].
      destruct (Qle_bool q 0) eqn:E0; [|reflexivity].
      apply Qle_bool_iff in E0. exfalso.
      apply (Qle_not_lt _ _ (Qle_trans _ _ _ Hlo E0)). reflexivity.
    - by apply setterAccepts_range. }
  destruct Ha as [[rest Hvid] Hrate]. split.
  - rewrite Hvid. reflexivity.
  - unfold targetRate. rewrite Hrate. cbn [truthy].
    destruct (Qeq_bool q 0) eqn:E0; [|reflexivity].
    apply Qeq_bool_iff in E0. destruct Hq as [Hlo _]. rewrite E0 in Hlo.
    exfalso. apply Hlo. reflexivity.
Qed.

Lemma selection_is_kept_witness :
  head (videos (doc (foldl (fun s t => watcherTick t s)
                           (exec (setVideoSpeed (Fin (5 # 2)) 0) startState)
                           [1000; 2000; 6000; 7000])))
  = Some (Video (Fin (5 # 2))).
Proof.
  apply (selection_is_kept (5 # 2) 0 startState [1000; 2000; 6000; 7000]).
  - discriminate.
  - split; discriminate.
Defined.

(** ** The popover's placement *)

Ltac Qbool :=
  repeat match goal with
  | |- context [Qlt_bool ?a ?b] =>
      let E := fresh "E" in
      destruct (Qlt_bool a b) eqn:E;
      [apply Qlt_bool_iff in E | apply Qlt_bool_false_iff in E]
  end.

(** X5. The popover stays on screen.  If the menu with a 12 px margin on
    each side is no wider than the viewport, [showSpeedMenu] places it
    between the left and right margins; if it is no taller than the
    viewport and the button is not wholly off screen (its bottom not above
    the viewport's top, its top not below the viewport's bottom), it places
    it between the top and bottom margins; and whenever there is room
    above the button the menu sits directly above it, 12 px away. *)
Theorem menu_stays_on_screen (buttonRect menuRect : domRect)
    (viewportWidth viewportHeight : Q) :
  let '(menuLeft, menuTop) := menuPosition buttonRect menuRect viewportWidth viewportHeight in
  (rect_width menuRect + 24 <= viewportWidth ->
   12 <= menuLeft /\ menuLeft + rect_width menuRect <= viewportWidth - 12)%Q
  /\ (rect_height menuRect + 24 <= viewportHeight ->
      0 <= rect_bottom buttonRect -> rect_top buttonRect <= viewportHeight ->
      12 <= menuTop /\ menuTop + rect_height menuRect <= viewportHeight - 12)%Q
  /\ (12 <= rect_top buttonRect - rect_height menuRect - 12 ->
      menuTop + rect_height menuRect == rect_top buttonRect - 12)%Q.
Proof.
  unfold menuPosition. cbv zeta. Qbool; repeat split; intros; try lra.
Qed.

Lemma menu_stays_on_screen_witness :
  let '(menuLeft, menuTop) :=
    menuPosition (DomRect 1200 650 698 48 48) (DomRect 0 0 0 180 420) 1280 720 in
  (12 <= menuLeft /\ menuLeft + 180 <= 1280 - 12)%Q
  /\ (12 <= menuTop /\ menuTop + 420 <= 720 - 12)%Q.
Proof.
  pose proof (menu_stays_on_screen (DomRect 1200 650 698 48 48)
                (DomRect 0 0 0 180 420) 1280 720) as Hm.
  destruct (menuPosition _ _ _ _) as [menuLeft menuTop].
  destruct Hm as (Hh & Hv & _). split.
  - apply Hh. vm_compute. discriminate.
  - apply Hv; vm_compute; discriminate.
Defined.

(** ** The highlighted preset *)

Lemma presets_apart (i j : nat) (a b : Q) :
  presetSpeeds !! i = Some (Fin a) ->
  presetSpeeds !! j = Some (Fin b) ->
  i <> j ->
  (a - b <= -(1 # 4) \/ 1 # 4 <= a - b)%Q.
Proof.
  intros Hi Hj Hne. unfold presetSpeeds in Hi, Hj.
  repeat (destruct i as [|i]; cbn [lookup list_lookup] in Hi;
          [ injection Hi as <-;
            repeat (destruct j as [|j]; cbn [lookup list_lookup] in Hj;
                    [ injection Hj as <-;
                      first [ congruence
                            | left; unfold Qle; simpl; lia
                            | right; unfold Qle; simpl; lia ]
                    | ]);
            discriminate
          | ]).
  discriminate.
Qed.

Lemma near_cases (x s : Q) :
  Qlt_bool (Qabs (x - s)) (1 # 100) = true -> (-(1 # 100) < x - s < 1 # 100)%Q.
Proof.
  intros Hlt. apply Qlt_bool_iff in Hlt. by apply Qabs_Qlt_condition.
Qed.

Lemma presets_finite (i : nat) (p : number) :
  presetSpeeds !! i = Some p -> exists a : Q, p = Fin a.
Proof.
  intros Hi. unfold presetSpeeds in Hi.
  repeat (destruct i as [|i]; cbn [lookup list_lookup] in Hi;
          [injection Hi as <-; eexists; reflexivity|]).
  discriminate.
Qed.

Lemma near_two_presets (speed : number) (i j : nat) (p1 p2 : number) :
  presetSpeeds !! i = Some p1 ->
  presetSpeeds !! j = Some p2 ->
  num_lt (Math_abs (num_sub p1 speed)) (Fin (1 # 100)) = true ->
  num_lt (Math_abs (num_sub p2 speed)) (Fin (1 # 100)) = true ->
  i = j.
Proof.
  intros Hi Hj H1 H2.
  destruct (presets_finite i p1 Hi) as [a ->].
  destruct (presets_finite j p2 Hj) as [b ->].
  destruct speed as [| |s|]; try discriminate.
  cbn [num_sub Math_abs num_lt] in H1, H2.
  apply near_cases in H1, H2.
  destruct (decide (i = j)) as [Heq|Hne]; [exact Heq|].
  destruct (presets_apart i j a b Hi Hj Hne); lra.
Qed.

(** X6. At most one preset is highlighted.  Provided the text written for
    each preset in the menu parses back to the preset, for every rate
    shown by [updateSpeedDisplay] at most one item of the open menu is
    marked active, and the free-form field is emptied exactly when an
    item is marked active, showing the rate otherwise. *)
Theorem one_preset_highlighted `{Builtins} (speed : number) :
  Forall (fun preset => itemSpeed preset = preset) presetSpeeds ->
  (forall i j : nat,
      (menuDisplay speed).1 !! i = Some true ->
      (menuDisplay speed).1 !! j = Some true ->
      i = j)
  /\ ((menuDisplay speed).2 = "" <-> (true ∈ (menuDisplay speed).1
                                      \/ Number_toString speed = ""))
  /\ (true ∉ (menuDisplay speed).1 -> (menuDisplay speed).2 = Number_toString speed).
Proof.
  intros Hback.
  assert (Hact : forall i b, (menuDisplay speed).1 !! i = Some b ->
            exists p, presetSpeeds !! i = Some p
                      /\ b = num_lt (Math_abs (num_sub p speed)) (Fin (1 # 100))).
  { intros i b Hi. cbn [menuDisplay fst] in Hi. rewrite list_lookup_fmap in Hi.
    destruct (presetSpeeds !! i) as [p|] eqn:Hp; [|discriminate].
    injection Hi as <-. exists p. split; [reflexivity|].
    unfold itemActive. rewrite Forall_forall in Hback.
    rewrite (Hback p); [reflexivity|]. by eapply list_elem_of_lookup_2. }
  assert (Hex : isPreset speed = true <-> true ∈ (menuDisplay speed).1).
  { unfold isPreset. rewrite existsb_exists. split.
    - intros (p & Hin & Hp). apply list_elem_of_In in Hin.
      apply list_elem_of_lookup in Hin as [i Hi].
      apply list_elem_of_lookup. exists i. cbn [menuDisplay fst].
      rewrite list_lookup_fmap, Hi. cbn. f_equal. unfold itemActive.
      rewrite Forall_forall in Hback.
      rewrite (Hback p); [exact Hp|]. by eapply list_elem_of_lookup_2.
    - intros Hin. apply list_elem_of_lookup in Hin as [i Hi].
      destruct (Hact i true Hi) as (p & Hp & Hb).
      exists p. split; [|by symmetry].
      apply list_elem_of_In. by eapply list_elem_of_lookup_2. }
  split; [|split].
  - intros i j Hi Hj.
    destruct (Hact i true Hi) as (p1 & Hp1 & Hb1).
    destruct (Hact j true Hj) as (p2 & Hp2 & Hb2).
    by eapply (near_two_presets speed i j p1 p2).
  - cbn [menuDisplay snd]. destruct (isPreset speed) eqn:Ep.
    + split; [intros _; left; by apply Hex | reflexivity].
    + split.
      * intros Hs. right. exact Hs.
      * intros [Hin | Hs]; [apply Hex in Hin; congruence | exact Hs].
  - intros Hno. cbn [menuDisplay snd]. destruct (isPreset speed) eqn:Ep; [|reflexivity].
    exfalso. apply Hno. by apply Hex.
Qed.

Lemma presets_read_back : Forall (fun preset => itemSpeed preset = preset) presetSpeeds.
Proof. unfold presetSpeeds. repeat constructor; vm_compute; reflexivity. Qed.

Lemma one_preset_highlighted_witness :
  menuDisplay (Fin (501 # 200))
  = ([false; false; false; false; false; false; false; false; true; false; false], "")
  /\ (menuDisplay (Fin (17 # 10))).2 = "1.7".
Proof.
  destruct (one_preset_highlighted (Fin (17 # 10)) presets_read_back) as (_ & _ & Hshow).
  split; [vm_compute; reflexivity|].
  rewrite Hshow; [vm_compute; reflexivity|].
  vm_compute. intros Hin. repeat (apply elem_of_cons in Hin as [Hin|Hin]; [discriminate|]).
  by apply elem_of_nil in Hin.
Defined.

(** ** Thumbnail blur *)

Lemma blurOnce_idem (img : image) : blurOnce (blurOnce img) = blurOnce img.
Proof. unfold blurOnce. destruct (img_blurred img) eqn:E; [by rewrite E | reflexivity]. Qed.

Lemma blurOnce_selectors (img : image) : img_selectors (blurOnce img) = img_selectors img.
Proof. unfold blurOnce. destruct (img_blurred img); reflexivity. Qed.

Lemma blurImage_images (d : document) (i j : nat) :
  images (blurImage d i) !! j
  = if decide (i = j) then blurOnce <$> images d !! j else images d !! j.
Proof.
  unfold blurImage. destruct (images d !! i) as [img|] eqn:Hi.
  - destruct (img_blurred img) eqn:Eb.
    + destruct (decide (i = j)) as [<-|Hne]; [|reflexivity].
      rewrite Hi. cbn. unfold blurOnce. by rewrite Eb.
    + match goal with
      | |- images ?X !! _ = _ =>
          assert (images X
                  = <[i := Image (img_selectors img) BLUR_FILTER "filter 0.2s ease"
                                 true (img_closest img)]> (images d)) as ->
      end.
      { destruct (img_closest img) as [p|]; [|reflexivity].
        destruct (containers _ !! p) as [c|]; [|reflexivity].
        destruct (hover_added c); reflexivity. }
      destruct (decide (i = j)) as [<-|Hne].
      * rewrite list_lookup_insert_eq by (by eapply lookup_lt_Some).
        rewrite Hi. cbn. unfold blurOnce. by rewrite Eb.
      * by rewrite list_lookup_insert_ne.
  - destruct (decide (i = j)) as [<-|Hne]; [by rewrite Hi | reflexivity].
Qed.

Lemma foldl_blurImage_images (l : list nat) (j : nat) :
  forall d : document,
    images (foldl blurImage d l) !! j
    = if decide (j ∈ l) then blurOnce <$> images d !! j else images d !! j.
Proof.
  induction l as [|i l IH]; intros d; cbn [foldl].
  - rewrite decide_False by apply not_elem_of_nil. reflexivity.
  - rewrite IH, blurImage_images.
    destruct (decide (j ∈ i :: l)) as [Hin'|Hout'];
      destruct (decide (j ∈ l)) as [Hin|Hout];
      destruct (decide (i = j)) as [<-|Hne];
      try reflexivity.
    + destruct (images d !! i) as [img|]; [|reflexivity].
      cbn. by rewrite blurOnce_idem.
    + apply elem_of_cons in Hin' as [?|?]; [congruence | contradiction].
    + exfalso. apply Hout'. apply elem_of_cons. by right.
    + exfalso. apply Hout'. apply elem_of_cons. by right.
    + exfalso. apply Hout'. apply elem_of_cons. by left.
Qed.

Lemma querySelectorAll_img_spec (selector : string) (d : document) (j : nat) :
  j ∈ querySelectorAll_img selector d
  <-> exists img, images d !! j = Some img /\ matchesSelector selector img = true.
Proof.
  unfold querySelectorAll_img. rewrite list_elem_of_In, filter_In, in_seq.
  split.
  - intros [_ Hm]. destruct (images d !! j) as [img|]; [eauto | discriminate].
  - intros (img & Hj & Hm). rewrite Hj. split; [|exact Hm].
    apply lookup_lt_Some in Hj. lia.
Qed.

Lemma blur_selectors_images (selectors : list string) (j : nat) :
  forall d : document,
    images (foldl (fun d selector => foldl blurImage d (querySelectorAll_img selector d))
                  d selectors) !! j
    = (fun img => if existsb (fun selector => matchesSelector selector img) selectors
                  then blurOnce img else img) <$> images d !! j.
Proof.
  induction selectors as [|sel selectors IH]; intros d; cbn [foldl existsb].
  - destruct (images d !! j); reflexivity.
  - rewrite IH, foldl_blurImage_images.
    destruct (images d !! j) as [img|] eqn:Hj.
    + destruct (decide (j ∈ querySelectorAll_img sel d)) as [Hin|Hout].
      * apply querySelectorAll_img_spec in Hin as (img' & Hj' & Hm).
        assert (img' = img) as -> by congruence.
        cbn. rewrite Hm. cbn. rewrite blurOnce_idem.
        by destruct (existsb _ selectors).
      * destruct (matchesSelector sel img) eqn:Hm; [|cbn; by rewrite Hm].
        exfalso. apply Hout. apply querySelectorAll_img_spec. eauto.
    + destruct (decide _); reflexivity.
Qed.

Lemma blurImage_videos (d : document) (i : nat) : videos (blurImage d i) = videos d.
Proof.
  unfold blurImage. destruct (images d !! i) as [img|]; [|reflexivity].
  destruct (img_blurred img); [reflexivity|].
  destruct (img_closest img) as [p|]; [|reflexivity]. simpl.
  destruct (containers d !! p) as [c|]; [|reflexivity].
  destruct (hover_added c); reflexivity.
Qed.

Lemma applyThumbnailBlur_videos (d : document) : videos (applyThumbnailBlur d) = videos d.
Proof.
  unfold applyThumbnailBlur. generalize thumbnailSelectors as l.
  intros l. revert d. induction l as [|sel l IH]; intros d; simpl; [reflexivity|].
  rewrite IH. generalize (querySelectorAll_img sel d) as idx. intros idx.
  revert d. induction idx as [|i idx IHi]; intros d; simpl; [reflexivity|].
  rewrite IHi. apply blurImage_videos.
Qed.

Lemma blurred_images_spec (d : document) :
  images (applyThumbnailBlur d) = blurIfThumbnail <$> images d.
Proof.
  apply list_eq. intros j. unfold applyThumbnailBlur.
  rewrite blur_selectors_images, list_lookup_fmap. reflexivity.
Qed.

(** X7. What [applyThumbnailBlur] blurs.  It gives the blur filter, the
    transition and the marker to exactly the images that match one of the
    thumbnail selectors and are not yet marked; a marked image keeps its
    filter, an image matching no selector is untouched, and so are the
    videos and the body's attributes.  Applied again it changes no
    image. *)
Theorem applyThumbnailBlur_images (d : document) :
  images (applyThumbnailBlur d) = blurIfThumbnail <$> images d
  /\ videos (applyThumbnailBlur d) = videos d
  /\ body (applyThumbnailBlur d) = body d
  /\ images (applyThumbnailBlur (applyThumbnailBlur d)) = images (applyThumbnailBlur d).
Proof.
  split; [apply blurred_images_spec|]. split; [apply applyThumbnailBlur_videos|].
  split; [apply applyThumbnailBlur_body|].
  rewrite !blurred_images_spec, <- list_fmap_compose. apply list_fmap_ext.
  intros i img _. cbn. unfold blurIfThumbnail.
  destruct (isThumbnail img) eqn:Et; [|by rewrite Et].
  assert (Hsel : isThumbnail (blurOnce img) = true).
  { unfold isThumbnail, matchesSelector in *. by rewrite blurOnce_selectors. }
  rewrite Hsel. apply blurOnce_idem.
Qed.

Lemma unblurImage_idem (img : image) : unblurImage (unblurImage img) = unblurImage img.
Proof.
  unfold unblurImage. destruct (img_blurred img) eqn:E; [reflexivity | by rewrite E].
Qed.

(** X8. Removing the blur.  [removeThumbnailBlur] applied twice is
    [removeThumbnailBlur] applied once, and it leaves every image that
    carries no marker exactly as it is.  After the blur has been applied
    and removed, no image is marked, every image that matches a thumbnail
    selector or was marked has an empty filter, and every other image is
    as it was. *)
Theorem removeThumbnailBlur_safe (d : document) :
  removeThumbnailBlur (removeThumbnailBlur d) = removeThumbnailBlur d
  /\ Forall2 (fun img img' => img_blurred img = false -> img' = img)
             (images d) (images (removeThumbnailBlur d))
  /\ Forall2 (fun img img' =>
                img_blurred img' = false
                /\ (isThumbnail img = true \/ img_blurred img = true ->
                    img_filter img' = "")
                /\ (isThumbnail img = false -> img_blurred img = false -> img' = img))
             (images d) (images (removeThumbnailBlur (applyThumbnailBlur d))).
Proof.
  split; [|split].
  - unfold removeThumbnailBlur. cbn [body videos images containers]. f_equal.
    + unfold removeAttribute. apply delete_delete_eq.
    + rewrite <- list_fmap_compose. apply list_fmap_ext.
      intros i img _. apply unblurImage_idem.
    + rewrite <- list_fmap_compose. apply list_fmap_ext. reflexivity.
  - cbn [removeThumbnailBlur images]. apply Forall2_fmap_r, Forall2_same.
    intros img Hb. unfold unblurImage. by rewrite Hb.
  - cbn [removeThumbnailBlur images].
    rewrite blurred_images_spec, <- list_fmap_compose.
    apply Forall2_fmap_r, Forall2_same. intros img. unfold compose.
    destruct (isThumbnail img) eqn:Et, (img_blurred img) eqn:Eb;
      unfold blurIfThumbnail; rewrite Et;
      unfold blurOnce, unblurImage; rewrite ?Eb;
      cbn [img_blurred img_filter]; rewrite ?Eb;
      repeat split; try reflexivity; try discriminate;
      try (intros [?|?]; discriminate).
Qed.

(** ** A selection read back through the fallback tier *)

Section SelectionFallback.
Context `{Builtins}.

Lemma deref_setProp_other (r r' : nat) (k key : string) (v : jsval) (st : state) :
  key <> k -> deref (setProp r k v st) r' !! key = deref st r' !! key.
Proof.
  intros Hne. unfold setProp. rewrite deref_set_heap.
  destruct (decide (r = r')) as [->|Hr].
  - rewrite (lookup_insert_eq (heap st)). cbn [default from_option id].
    by rewrite lookup_insert_ne by congruence.
  - by rewrite (lookup_insert_ne (heap st)).
Qed.

Lemma warnOnce_same (st : state) :
  heap (warnOnce st) = heap st /\ currentSettings (warnOnce st) = currentSettings st
  /\ doc (warnOnce st) = doc st /\ localStorage (warnOnce st) = localStorage st
  /\ chrome (warnOnce st) = chrome st.
Proof. unfold warnOnce. destruct (_ && _); repeat split. Qed.

Lemma storedValue_rate (items : gmap string string) (speed : number) :
  num_lt (Fin 0) speed = true ->
  parseFloat (Number_toString speed) = speed ->
  storedValue (<["ghostfeed-playbackRate" := Number_toString speed]> items) "playbackRate"
  = Some (JNum speed).
Proof.
  intros Hpos Hback. unfold storedValue.
  change ("ghostfeed-" +:+ "playbackRate") with "ghostfeed-playbackRate".
  rewrite lookup_insert_eq, decide_True by reflexivity. rewrite Hback.
  destruct speed; try discriminate; cbv beta iota; rewrite ?Hpos; reflexivity.
Qed.

Lemma storedValue_other (items : gmap string string) (text key : string) :
  key <> "playbackRate" ->
  storedValue (<["ghostfeed-playbackRate" := text]> items) key = storedValue items key.
Proof.
  intros Hne. unfold storedValue. rewrite lookup_insert_ne; [reflexivity|].
  change "ghostfeed-playbackRate" with ("ghostfeed-" +:+ "playbackRate").
  intros Heq. apply prefix_inj in Heq. congruence.
Qed.

End SelectionFallback.

(** X9. A selection survives in the fallback tier.  When the extension
    context is gone and the local store can be written and read, the
    selection, on a page with a video, of a rate above 0 that the element
    accepts changes what [load] resolves with in the rate only: the object
    loaded afterwards is the object [load] would have given before the
    selection, with [playbackRate] set to the selected rate (provided the
    text written for the rate reads back as the rate). *)
Theorem selection_survives_fallback `{Builtins} (speed : number) (now : Z) (st : state) :
  videos (doc st) <> [] ->
  num_lt (Fin 0) speed = true ->
  setterAccepts speed = true ->
  parseFloat (Number_toString speed) = speed ->
  isChromeStorageAvailable st = false ->
  ls_set_throws (localStorage st) = false ->
  ls_get_throws (localStorage st) = false ->
  exists (r r0 : nat) (st' st0 : state),
    loadSettingsFromStorage (exec (setVideoSpeed speed now) st) = (Normal r, st')
    /\ loadSettingsFromStorage st = (Normal r0, st0)
    /\ deref st' r = <["playbackRate" := JNum speed]> (deref st0 r0).
Proof.
  intros Hv Hpos Hacc Hback Hav Hset Hget.
  destruct (videos (doc st)) as [|v rest] eqn:Ev; [contradiction|].
  assert (Hn : isNaN speed = false) by (destruct speed; try reflexivity; discriminate).
  assert (Hle : num_le speed (Fin 0) = false).
  { destruct speed as [| |q|]; try reflexivity; try discriminate.
    cbn [num_lt num_le] in *. apply Qlt_bool_iff in Hpos.
    destruct (Qle_bool q 0) eqn:E; [|reflexivity].
    apply Qle_bool_iff in E. exfalso. exact (Qlt_not_le _ _ Hpos E). }
  unfold exec. rewrite (setVideoSpeed_valid speed now st v rest Ev Hn Hle Hacc). cbn [snd].
  set (sel := selectionApplied speed now rest (warnOnce st)).
  destruct (warnOnce_same st) as (Hwh & Hwc & Hwd & Hwl & Hwch).
  assert (Hsel_ls : localStorage sel = localStorage st) by exact Hwl.
  assert (Hsel_ch : chrome sel = chrome st) by exact Hwch.
  assert (Hsel_av : isChromeStorageAvailable sel = false).
  { unfold isChromeStorageAvailable. rewrite Hsel_ch. exact Hav. }
  unfold ratePersisted. rewrite Hsel_av. cbn [andb]. rewrite Hsel_ls, Hset.
  set (st1 := set_localStorage _ sel).
  assert (Hfb1 : readsFallback st1) by (left; exact Hsel_av).
  assert (Hfb0 : readsFallback st) by (left; exact Hav).
  rewrite (load_readsFallback st1 Hfb1), (load_readsFallback st Hfb0).
  rewrite (loadFromLocalStorageFallback_reads st1) by exact Hget.
  rewrite (loadFromLocalStorageFallback_reads st) by exact Hget.
  eexists _, _, _, _. split; [reflexivity|]. split; [reflexivity|].
  rewrite !deref_set_heap, !lookup_insert_eq. cbn [default from_option id].
  apply map_eq. intros key. rewrite overlay_lookup.
  change (ls_items (localStorage st1))
    with (<["ghostfeed-playbackRate" := Number_toString speed]> (ls_items (localStorage st))).
  destruct (decide (key = "playbackRate")) as [->|Hne].
  - rewrite lookup_insert_eq, decide_True by compute_done.
    by rewrite (storedValue_rate _ speed Hpos Hback).
  - rewrite lookup_insert_ne by congruence. rewrite overlay_lookup.
    rewrite (storedValue_other _ _ key Hne).
    assert (Hd : deref st1 DEFAULT_REF !! key = deref st DEFAULT_REF !! key).
    { change (deref st1 DEFAULT_REF) with (deref sel DEFAULT_REF).
      unfold sel, selectionApplied. rewrite deref_setProp_other by exact Hne.
      unfold deref. cbn [heap set_doc set_hasUserOverriddenSpeed
                         set_lastUserInteractionTimestamp]. by rewrite Hwh. }
    rewrite Hd. reflexivity.
Qed.

Lemma selection_survives_fallback_witness :
  exists (r : nat) (st' : state),
    loadSettingsFromStorage (exec (setVideoSpeed (Fin (7 # 4)) 0) offlineState)
    = (Normal r, st')
    /\ deref st' r !! "playbackRate" = Some (JNum (Fin (7 # 4)))
    /\ deref st' r !! "hideHome" = Some (JBool false).
Proof.
  destruct (selection_survives_fallback (Fin (7 # 4)) 0 offlineState)
    as (r & r0 & st' & st0 & E & E0 & Hobj); try reflexivity; [discriminate|].
  exists r, st'. split; [exact E|]. rewrite Hobj.
  vm_compute in E0. injection E0 as <- <-.
  split; vm_compute; reflexivity.
Defined.


(** ** The mirror written by a successful load *)

Lemma load_primary_mirrored `{Builtins} (st : state) :
  isChromeStorageAvailable st = true ->
  sync_get (chrome st) = GetSucceeds ->
  ls_set_throws (localStorage st) = false ->
  let r := fresh (dom (heap st)) in
  loadSettingsFromStorage st
  = (Normal r,
     set_localStorage
       (StorageArea (savedItems (ls_items (localStorage st)) (map_to_list (syncResult st)))
                    (ls_get_throws (localStorage st)) false)
       (set_heap (<[r := syncResult st]> (heap st)) st)).
Proof.
  intros Hav Hget Hset r. unfold loadSettingsFromStorage.
  unfold mbind at 1, M_bind at 1, bind at 1, try_catch.
  unfold mbind at 1, M_bind at 1, bind at 1, get_state at 1.
  rewrite Hav.
  unfold mbind at 1, M_bind at 1, bind at 1, chrome_storage_sync_get.
  rewrite Hget. fold (syncResult st).
  unfold mbind at 1, M_bind at 1, bind at 1.
  destruct (alloc_spec (syncResult st) st) as [-> _]. fold r.
  cbn [ret default].
  unfold mbind at 1, M_bind at 1, bind at 1.
  rewrite saveToLocalStorageBackup_spec.
  change (localStorage (set_heap ?h st)) with (localStorage st). rewrite Hset.
  rewrite deref_set_heap, lookup_insert_eq. reflexivity.
Qed.

(** X10. The mirror serves later loads.  A [load] answered by the primary
    backend resolves with the stored values over the defaults and writes
    them to the local store; when the extension context is lost afterwards,
    [load] resolves from the local store with an object equal to the one
    loaded before (for a valid snapshot whose rate text reads back, and a
    local store that can be written and read). *)
Theorem mirror_serves_fallback `{Builtins} (st : state) (c' : chromeEnv) :
  heap st !! DEFAULT_REF = Some DEFAULT_SETTINGS ->
  isChromeStorageAvailable st = true ->
  sync_get (chrome st) = GetSucceeds ->
  ls_set_throws (localStorage st) = false ->
  ls_get_throws (localStorage st) = false ->
  validSnapshot (syncResult st) ->
  rateTextReadsBack (syncResult st) ->
  exists (r : nat) (st1 : state),
    loadSettingsFromStorage st = (Normal r, st1)
    /\ deref st1 r = syncResult st
    /\ (readsFallback (set_chrome c' st1) ->
        exists (r' : nat) (st' : state),
          loadSettingsFromStorage (set_chrome c' st1) = (Normal r', st')
          /\ r' <> r
          /\ deref st' r' = deref st1 r).
Proof.
  intros Hd Hav Hget Hset Hread Hvalid Hback.
  rewrite (load_primary_mirrored st Hav Hget Hset).
  set (r := fresh (dom (heap st))).
  set (st1 := set_localStorage _ _).
  assert (Hobj : deref st1 r = syncResult st).
  { change (deref st1 r) with (deref (set_heap (<[r := syncResult st]> (heap st)) st) r).
    rewrite deref_set_heap, lookup_insert_eq. reflexivity. }
  exists r, st1. split; [reflexivity|]. split; [exact Hobj|].
  intros Hfb. rewrite (load_readsFallback _ Hfb).
  rewrite loadFromLocalStorageFallback_reads by exact Hread.
  eexists _, _. split; [reflexivity|].
  assert (Hr : r <> DEFAULT_REF).
  { apply fresh_not_default. by rewrite Hd. }
  split.
  - change (heap (set_chrome c' st1)) with (<[r := syncResult st]> (heap st)).
    intros Heq. apply (is_fresh (dom (<[r := syncResult st]> (heap st)))).
    rewrite Heq. apply elem_of_dom. rewrite lookup_insert_eq. eauto.
  - rewrite deref_set_heap, lookup_insert_eq, Hobj. cbn [default from_option id].
    assert (Hdef : deref (set_chrome c' st1) DEFAULT_REF = DEFAULT_SETTINGS).
    { change (deref (set_chrome c' st1) DEFAULT_REF)
        with (deref (set_heap (<[r := syncResult st]> (heap st)) st) DEFAULT_REF).
      rewrite deref_set_heap, lookup_insert_ne by exact Hr. by rewrite Hd. }
    rewrite Hdef.
    change (ls_items (localStorage (set_chrome c' st1)))
      with (savedItems (ls_items (localStorage st)) (map_to_list (syncResult st))).
    apply overlay_saved; assumption.
Qed.

Lemma syncedState_result : syncResult syncedState = sampleSnapshot.
Proof.
  apply syncResult_saved; [apply sampleSnapshot_valid | reflexivity |].
  intros key _. reflexivity.
Qed.

Lemma mirror_serves_fallback_witness :
  exists (r : nat) (st1 : state),
    loadSettingsFromStorage syncedState = (Normal r, st1)
    /\ deref st1 r = syncResult syncedState
    /\ (readsFallback (set_chrome offlineChrome st1) ->
        exists (r' : nat) (st' : state),
          loadSettingsFromStorage (set_chrome offlineChrome st1) = (Normal r', st')
          /\ r' <> r
          /\ deref st' r' = deref st1 r).
Proof.
  apply (mirror_serves_fallback syncedState offlineChrome);
    try reflexivity; rewrite syncedState_result;
    [apply sampleSnapshot_valid | apply sampleSnapshot_reads_back].
Defined.


(** ** The markers after the settings are applied *)

Lemma flag_entry_cases (key attr : string) :
  (key, attr) ∈ BODY_FLAG_ATTRIBUTES ->
  key <> "playbackRate" /\ key <> "masterEnabled"
  /\ attr <> "data-ghostfeed-hover-added" /\ attr <> MASTER_ATTRIBUTE.
Proof.
  intros Hin. unfold BODY_FLAG_ATTRIBUTES in Hin.
  repeat (apply elem_of_cons in Hin as [Heq|Hin];
          [injection Heq as -> ->; repeat split; discriminate|]).
  by apply elem_of_nil in Hin.
Qed.

Lemma markers_reconciled (s : gmap string jsval) (b : gmap string string) :
  markersReflect s (reconciledBody s b).
Proof.
  split; [apply reconciledBody_master|].
  intros key attr Hin. by apply reconciledBody_flag.
Qed.

Lemma markers_without_hover (s : gmap string jsval) (b : gmap string string) :
  markersReflect s b ->
  markersReflect s (removeAttribute "data-ghostfeed-hover-added" b).
Proof.
  intros [Hm Hf]. unfold removeAttribute. split.
  - by rewrite lookup_delete_ne by discriminate.
  - intros key attr Hin. destruct (flag_entry_cases key attr Hin) as (_ & _ & Ha & _).
    rewrite lookup_delete_ne by congruence. by apply Hf.
Qed.

Lemma markers_rate (s : gmap string jsval) (b : gmap string string) (v : jsval) :
  markersReflect s b -> markersReflect (<["playbackRate" := v]> s) b.
Proof.
  intros [Hm Hf]. split.
  - by rewrite lookup_insert_ne by discriminate.
  - intros key attr Hin. destruct (flag_entry_cases key attr Hin) as (Hk & _).
    rewrite !lookup_insert_ne by (discriminate || congruence). by apply Hf.
Qed.

Lemma markers_applyBodyFlags (s : gmap string jsval) (d : document) :
  markersReflect s (body (applyBodyFlags s d)).
Proof.
  rewrite applyBodyFlags_body.
  destruct (_ && _); [|apply markers_without_hover]; apply markers_reconciled.
Qed.

Lemma current_setProp_map (st : state) (k : string) (v : jsval) :
  current (setProp (currentSettings st) k v st) = <[k := v]> (current st).
Proof.
  unfold current, setProp. cbn [currentSettings set_heap].
  rewrite deref_set_heap, lookup_insert_eq. reflexivity.
Qed.

Lemma applySettingsImmediately_markers (st : state) :
  markersInStep (applySettingsImmediately (currentSettings st) st).
Proof.
  unfold applySettingsImmediately, exec, applySettingsImmediately_call.
  set (st1 := set_doc (applyBodyFlags (deref st (currentSettings st)) (doc st)) st).
  assert (H1 : markersInStep st1) by apply markers_applyBodyFlags.
  cbv zeta.
  destruct (negb _); [exact H1|].
  destruct (videos (doc st1)) as [|videoElement rest]; [exact H1|].
  destruct (_ && _); [destruct (setterAccepts _); exact H1|].
  cbn [snd]. unfold markersInStep. rewrite current_setProp_map. by apply markers_rate.
Qed.

Lemma injectSpeedControls_markers (st : state) :
  markersInStep st -> markersInStep (injectSpeedControls st).
Proof. unfold injectSpeedControls. by destruct (isSpeedControlsInjected st). Qed.

Lemma afterSettingsApplied_markers (wasEnabled wasBlurEnabled : option jsval)
    (st2 : state) :
  markersInStep st2 ->
  markersInStep (afterSettingsApplied wasEnabled wasBlurEnabled st2).
Proof.
  intros H2. unfold afterSettingsApplied.
  set (st3 := startPlaybackRateWatcher st2).
  assert (H3 : markersInStep st3) by exact H2. clearbody st3.
  set (st4 := if _ && _ then injectSpeedControls st3 else _).
  assert (H4 : markersInStep st4).
  { unfold st4. destruct (_ && _); [by apply injectSpeedControls_markers|].
    destruct (_ && _); [exact H3 | exact H3]. }
  clearbody st4.
  set (st5 := if negb _ then _ else st4).
  assert (H5 : markersInStep st5).
  { unfold st5. destruct (negb _); [|exact H4].
    destruct (_ && _); [exact H4|]. by apply markers_without_hover. }
  clearbody st5.
  destruct (_ && _); [exact H5 | exact H5].
Qed.

Lemma onSettingsLoaded_markers (newSettings : nat) (now : Z) (st : state) :
  markersInStep (onSettingsLoaded newSettings now st).
Proof.
  unfold onSettingsLoaded. cbv zeta.
  set (st1 := set_currentSettings newSettings st).
  destruct (changeHandlerSuppresses _ _ _).
  - apply afterSettingsApplied_markers, markers_applyBodyFlags.
  - pose proof (applySettingsImmediately_markers st1) as H2.
    unfold applySettingsImmediately, exec in H2.
    destruct (applySettingsImmediately_call (currentSettings st1) st1) as [[[]|] st2];
      cbn [snd] in H2; [by apply afterSettingsApplied_markers | exact H2].
Qed.

Lemma load_keeps_page `{Builtins} (st : state) :
  exists (r : nat) (st' : state),
    loadSettingsFromStorage st = (Normal r, st') /\ doc st' = doc st.
Proof.
  assert (Hfb : readsFallback st ->
    exists r st', loadSettingsFromStorage st = (Normal r, st') /\ doc st' = doc st).
  { intros Hfb. rewrite (load_readsFallback st Hfb).
    destruct (ls_get_throws (localStorage st)) eqn:Hget.
    - rewrite loadFromLocalStorageFallback_throws by exact Hget. eauto.
    - rewrite loadFromLocalStorageFallback_reads by exact Hget. eauto. }
  destruct (isChromeStorageAvailable st) eqn:Hav.
  - destruct (sync_get (chrome st)) eqn:Hget.
    + apply Hfb. right; left; exact Hget.
    + apply Hfb. right; right; exact Hget.
    + destruct (load_undefined st Hav Hget) as [ls' E]. eauto.
    + destruct (load_primary st Hav Hget) as [ls' E]. eauto.
  - apply Hfb. left; exact Hav.
Qed.

(** X11. The markers follow the settings.  After the script has started
    ([initializeExtension]), after a navigation event, and after a change
    notification for the [sync] area, whatever the stores hold and however
    they fail, the body's markers say what the current settings say: the
    master marker is present exactly when [masterEnabled] is truthy, and
    each feature's marker exactly when [masterEnabled] and the feature's
    flag are both truthy. *)
Theorem markers_follow_settings `{Builtins} (now : Z) (st : state) :
  markersInStep (run Initialize st)
  /\ markersInStep (run Navigation st)
  /\ markersInStep (run (StorageChanged "sync" now) st).
Proof.
  destruct (load_keeps_page st) as (r & st1 & E & _).
  split; [|split].
  - cbn [run]. unfold exec, initializeExtension, try_catch.
    unfold mbind at 1, M_bind at 1, bind at 1. rewrite E.
    unfold mbind at 1, M_bind at 1, bind at 1, modify at 1.
    set (st2 := set_currentSettings r st1).
    unfold mbind at 1, M_bind at 1, bind at 1.
    unfold mbind at 1, M_bind at 1, bind at 1, get_state at 1.
    pose proof (applySettingsImmediately_markers st2) as H2.
    unfold applySettingsImmediately, exec in H2.
    destruct (applySettingsImmediately_call (currentSettings st2) st2) as [[[]|] st3];
      cbn [snd] in H2; [|exact H2].
    unfold mbind at 1, M_bind at 1, bind at 1, modify at 1.
    unfold mbind at 1, M_bind at 1, bind at 1, get_state at 1.
    set (st4 := startPlaybackRateWatcher _).
    assert (H4 : markersInStep st4) by exact H2. clearbody st4.
    destruct (truthy _); cbn [snd modify ret]; [by apply injectSpeedControls_markers | exact H4].
  - cbn [run]. apply applySettingsImmediately_markers.
  - cbn [run]. unfold exec, handleStorageChanges.
    change (negb (String.eqb "sync" "sync")) with false. cbv iota.
    unfold mbind at 1, M_bind at 1, bind at 1. rewrite E.
    cbn [snd modify]. apply onSettingsLoaded_markers.
Qed.


(** ** The hover handlers of a blurred thumbnail *)

Lemma setFilter_images (f : string) (d : document) (i j : nat) :
  images (setFilter f d i) !! j
  = if decide (i = j) then withFilter f <$> images d !! j else images d !! j.
Proof.
  unfold setFilter. destruct (images d !! i) as [img|] eqn:Hi.
  - cbn [images set_images]. destruct (decide (i = j)) as [<-|Hne].
    + rewrite list_lookup_insert_eq by (by eapply lookup_lt_Some). by rewrite Hi.
    + by rewrite list_lookup_insert_ne.
  - destruct (decide (i = j)) as [<-|Hne]; [by rewrite Hi | reflexivity].
Qed.

Lemma setFilter_rest (f : string) (d : document) (i : nat) :
  body (setFilter f d i) = body d /\ videos (setFilter f d i) = videos d
  /\ containers (setFilter f d i) = containers d.
Proof. unfold setFilter. by destruct (images d !! i). Qed.

Lemma foldl_setFilter_rest (f : string) (l : list nat) :
  forall d : document,
    body (foldl (setFilter f) d l) = body d
    /\ videos (foldl (setFilter f) d l) = videos d
    /\ containers (foldl (setFilter f) d l) = containers d.
Proof.
  induction l as [|i l IH]; intros d; cbn [foldl]; [done|].
  destruct (IH (setFilter f d i)) as (-> & -> & ->). apply setFilter_rest.
Qed.

Lemma foldl_setFilter_images (f : string) (l : list nat) (j : nat) :
  forall d : document,
    images (foldl (setFilter f) d l) !! j
    = if decide (j ∈ l) then withFilter f <$> images d !! j else images d !! j.
Proof.
  induction l as [|i l IH]; intros d; cbn [foldl].
  - rewrite decide_False by apply not_elem_of_nil. reflexivity.
  - rewrite IH, setFilter_images.
    destruct (decide (j ∈ i :: l)) as [Hin'|Hout'];
      destruct (decide (j ∈ l)) as [Hin|Hout];
      destruct (decide (i = j)) as [<-|Hne];
      try reflexivity;
      try (by destruct (images d !! i));
      try (exfalso; apply elem_of_cons in Hin' as [?|?]; [congruence|contradiction]);
      exfalso; apply Hout'; apply elem_of_cons; (by left) || (by right).
Qed.

(** X12. Hovering over a blurred thumbnail.  The pointer entering a
    thumbnail container changes nothing but the document, and in it
    nothing but the [filter] of the images whose handlers the container
    holds, which becomes [none]; every other image, the body, the videos
    and the containers are as they were.  The pointer leaving changes
    nothing unless the master switch and the thumbnail blur are both on.
    While they are on and the images whose handlers the container holds
    show the blur filter, the pointer entering and then leaving the
    container gives back the state it found. *)
Theorem hover_round_trip `{Builtins} (p : nat) (st : state) :
  (run (MouseEnter p) st = set_doc (doc (run (MouseEnter p) st)) st
   /\ body (doc (run (MouseEnter p) st)) = body (doc st)
   /\ videos (doc (run (MouseEnter p) st)) = videos (doc st)
   /\ containers (doc (run (MouseEnter p) st)) = containers (doc st)
   /\ forall j : nat,
        images (doc (run (MouseEnter p) st)) !! j
        = if decide (j ∈ hoverTargets p (doc st))
          then withFilter "none" <$> images (doc st) !! j
          else images (doc st) !! j)
  /\ (truthy (current st !! "masterEnabled") && truthy (current st !! "blurThumbs") = false ->
      run (MouseLeave p) st = st)
  /\ (truthy (current st !! "masterEnabled") && truthy (current st !! "blurThumbs") = true ->
      handlersBlurred p (doc st) ->
      run (MouseLeave p) (run (MouseEnter p) st) = st).
Proof.
  cbn [run]. unfold onMouseEnter, onMouseLeave, hoverTargets.
  destruct (containers (doc st) !! p) as [c|] eqn:Hc.
  2:{ rewrite Hc. split; [|split; [reflexivity | intros _ _; reflexivity]].
      split; [by destruct st|]. repeat split. }
  set (l := hover_handlers c).
  destruct (foldl_setFilter_rest "none" l (doc st)) as (Hb & Hv & Hk).
  split; [|split].
  - cbn [doc set_doc]. split; [reflexivity|].
    split; [exact Hb|]. split; [exact Hv|]. split; [exact Hk|].
    intros j. apply foldl_setFilter_images.
  - intros Hoff. by rewrite Hoff.
  - intros Hon Hblur. cbn [doc set_doc].
    rewrite Hk, Hc. fold l.
    change (current (set_doc ?d st)) with (current st). rewrite Hon.
    assert (HD : foldl (setFilter BLUR_FILTER) (foldl (setFilter "none") (doc st) l) l
                 = doc st); [|rewrite HD; by destruct st].
    destruct (foldl_setFilter_rest BLUR_FILTER l (foldl (setFilter "none") (doc st) l))
      as (Hb' & Hv' & Hk').
    apply (eq_trans (eq_sym (document_eta _))).
    rewrite Hb', Hv', Hk', Hb, Hv, Hk.
    apply (eq_trans (y := Document (body (doc st)) (videos (doc st)) (images (doc st))
                                   (containers (doc st)))); [|apply document_eta].
    f_equal.
    apply list_eq. intros j. rewrite !foldl_setFilter_images.
    destruct (decide (j ∈ l)) as [Hin|Hout]; [|reflexivity].
    destruct (images (doc st) !! j) as [img|] eqn:Hj; [|reflexivity].
    cbn. f_equal. pose proof (Hblur c j img Hc Hin Hj) as Hf.
    destruct img as [sel f tr bl cl]. cbn in Hf. subst f. reflexivity.
Qed.

Lemma hover_round_trip_witness :
  run (MouseLeave 0) (run (MouseEnter 0) blurringState) = blurringState
  /\ images (doc (run (MouseEnter 0) blurringState))
     = [Image ["ytd-thumbnail img"] "none" "filter 0.2s ease" true (Some 0%nat)].
Proof.
  split; [|vm_compute; reflexivity].
  apply (proj2 (proj2 (hover_round_trip 0 blurringState))); [reflexivity|].
  intros c i img Hc Hi Himg. vm_compute in Hc. injection Hc as <-.
  apply list_elem_of_singleton in Hi as ->.
  vm_compute in Himg. injection Himg as <-. reflexivity.
Defined.


(** ** Start-up *)

Lemma tryInit_spec (available : nat -> bool) (fuel retryCount : nat) :
  (maxRetries - retryCount < fuel)%nat ->
  exists k : nat,
    tryInit fuel available retryCount = Some k
    /\ (retryCount <= k)%nat
    /\ (k <= Nat.max maxRetries retryCount)%nat
    /\ (forall j : nat, (retryCount <= j < k)%nat -> available j = false)
    /\ ((k < maxRetries)%nat -> available k = true).
Proof.
  revert retryCount. induction fuel as [|fuel IH]; intros retryCount Hfuel; [lia|].
  cbn [tryInit]. destruct (available retryCount) eqn:Ha; cbn [orb].
  - exists retryCount. split; [reflexivity|]. split; [lia|]. split; [lia|].
    split; [intros j Hj; lia | intros _; exact Ha].
  - destruct (maxRetries <=? retryCount)%nat eqn:Hm.
    + apply Nat.leb_le in Hm. exists retryCount.
      split; [reflexivity|]. split; [lia|]. split; [lia|].
      split; [intros j Hj; lia | intros Hlt; lia].
    + apply Nat.leb_gt in Hm.
      destruct (IH (S retryCount)) as (k & E & Hlo & Hhi & Hno & Hyes); [lia|].
      exists k. split; [exact E|]. split; [lia|]. split; [lia|].
      split; [|exact Hyes].
      intros j Hj. destruct (decide (j = retryCount)) as [->|Hne]; [exact Ha|].
      apply Hno. lia.
Qed.

(** X13. Start-up is not held back for long.  [initializeWithRetry] calls
    [initializeExtension] after at most three waits: after the first wait
    at whose end the extension storage is available, and after the third
    wait whether it is available or not.  Four rounds of [tryInit] always
    suffice. *)
Theorem initializeWithRetry_bounded (available : nat -> bool) (fuel : nat) :
  (4 <= fuel)%nat ->
  exists k : nat,
    initializeWithRetry fuel available = Some k
    /\ (k <= 3)%nat
    /\ (forall j : nat, (j < k)%nat -> available j = false)
    /\ ((k < 3)%nat -> available k = true).
Proof.
  intros Hfuel. unfold initializeWithRetry.
  destruct (available 0%nat) eqn:H0.
  - exists 0%nat. split; [reflexivity|]. split; [lia|].
    split; [intros j Hj; lia | intros _; exact H0].
  - destruct (tryInit_spec available fuel 0) as (k & E & _ & Hhi & Hno & Hyes).
    { unfold maxRetries. lia. }
    exists k. unfold maxRetries in *. split; [exact E|]. split; [lia|].
    split; [|exact Hyes].
    intros j Hj. apply Hno. lia.
Qed.

Lemma initializeWithRetry_bounded_witness :
  exists k : nat,
    initializeWithRetry 4 (fun n => (2 <=? n)%nat) = Some k
    /\ (k <= 3)%nat
    /\ (forall j : nat, (j < k)%nat -> (2 <=? j)%nat = false)
    /\ ((k < 3)%nat -> (2 <=? k)%nat = true).
Proof. apply (initializeWithRetry_bounded (fun n => (2 <=? n)%nat) 4). lia. Defined.


(** ** From the popup to the page *)

Lemma ids_spec (id : string) :
  id ∈ ids -> id <> "playbackRate" /\ is_Some (DEFAULT_SETTINGS !! id).
Proof.
  intros Hin. vm_compute in Hin.
  repeat (apply elem_of_cons in Hin as [->|Hin];
          [split; [discriminate | eexists; vm_compute; reflexivity]|]).
  by apply elem_of_nil in Hin.
Qed.

Lemma onSettingsLoaded_current (newSettings : nat) (now : Z) (st : state) :
  currentSettings (onSettingsLoaded newSettings now st) = newSettings.
Proof.
  unfold onSettingsLoaded. cbv zeta.
  set (st1 := set_currentSettings newSettings st).
  destruct (changeHandlerSuppresses _ _ _).
  - by rewrite (proj2 (afterSettingsApplied_same _ _ _)).
  - pose proof (applySettingsImmediately_rateFrame (currentSettings st1) st1) as [Hc _].
    unfold applySettingsImmediately, exec in Hc.
    destruct (applySettingsImmediately_call (currentSettings st1) st1) as [[[]|] st2];
      cbn [snd] in Hc; [|exact Hc].
    by rewrite (proj2 (afterSettingsApplied_same _ _ _)).
Qed.

Lemma onChange_items `{Builtins} (id : string) (pg : popupPage) (c : chromeEnv)
    (el : popupElement) :
  popup_elements pg !! id = Some el ->
  sync_items (onChange id (pg, c)).2.2
  = match sync_set c with
    | SetSucceeds => <[id := changedValue el]> (sync_items c)
    | _ => sync_items c
    end.
Proof.
  intros Hel. unfold onChange. rewrite Hel. unfold save, setControlsEnabled.
  destruct (sync_set c), (String.eqb id "masterEnabled"), (popup_controls pg);
    cbn [fst snd sync_items set_sync_items]; try reflexivity;
    symmetry; apply insert_union_singleton_l.
Qed.

(** ** The popup when it opens *)

Lemma initElement_lookup (values : gmap string jsval) (pg : popupPage) (i id : string) :
  popup_elements (initElement values pg i) !! id
  = (if decide (i = id) then initialised values id <$> popup_elements pg !! id
     else popup_elements pg !! id)
  /\ popup_controls (initElement values pg i) = popup_controls pg.
Proof.
  unfold initElement. destruct (popup_elements pg !! i) as [el|] eqn:Hi.
  - cbn [popup_elements popup_controls]. split; [|reflexivity].
    destruct (decide (i = id)) as [<-|Hne].
    + rewrite lookup_insert_eq, Hi. reflexivity.
    + by rewrite lookup_insert_ne.
  - split; [|reflexivity]. destruct (decide (i = id)) as [<-|Hne]; [by rewrite Hi | reflexivity].
Qed.

Lemma foldl_initElement (values : gmap string jsval) (l : list string) (id : string) :
  NoDup l ->
  forall pg : popupPage,
    popup_elements (foldl (initElement values) pg l) !! id
    = (if decide (id ∈ l) then initialised values id <$> popup_elements pg !! id
       else popup_elements pg !! id)
    /\ popup_controls (foldl (initElement values) pg l) = popup_controls pg.
Proof.
  induction 1 as [|i l Hi Hnd IH]; intros pg; cbn [foldl].
  - rewrite decide_False by apply not_elem_of_nil. done.
  - destruct (IH (initElement values pg i)) as [-> ->].
    destruct (initElement_lookup values pg i id) as [-> ->]. split; [|reflexivity].
    destruct (decide (id ∈ i :: l)) as [Hin'|Hout'];
      destruct (decide (id ∈ l)) as [Hin|Hout];
      destruct (decide (i = id)) as [<-|Hne];
      try reflexivity; try contradiction;
      try (exfalso; apply elem_of_cons in Hin' as [?|?]; [congruence|contradiction]);
      exfalso; apply Hout'; apply elem_of_cons; (by left) || (by right).
Qed.

(** X15. The popup when it opens.  Unless the read of the synced area
    throws (then nothing is set up), [init] gives every element whose id is
    a key of [DEFAULTS] other than [playbackRate] exactly one more [change]
    listener and, where the value read is a boolean, that value as its
    checked state; it leaves every other element alone, leaves the synced
    area as it is, and locks the controls exactly when the [masterEnabled]
    read is falsy. *)
Theorem init_shows_stored (pg : popupPage) (c : chromeEnv) :
  (sync_get c = GetThrows -> init (pg, c) = (Throw, (pg, c)))
  /\ (sync_get c <> GetThrows ->
      exists values : gmap string jsval,
        getAll c = Normal values
        /\ (init (pg, c)).2.2 = c
        /\ (forall (id : string) (el : popupElement),
              id ∈ ids -> popup_elements pg !! id = Some el ->
              exists el' : popupElement,
                popup_elements (init (pg, c)).2.1 !! id = Some el'
                /\ el_listeners el' = S (el_listeners el)
                /\ el_type el' = el_type el /\ el_value el' = el_value el
                /\ el_checked el' = match values !! id with
                                    | Some (JBool b) => b
                                    | _ => el_checked el
                                    end)
        /\ (forall id : string,
              id ∉ ids ->
              popup_elements (init (pg, c)).2.1 !! id = popup_elements pg !! id)
        /\ (is_Some (popup_controls pg) ->
            popup_controls (init (pg, c)).2.1
            = Some (negb (truthy (values !! "masterEnabled"))))).
Proof.
  split.
  - intros Hget. unfold init, getAll. by rewrite Hget.
  - intros Hget.
    assert (Hvalues : exists values, getAll c = Normal values).
    { unfold getAll. destruct (sync_get c); [contradiction|eauto..]. }
    destruct Hvalues as [values Hvalues]. exists values. split; [exact Hvalues|].
    assert (Hnd : NoDup ids) by compute_done.
    assert (Hinit : (init (pg, c)).2
                    = ((setControlsEnabled (values !! "masterEnabled")
                          (foldl (initElement values) pg ids)).2, c)).
    { unfold init. rewrite Hvalues. by destruct (setControlsEnabled _ _). }
    rewrite Hinit. cbn [fst snd].
    assert (Hel : forall pg1, popup_elements
                                (setControlsEnabled (values !! "masterEnabled") pg1).2
                              = popup_elements pg1).
    { intros pg1. unfold setControlsEnabled. by destruct (popup_controls pg1). }
    rewrite Hel. split; [reflexivity|]. split; [|split].
    + intros id el Hid Hlook.
      destruct (foldl_initElement values ids id Hnd pg) as [-> _].
      rewrite decide_True, Hlook by exact Hid.
      eexists. split; [reflexivity|]. repeat split.
    + intros id Hid.
      destruct (foldl_initElement values ids id Hnd pg) as [-> _].
      by rewrite decide_False.
    + intros [d Hd]. unfold setControlsEnabled.
      destruct (foldl_initElement values ids "" Hnd pg) as [_ ->].
      rewrite Hd. reflexivity.
Qed.


(** ** [load] in the states the script reaches *)

Section LoadReachable.
Context `{Builtins}.

Lemma reachable_defaultsKept (st : state) : reachable st -> defaultsKept st.
Proof.
  induction 1 as [d ls c | op st Hreach IH | d st _ IH | ls st _ IH | c st _ IH];
    try exact IH.
  - split; [eexists; reflexivity|]. split; [reflexivity | eexists; reflexivity].
  - destruct IH as (Hd & Hkeys & Hrate).
    destruct (proj1 (run_frame op st) DEFAULT_REF Hd) as (Hd' & E & P).
    split; [exact Hd'|]. split; [|exact (P Hrate)].
    intros key Hkey. rewrite (E key Hkey). by apply Hkeys.
Qed.

Lemma defaultsKept_complete (st : state) :
  defaultsKept st -> complete (deref st DEFAULT_REF).
Proof.
  intros (_ & Hkeys & Hrate) key.
  destruct (decide (key = "playbackRate")) as [->|Hne].
  - split; [intros _; compute_done | intros _; exact Hrate].
  - rewrite (Hkeys key Hne). apply DEFAULT_SETTINGS_complete.
Qed.

Lemma overlay_keeps_complete (items : gmap string string) (obj : gmap string jsval) :
  complete obj -> complete (foldl (overlayKey items) obj SETTING_KEYS).
Proof.
  intros Hc key. rewrite overlay_lookup.
  destruct (decide (key ∈ SETTING_KEYS)) as [Hin|Hout]; [|apply Hc].
  split; [auto|]. intros _.
  destruct (storedValue items key); [eauto | by apply Hc].
Qed.

Lemma syncResult_keeps_complete (st : state) :
  complete (deref st DEFAULT_REF) -> complete (syncResult st).
Proof.
  intros Hc key. unfold syncResult. rewrite map_lookup_imap.
  rewrite <- (Hc key). destruct (deref st DEFAULT_REF !! key); cbn; [|reflexivity].
  split; eauto.
Qed.

End LoadReachable.

(** X16. [load] in the states the script reaches.  In every state the
    script can reach, whatever the probe finds, however the call to the
    primary backend ends and whether or not the local store throws, [load]
    completes normally with an object that has exactly the keys of the
    schema.  When it reads the fallback tier, a key with a valid stored
    text has the value of that text (a flag is true exactly when its text
    is the literal [true], the rate is the parsed text when that is a
    number other than NaN and above 0); every other key, and every key when
    the local store throws, has the value the [DEFAULT_SETTINGS] object
    holds at that moment, which for every key but [playbackRate] is the
    declared default. *)
Theorem load_resolves `{Builtins} (st : state) :
  reachable st ->
  exists (r : nat) (st' : state),
    loadSettingsFromStorage st = (Normal r, st')
    /\ complete (deref st' r)
    /\ (readsFallback st ->
        forall key : string, key ∈ SETTING_KEYS ->
          deref st' r !! key = loadedValue st key)
    /\ (forall key : string,
          key <> "playbackRate" ->
          deref st DEFAULT_REF !! key = DEFAULT_SETTINGS !! key).
Proof.
  intros Hreach.
  pose proof (reachable_defaultsKept st Hreach) as Hkept.
  pose proof (defaultsKept_complete st Hkept) as Hc.
  destruct Hkept as (Hd & Hkeys & _).
  destruct (load_cases st Hd) as (r & st' & E & Hcases).
  exists r, st'. split; [exact E|].
  unfold loadedValue.
  destruct Hcases as [(Hfb & Hget & ->) | [(Hfb & Hget & ->) | [(Hav & Hget & ->) | (Hav & Hget & ->)]]].
  - split; [exact Hc|]. split; [|exact Hkeys]. intros _ key _. by rewrite Hget.
  - split; [by apply overlay_keeps_complete|]. split; [|exact Hkeys].
    intros _ key Hin. rewrite Hget, overlay_lookup, decide_True by exact Hin.
    reflexivity.
  - split; [by apply syncResult_keeps_complete|]. split; [|exact Hkeys].
    intros [Hno | [Hthrows | Herr]]; congruence.
  - split; [exact Hc|]. split; [|exact Hkeys].
    intros [Hno | [Hthrows | Herr]]; congruence.
Qed.

Lemma load_resolves_witness :
  let st := run (SelectSpeed (Fin (5 # 2)) 0) (run Initialize failingStoresState) in
  exists (r : nat) (st' : state),
    loadSettingsFromStorage st = (Normal r, st')
    /\ complete (deref st' r)
    /\ deref st' r !! "playbackRate" = Some (JNum (Fin (5 # 2)))
    /\ deref st' r !! "hideGuide" = Some (JBool false).
Proof.
  intros st.
  destruct (load_resolves st) as (r & st' & E & Hc & Hfb & _).
  { apply reach_run, reach_run, reach_start. }
  exists r, st'. split; [exact E|]. split; [exact Hc|].
  assert (Hoff : readsFallback st) by (right; right; reflexivity).
  split; (rewrite (Hfb Hoff); [vm_compute; reflexivity | compute_done]).
Defined.

(** ** From the popup to the page: the change *)

(** X14. A checkbox of the popup reaches the page.  When a checkbox the
    popup listens to is changed and the synced area accepts the write, the
    area changes under that key only (never under [playbackRate]), and for
    the master switch the popup locks its controls, where it has them,
    exactly when the switch is off.  If moreover the content script, in a
    state it can reach, finds its extension storage available and its read
    of the synced area succeeds, then once it has handled the change
    notification its current settings hold the checkbox's state under that
    key and the body's markers say what those settings say. *)
Theorem popup_change_reaches_page `{Builtins} (id : string) (b : bool)
    (pg : popupPage) (pc : chromeEnv) (el : popupElement) (now : Z) (st : state) :
  id ∈ ids ->
  popup_elements pg !! id = Some el ->
  el_type el = "checkbox" -> el_checked el = b ->
  sync_set pc = SetSucceeds ->
  let after := (onChange id (pg, pc)).2 in
  sync_items after.2 = <[id := JBool b]> (sync_items pc)
  /\ sync_items after.2 !! "playbackRate" = sync_items pc !! "playbackRate"
  /\ (id = "masterEnabled" -> is_Some (popup_controls pg) ->
      popup_controls after.1 = Some (negb b))
  /\ (reachable st ->
      sync_items pc = sync_items (chrome st) ->
      isChromeStorageAvailable st = true ->
      sync_get (chrome st) = GetSucceeds ->
      let st' := run (StorageChanged "sync" now)
                     (set_chrome (set_sync_items (sync_items after.2) (chrome st)) st) in
      current st' !! id = Some (JBool b) /\ markersInStep st').
Proof.
  intros Hid Hel Htype Hchecked Hset after.
  destruct (ids_spec id Hid) as [Hrate [dflt Hdflt]].
  assert (Hval : changedValue el = JBool b).
  { unfold changedValue. by rewrite Htype, Hchecked. }
  assert (Hitems : sync_items after.2 = <[id := JBool b]> (sync_items pc)).
  { unfold after. rewrite (onChange_items id pg pc el Hel), Hset, Hval. reflexivity. }
  split; [exact Hitems|]. split.
  { rewrite Hitems. by rewrite lookup_insert_ne by congruence. }
  split.
  { intros -> [d Hd']. unfold after, onChange. rewrite Hel. unfold save. rewrite Hset.
    change (String.eqb "masterEnabled" "masterEnabled") with true. cbv iota.
    unfold setControlsEnabled. rewrite Hd'. cbn [fst snd popup_controls].
    rewrite Hval. reflexivity. }
  intros Hreach Hshared Hav Hget st'.
  destruct (reachable_defaultsKept st Hreach) as (_ & Hkeys & _).
  set (stc := set_chrome (set_sync_items (sync_items after.2) (chrome st)) st) in st'.
  assert (Havc : isChromeStorageAvailable stc = true) by exact Hav.
  assert (Hgetc : sync_get (chrome stc) = GetSucceeds) by exact Hget.
  destruct (load_primary stc Havc Hgetc) as [ls' E].
  set (r := fresh (dom (heap stc))) in E.
  set (st1 := set_localStorage ls' _) in E.
  assert (Hst' : st' = onSettingsLoaded r now st1).
  { unfold st'. cbn [run]. unfold exec, handleStorageChanges.
    change (negb (String.eqb "sync" "sync")) with false. cbv iota.
    unfold mbind at 1, M_bind at 1, bind at 1. rewrite E. reflexivity. }
  assert (Hr1 : heap st1 !! r = Some (syncResult stc)).
  { change (heap st1) with (<[r := syncResult stc]> (heap stc)).
    apply lookup_insert_eq. }
  split.
  - rewrite Hst'. unfold current. rewrite onSettingsLoaded_current.
    destruct (onSettingsLoaded_heapFrame r now st1 r) as (_ & Hkeep & _); [by rewrite Hr1|].
    rewrite (Hkeep id Hrate). unfold deref. rewrite Hr1. cbn [default from_option Datatypes.id].
    unfold syncResult. rewrite map_lookup_imap.
    change (deref stc DEFAULT_REF) with (deref st DEFAULT_REF).
    rewrite (Hkeys id Hrate), Hdflt. cbn.
    change (sync_items (chrome stc)) with (sync_items after.2).
    rewrite Hitems, lookup_insert_eq. reflexivity.
  - rewrite Hst'. apply onSettingsLoaded_markers.
Qed.

Lemma popup_change_reaches_page_witness :
  let after := (onChange "hideHome" (samplePopup, workingChrome)).2 in
  let st' := run (StorageChanged "sync" 0)
                 (set_chrome (set_sync_items (sync_items after.2) (chrome startState))
                             startState) in
  current st' !! "hideHome" = Some (JBool false)
  /\ body (doc st') !! "data-ghostfeed-hide-home" = None
  /\ body (doc st') !! "data-ghostfeed-hide-shorts" = Some "true".
Proof.
  destruct (popup_change_reaches_page "hideHome" false samplePopup workingChrome
              (PopupElement "checkbox" false "on" 0) 0 startState)
    as (_ & _ & _ & Hpage); try reflexivity; [compute_done|].
  destruct Hpage as (Hcur & [_ Hflags]); try reflexivity; [apply reach_start|].
  cbv zeta. split; [exact Hcur|]. split.
  - rewrite (Hflags "hideHome" "data-ghostfeed-hide-home") by compute_done.
    rewrite Hcur. cbn [truthy]. by rewrite andb_false_r.
  - vm_compute. reflexivity.
Defined.
